(** * NYC taxi mobility explorer: ingestion pipeline and K-means engine

    A shallow embedding of [scripts/importData.js], [scripts/importZones.js]
    and the [TripClusterer] class of the server, with the properties of the
    design specification stated and proved over it.

    Modelling conventions, used throughout:
    - a JavaScript number is a [num]: NaN, an infinity, or a finite value
      carried as an exact rational.  Arithmetic on finite values is exact
      (neither the rounding of IEEE doubles nor their overflow to an
      infinity is modelled) and the two zeros are identified; every
      comparison and every special-value rule (NaN propagation,
      infinities) follows the language;
    - a loosely typed field value is a [jsval];
    - a string is a Rocq [string] of one-byte characters, whitespace being the
      six ASCII whitespace characters;
    - the built-in parsers, number printing and the calendar functions of
      [Date] belong to the language runtime, not to the repository: they are
      the fields of the class [JsRuntime], and every theorem holds for every
      runtime. *)

From Stdlib Require Import ZArith QArith Qround Qminmax String Ascii List Lia Bool FinFun.
From stdpp Require Import base option list gmap.

Import ListNotations.
Local Open Scope Z_scope.

(** ** JavaScript numbers *)

Module JsNum.

Inductive num : Type :=
| NaN
| NInf
| Fin (q : Q)
| PInf.

Definition isNaN (n : num) : bool :=
  match n with NaN => true | _ => false end.

Definition Qltb (a b : Q) : bool := negb (Qle_bool b a).

(** [a < b]: false as soon as one side is NaN. *)
Definition lt (a b : num) : bool :=
  match a, b with
  | NaN, _ | _, NaN => false
  | NInf, NInf => false
  | NInf, _ => true
  | Fin _, NInf => false
  | Fin x, Fin y => Qltb x y
  | Fin _, PInf => true
  | PInf, _ => false
  end.

Definition gt (a b : num) : bool := lt b a.

(** [a === b] on numbers. *)
Definition eqb (a b : num) : bool :=
  match a, b with
  | NInf, NInf | PInf, PInf => true
  | Fin x, Fin y => Qeq_bool x y
  | _, _ => false
  end.

Definition of_Z (z : Z) : num := Fin (inject_Z z).

Definition neg (a : num) : num :=
  match a with
  | NaN => NaN
  | NInf => PInf
  | Fin x => Fin (- x)
  | PInf => NInf
  end.

Definition add (a b : num) : num :=
  match a, b with
  | NaN, _ | _, NaN => NaN
  | PInf, NInf | NInf, PInf => NaN
  | PInf, _ | _, PInf => PInf
  | NInf, _ | _, NInf => NInf
  | Fin x, Fin y => Fin (x + y)
  end.

Definition sub (a b : num) : num := add a (neg b).

(** The sign of a finite value: [Lt] negative, [Eq] zero, [Gt] positive. *)
Definition sign (x : Q) : comparison := Qcompare x 0.

Definition inf_signed (s : comparison) : num :=
  match s with Lt => NInf | Eq => NaN | Gt => PInf end.

Definition flip (s : comparison) : comparison := CompOpp s.

Definition mul (a b : num) : num :=
  match a, b with
  | NaN, _ | _, NaN => NaN
  | Fin x, Fin y => Fin (x * y)
  | PInf, Fin y | Fin y, PInf => inf_signed (sign y)
  | NInf, Fin y | Fin y, NInf => inf_signed (flip (sign y))
  | PInf, PInf | NInf, NInf => PInf
  | PInf, NInf | NInf, PInf => NInf
  end.

(** Division; a zero divisor is the positive zero. *)
Definition div (a b : num) : num :=
  match a, b with
  | NaN, _ | _, NaN => NaN
  | Fin x, Fin y =>
      if Qeq_bool y 0 then inf_signed (sign x) else Fin (x / y)
  | Fin _, PInf | Fin _, NInf => Fin 0
  | PInf, Fin y => if Qltb y 0 then NInf else PInf
  | NInf, Fin y => if Qltb y 0 then PInf else NInf
  | PInf, _ | NInf, _ => NaN
  end.

(** [Math.min(a, b)]. *)
Definition min (a b : num) : num :=
  match a, b with
  | NaN, _ | _, NaN => NaN
  | _, _ => if lt b a then b else a
  end.

(** [x || 0] on a number: NaN and zero are falsy. *)
Definition or_zero (a : num) : num :=
  match a with
  | NaN => Fin 0
  | _ => a
  end.

(** Truthiness of a number. *)
Definition truthy (a : num) : bool :=
  match a with
  | NaN => false
  | Fin x => negb (Qeq_bool x 0)
  | _ => true
  end.

(** The integer a number denotes, when it denotes one. *)
Definition to_Z (a : num) : option Z :=
  match a with
  | Fin x => if Qeq_bool x (inject_Z (Qfloor x)) then Some (Qfloor x) else None
  | _ => None
  end.

(** [Math.floor] of a finite value. *)
Definition floor (x : Q) : Z := Qfloor x.

End JsNum.

Export JsNum.

(** ** Loosely typed values and string helpers *)

Module Js.

Local Open Scope string_scope.

Inductive jsval : Type :=
| VUndefined
| VNull
| VStr (s : string)
| VNum (n : num).

(** [val === null || val === undefined || val === ''], also written
    [val == null || val === ''] *)
Definition is_blank (v : jsval) : bool :=
  match v with
  | VNull | VUndefined | VStr EmptyString => true
  | _ => false
  end.

(** [val == null] *)
Definition is_nullish (v : jsval) : bool :=
  match v with
  | VNull | VUndefined => true
  | _ => false
  end.

(** [!val] *)
Definition falsy (v : jsval) : bool :=
  match v with
  | VUndefined | VNull => true
  | VStr s => match s with EmptyString => true | _ => false end
  | VNum n => negb (JsNum.truthy n)
  end.

(** [s.replace(/,/g, '')] *)
Fixpoint remove_commas (s : string) : string :=
  match s with
  | EmptyString => EmptyString
  | String c r =>
      if Ascii.eqb c "," then remove_commas r else String c (remove_commas r)
  end.

Definition is_space (c : ascii) : bool :=
  let n := nat_of_ascii c in
  (Nat.eqb n 32 || (Nat.leb 9 n && Nat.leb n 13))%bool.

Definition is_digit (c : ascii) : bool :=
  let n := nat_of_ascii c in
  (Nat.leb 48 n && Nat.leb n 57)%bool.

Fixpoint trim_start (s : string) : string :=
  match s with
  | String c r => if is_space c then trim_start r else s
  | EmptyString => EmptyString
  end.

Fixpoint trim_end (s : string) : string :=
  match s with
  | EmptyString => EmptyString
  | String c r =>
      match trim_end r with
      | EmptyString => if is_space c then EmptyString else String c EmptyString
      | r' => String c r'
      end
  end.

(** [s.trim()] *)
Definition trim (s : string) : string := trim_end (trim_start s).

(** [s.charAt(0)] *)
Definition charAt0 (s : string) : string :=
  match s with
  | EmptyString => EmptyString
  | String c _ => String c EmptyString
  end.

Definition digit_value (c : ascii) : Z := Z.of_nat (nat_of_ascii c) - 48.

(** Exactly [n] decimal digits at the head of [s]; the rest is returned. *)
Fixpoint take_digits (n : nat) (s : string) : option string :=
  match n with
  | O => Some s
  | S n' =>
      match s with
      | String c r => if is_digit c then take_digits n' r else None
      | EmptyString => None
      end
  end.

Definition take_char (p : ascii -> bool) (s : string) : option string :=
  match s with
  | String c r => if p c then Some r else None
  | EmptyString => None
  end.

(** The value spelled by the first [n] characters of [s], read as decimal
    digits. *)
Fixpoint digits_value (n : nat) (s : string) (acc : Z) : Z :=
  match n, s with
  | S n', String c r => digits_value n' r (10 * acc + digit_value c)
  | _, _ => acc
  end.

(** [n] digits followed by a colon: the group [(\d{n}):]. *)
Definition hour_group (n : nat) (s : string) : option Z :=
  r ← take_digits n s;
  _ ← take_char (Ascii.eqb ":") r;
  Some (digits_value n s 0).

(** The capture of [s.match(/^\d{4}-\d{2}-\d{2}\s(\d{1,2}):/)], as the
    number its one or two digits spell; the quantifier is greedy, two
    digits are tried first. *)
Definition match_hour (s : string) : option Z :=
  r1 ← take_digits 4 s;
  r2 ← take_char (Ascii.eqb "-") r1;
  r3 ← take_digits 2 r2;
  r4 ← take_char (Ascii.eqb "-") r3;
  r5 ← take_digits 2 r4;
  r6 ← take_char is_space r5;
  match hour_group 2 r6 with
  | Some h => Some h
  | None => hour_group 1 r6
  end.

(** [s.replace('T', ' ')]: the first occurrence only. *)
Fixpoint replace_T (s : string) : string :=
  match s with
  | EmptyString => EmptyString
  | String c r => if Ascii.eqb c "T" then String " " r else String c (replace_T r)
  end.

(** The services of the language runtime the code calls. *)
Class JsRuntime : Type := {
  (** [parseInt(s, 10)] *)
  parseInt10 : string -> num;
  (** [parseFloat(s)] *)
  parseFloat : string -> num;
  (** [String(n)] for a number [n] *)
  Number_toString : num -> string;
  (** the time value, in milliseconds, of [new Date(val)]; [None] when it
      is NaN (an invalid date) *)
  Date_new : jsval -> option Z;
  (** [getHours()], [getDay()], [getMonth()] of the date with the given
      time value *)
  Date_getHours : Z -> Z;
  Date_getDay : Z -> Z;
  Date_getMonth : Z -> Z;
  (** [toISOString()] of the date with the given time value *)
  Date_toISOString : Z -> string;
}.

(** [String(val)] *)
Definition js_String `{JsRuntime} (v : jsval) : string :=
  match v with
  | VUndefined => "undefined"
  | VNull => "null"
  | VStr s => s
  | VNum n => Number_toString n
  end.

(** [parseFloat(val)]: the argument is converted to a string first; a
    number prints and parses back to itself. *)
Definition js_parseFloat `{JsRuntime} (v : jsval) : num :=
  match v with
  | VNum n => n
  | _ => parseFloat (js_String v)
  end.

End Js.

Export Js.

(** ** scripts/importData.js: validation and enrichment *)

Module ImportData.

Local Open Scope string_scope.
Local Open Scope list_scope.

Definition MILES_TO_KM : num := Fin (160934 # 100000).
Definition BATCH_SIZE : nat := 2000.

(** A raw trip row, as the CSV parser or [rowFromParquetRecord] hands it
    over. *)
Record row : Type := {
  VendorID : jsval;
  tpep_pickup_datetime : jsval;
  tpep_dropoff_datetime : jsval;
  passenger_count : jsval;
  trip_distance : jsval;
  RatecodeID : jsval;
  store_and_fwd_flag : jsval;
  PULocationID : jsval;
  DOLocationID : jsval;
  payment_type : jsval;
  fare_amount : jsval;
  extra : jsval;
  mta_tax : jsval;
  tip_amount : jsval;
  tolls_amount : jsval;
  improvement_surcharge : jsval;
  total_amount : jsval;
  congestion_surcharge : jsval
}.

(** A value of the zone map; the three columns are nullable. *)
Record zone : Type := {
  borough : option string;
  zone_name : option string;
  service_zone : option string
}.

(** The module variable [zoneMap]: [None] is its initial [null], and a
    loaded map is keyed by the integer [location_id] column. *)
Definition zone_map : Type := option (gmap Z zone).

(** One record of [SELECT location_id, borough, zone, service_zone FROM zones]. *)
Record zone_record : Type := {
  zr_location_id : Z;
  zr_zone : zone
}.

Definition loadZoneMap (rows : list zone_record) : gmap Z zone :=
  fold_left (fun m r => <[zr_location_id r := zr_zone r]> m) rows ∅.

(** [zoneMap.get(n)] for a number [n]. *)
Definition zoneMap_get (m : gmap Z zone) (n : num) : option zone :=
  k ← JsNum.to_Z n; m !! k.

(** [zoneMap.has(n)] *)
Definition zoneMap_has (m : gmap Z zone) (n : num) : bool :=
  bool_decide (is_Some (zoneMap_get m n)).

Inductive reason : Type :=
| invalid_or_unknown_zone
| invalid_timestamp
| duration_out_of_range
| invalid_passenger_count
| trip_distance_out_of_range
| fare_out_of_range
| total_amount_out_of_range.

Definition reason_code (r : reason) : string :=
  match r with
  | invalid_or_unknown_zone => "invalid_or_unknown_zone"
  | invalid_timestamp => "invalid_timestamp"
  | duration_out_of_range => "duration_out_of_range"
  | invalid_passenger_count => "invalid_passenger_count"
  | trip_distance_out_of_range => "trip_distance_out_of_range"
  | fare_out_of_range => "fare_out_of_range"
  | total_amount_out_of_range => "total_amount_out_of_range"
  end.

(** The object an accepted row is validated to. *)
Record ctx : Type := {
  durationSec : Z;
  tripDistance : num;
  fareAmount : num;
  totalAmount : num;
  pu : num;
  do : num;
  pickup : Z;
  dropoff : Z;
  passengers : num;
  ctx_row : row
}.

(** [{ ok: false, reason }] or [{ ok: true, ... }] *)
Inductive validation : Type :=
| Rejected (r : reason)
| Accepted (c : ctx).

Definition ok (v : validation) : bool :=
  match v with Accepted _ => true | Rejected _ => false end.

(** [Math.round(ms / 1000)] of an integer number of milliseconds:
    rounding is to the nearest integer, a half going up.  The difference of
    two time values is an integer; where the result is within the bounds
    the validator tests, the division in doubles rounds to this integer,
    and beyond them both are out of bounds. *)
Definition round_seconds (ms : Z) : Z := (ms + 500) / 1000.

(** The persisted trip: the columns of the [trips] table, in order.  A
    field of the raw row that keeps its name is prefixed with [t_]. *)
Record trip : Type := {
  vendor_id : option num;
  t_pickup_datetime : Z;
  t_dropoff_datetime : Z;
  t_passenger_count : num;
  t_trip_distance : num;
  rate_code_id : option num;
  t_store_and_fwd_flag : option string;
  pu_location_id : num;
  do_location_id : num;
  t_payment_type : option num;
  t_fare_amount : num;
  t_extra : num;
  t_mta_tax : num;
  t_tip_amount : num;
  t_tolls_amount : num;
  t_improvement_surcharge : num;
  t_total_amount : num;
  t_congestion_surcharge : num;
  trip_duration_sec : Z;
  speed_kmh : num;
  fare_per_km : num;
  tip_rate : num;
  hour_of_day : Z;
  day_of_week : Z;
  month : Z;
  pickup_borough : option string;
  dropoff_borough : option string;
  trip_type : string
}.

Section WithRuntime.

Context `{RT : JsRuntime}.

Definition parseNum (val : jsval) (def : num) : num :=
  if is_blank val then def
  else
    let n := parseFloat (remove_commas (js_String val)) in
    if isNaN n then def else n.

(** The default is a number in [isValidTrip] and [null] in [enrich]:
    [ret] injects the parsed number into the caller's result type. *)
Definition parseIntStrict {A : Type} (ret : num -> A) (val : jsval) (def : A) : A :=
  if is_blank val then def
  else
    let n := parseInt10 (remove_commas (js_String val)) in
    if isNaN n then def else ret n.

(** The date is kept as its time value in milliseconds. *)
Definition parseTimestamp (val : jsval) : option Z :=
  if falsy val then None else Date_new val.

Definition getHourFromTimestamp (val : jsval) : Z :=
  if is_blank val then 0
  else
    match match_hour (trim (js_String val)) with
    | Some h => h mod 24
    | None =>
        match Date_new val with
        | None => 0
        | Some d => Date_getHours d
        end
    end.

Definition getDayMonthFromTimestamp (val : jsval) : Z * Z :=
  if is_blank val then (0, 1)
  else
    match Date_new val with
    | None => (0, 1)
    | Some d => (Date_getDay d, Date_getMonth d + 1)
    end.

Definition isValidTrip (zoneMap : zone_map) (r : row) : validation :=
  let pu := parseIntStrict id (PULocationID r) NaN in
  let doLoc := parseIntStrict id (DOLocationID r) NaN in
  match zoneMap with
  | None => Rejected invalid_or_unknown_zone
  | Some zm =>
      if (negb (zoneMap_has zm pu) || negb (zoneMap_has zm doLoc))%bool
      then Rejected invalid_or_unknown_zone
      else
        match parseTimestamp (tpep_pickup_datetime r),
              parseTimestamp (tpep_dropoff_datetime r) with
        | Some pickup, Some dropoff =>
            let durationSec := round_seconds (dropoff - pickup) in
            if ((durationSec <? 60)%Z || (durationSec >? 86400)%Z)%bool
            then Rejected duration_out_of_range
            else
              let passengers := parseIntStrict id (passenger_count r) (of_Z (-1)) in
              if (JsNum.lt passengers (of_Z 0) || JsNum.gt passengers (of_Z 9))%bool
              then Rejected invalid_passenger_count
              else
                let tripDistance := parseNum (trip_distance r) (of_Z (-1)) in
                if (JsNum.lt tripDistance (of_Z 0) || JsNum.gt tripDistance (of_Z 500))%bool
                then Rejected trip_distance_out_of_range
                else
                  let fareAmount := parseNum (fare_amount r) (of_Z (-1)) in
                  if (JsNum.lt fareAmount (of_Z 0) || JsNum.gt fareAmount (of_Z 10000))%bool
                  then Rejected fare_out_of_range
                  else
                    let totalAmount := parseNum (total_amount r) (of_Z (-1)) in
                    if (JsNum.lt totalAmount (of_Z 0) || JsNum.gt totalAmount (of_Z 10000))%bool
                    then Rejected total_amount_out_of_range
                    else
                      Accepted {| durationSec := durationSec;
                                  tripDistance := tripDistance;
                                  fareAmount := fareAmount;
                                  totalAmount := totalAmount;
                                  pu := pu;
                                  do := doLoc;
                                  pickup := pickup;
                                  dropoff := dropoff;
                                  passengers := passengers;
                                  ctx_row := r |}
        | _, _ => Rejected invalid_timestamp
        end
  end.

(** [a && b && a !== b] on two borough values: a string or [null]. *)
Definition str_truthy (o : option string) : bool :=
  match o with
  | Some s => negb (String.eqb s "")
  | None => false
  end.

Definition strict_neq (a b : option string) : bool :=
  negb (bool_decide (a = b)).

(** The enriched record; a [None] result is the TypeError of reading a
    [null] zone map. *)
Definition enrich (zoneMap : zone_map) (r : row) (c : ctx) : option trip :=
  let tipAmount := parseNum (tip_amount r) (of_Z 0) in
  let totalAmount := totalAmount c in
  let tipRate :=
    if JsNum.gt totalAmount (of_Z 0) then JsNum.div tipAmount totalAmount else of_Z 0 in
  let distanceKm := JsNum.mul (tripDistance c) MILES_TO_KM in
  let durationHours := JsNum.div (of_Z (durationSec c)) (of_Z 3600) in
  let speedKmh :=
    if JsNum.gt durationHours (of_Z 0) then JsNum.div distanceKm durationHours else of_Z 0 in
  let farePerKm :=
    if JsNum.gt distanceKm (of_Z 0) then JsNum.div (fareAmount c) distanceKm else of_Z 0 in
  zm ← zoneMap;
  let puZone := zoneMap_get zm (pu c) in
  let doZone := zoneMap_get zm (do c) in
  let pickupBorough := match puZone with Some z => borough z | None => Some "" end in
  let dropoffBorough := match doZone with Some z => borough z | None => Some "" end in
  let tripType :=
    if (str_truthy pickupBorough && str_truthy dropoffBorough
        && strict_neq pickupBorough dropoffBorough)%bool
    then "Cross Borough" else "Within Borough" in
  let dm := getDayMonthFromTimestamp (tpep_pickup_datetime r) in
  let flag :=
    charAt0 (trim (js_String (if falsy (store_and_fwd_flag r) then VStr "N"
                              else store_and_fwd_flag r))) in
  Some {| vendor_id := parseIntStrict Some (VendorID r) None;
          t_pickup_datetime := pickup c;
          t_dropoff_datetime := dropoff c;
          t_passenger_count := passengers c;
          t_trip_distance := tripDistance c;
          rate_code_id := parseIntStrict Some (RatecodeID r) None;
          t_store_and_fwd_flag := if String.eqb flag "" then None else Some flag;
          pu_location_id := pu c;
          do_location_id := do c;
          t_payment_type := parseIntStrict Some (payment_type r) None;
          t_fare_amount := fareAmount c;
          t_extra := parseNum (extra r) (of_Z 0);
          t_mta_tax := parseNum (mta_tax r) (of_Z 0);
          t_tip_amount := tipAmount;
          t_tolls_amount := parseNum (tolls_amount r) (of_Z 0);
          t_improvement_surcharge := parseNum (improvement_surcharge r) (of_Z 0);
          t_total_amount := totalAmount;
          t_congestion_surcharge := parseNum (congestion_surcharge r) (of_Z 0);
          trip_duration_sec := durationSec c;
          speed_kmh := JsNum.min (of_Z 200) speedKmh;
          fare_per_km := farePerKm;
          tip_rate := tipRate;
          hour_of_day := getHourFromTimestamp (tpep_pickup_datetime r);
          day_of_week := fst dm;
          month := snd dm;
          pickup_borough := pickupBorough;
          dropoff_borough := dropoffBorough;
          trip_type := tripType |}.

End WithRuntime.

(** *** The two ingestion loops *)

(** [{ processed, valid, invalid }] *)
Record stats : Type := {
  processed : nat;
  valid : nat;
  invalid : nat
}.

(** The variables of a run: the three counters, the current [batch] array,
    the lines appended to the exclusion log (reason and raw row; the
    wall-clock stamp of a line is left out), newest first. *)
Record run : Type := {
  counters : stats;
  batch : list trip;
  exclusion_log : list (reason * row)
}.

Definition run0 : run :=
  {| counters := {| processed := 0; valid := 0; invalid := 0 |};
     batch := [];
     exclusion_log := [] |}.

(** What one row does to the variables of a run before any suspension:
    [processed++], then either [invalid++] with a log line while
    [invalid <= 5000], or [batch.push(enrich(row, result)); valid++].
    [None] is an exception thrown by [enrich]. *)
Definition consume `{JsRuntime} (zoneMap : zone_map) (rw : row) (st : run) : option run :=
  let n := counters st in
  match isValidTrip zoneMap rw with
  | Rejected why =>
      let inv := S (invalid n) in
      Some {| counters := {| processed := S (processed n); valid := valid n; invalid := inv |};
              batch := batch st;
              exclusion_log :=
                if (inv <=? 5000)%nat then (why, rw) :: exclusion_log st
                else exclusion_log st |}
  | Accepted c =>
      t ← enrich zoneMap rw c;
      Some {| counters := {| processed := S (processed n); valid := S (valid n);
                             invalid := invalid n |};
              batch := batch st ++ [t];
              exclusion_log := exclusion_log st |}
  end.

Section Ingestion.

Context `{RT : JsRuntime}.

(** The persisted store: [store_insert] is one bulk [INSERT] of a non-empty
    batch, [None] when the statement fails. *)
Variable store : Type.
Variable store_insert : store -> list trip -> option store.

Definition insertBatch (db : store) (b : list trip) : option store :=
  match b with
  | [] => Some db
  | _ => store_insert db b
  end.

(** A record of the Parquet cursor carries the fields of a row. *)
Definition rowFromParquetRecord (rec : row) : option row :=
  let stamp (v : jsval) : option jsval :=
    if is_nullish v then Some (VStr "")
    else d ← Date_new v;
         Some (VStr (String.substring 0 19 (replace_T (Date_toISOString d)))) in
  p ← stamp (tpep_pickup_datetime rec);
  d ← stamp (tpep_dropoff_datetime rec);
  Some {| VendorID := VendorID rec;
          tpep_pickup_datetime := p;
          tpep_dropoff_datetime := d;
          passenger_count := passenger_count rec;
          trip_distance := trip_distance rec;
          RatecodeID := RatecodeID rec;
          store_and_fwd_flag :=
            VStr (if is_nullish (store_and_fwd_flag rec) then ""
                  else js_String (store_and_fwd_flag rec));
          PULocationID := PULocationID rec;
          DOLocationID := DOLocationID rec;
          payment_type := payment_type rec;
          fare_amount := fare_amount rec;
          extra := extra rec;
          mta_tax := mta_tax rec;
          tip_amount := tip_amount rec;
          tolls_amount := tolls_amount rec;
          improvement_surcharge := improvement_surcharge rec;
          total_amount := total_amount rec;
          congestion_surcharge := congestion_surcharge rec |}.

(** The [while] loop of [importFromParquet] over the records the cursor
    yields; [None] is an exception, which aborts the run. *)
Fixpoint parquet_loop (zoneMap : zone_map) (records : list row)
    (st : run) (db : store) : option (run * store) :=
  match records with
  | [] => Some (st, db)
  | rec :: rest =>
      rw ← rowFromParquetRecord rec;
      st1 ← consume zoneMap rw st;
      if (ok (isValidTrip zoneMap rw) && (BATCH_SIZE <=? length (batch st1))%nat)%bool
      then
        db1 ← insertBatch db (batch st1);
        parquet_loop zoneMap rest
          {| counters := counters st1; batch := []; exclusion_log := exclusion_log st1 |} db1
      else parquet_loop zoneMap rest st1 db
  end.

Definition importFromParquet (zoneMap : zone_map) (records : list row) (db : store)
    : option (stats * store) :=
  '(st, db1) ← parquet_loop zoneMap records run0 db;
  db2 ← (if (0 <? length (batch st))%nat then insertBatch db1 (batch st) else Some db1);
  Some (counters st, db2).

(** [importFromCsv] is driven by the events of the stream.  The handler of a
    ['data'] event runs up to its [await] without interruption; a handler
    suspended there resumes, with [batch = []], once its statement has
    completed, and other rows may have been handled in between.  The store
    is seen through the statements sent to it, oldest first. *)
Inductive csv_event : Type :=
| Data (rw : row)
| Resume.

Record csv_state : Type := {
  vars : run;
  suspended : nat;
  sent : list (list trip)
}.

Definition csv0 : csv_state := {| vars := run0; suspended := 0; sent := [] |}.

Definition csv_step (zoneMap : zone_map) (st : csv_state) (e : csv_event) : option csv_state :=
  match e with
  | Data rw =>
      v ← consume zoneMap rw (vars st);
      if (ok (isValidTrip zoneMap rw) && (BATCH_SIZE <=? length (batch v))%nat)%bool
      then Some {| vars := v; suspended := S (suspended st); sent := sent st ++ [batch v] |}
      else Some {| vars := v; suspended := suspended st; sent := sent st |}
  | Resume =>
      match suspended st with
      | O => None
      | S k =>
          Some {| vars := {| counters := counters (vars st); batch := [];
                             exclusion_log := exclusion_log (vars st) |};
                  suspended := k;
                  sent := sent st |}
      end
  end.

Fixpoint csv_events (zoneMap : zone_map) (es : list csv_event) (st : csv_state)
    : option csv_state :=
  match es with
  | [] => Some st
  | e :: rest => st1 ← csv_step zoneMap st e; csv_events zoneMap rest st1
  end.

(** The ['end'] handler: the last batch is sent when it is not empty, and the
    promise resolves with the counters. *)
Definition importFromCsv (zoneMap : zone_map) (es : list csv_event)
    : option (stats * list (list trip)) :=
  st ← csv_events zoneMap es csv0;
  Some (counters (vars st),
        if (0 <? length (batch (vars st)))%nat then sent st ++ [batch (vars st)]
        else sent st).

End Ingestion.

(** *** The checks of the validator, one by one *)

Section Checks.

Context `{RT : JsRuntime}.

(** The order in which the validator reports. *)
Definition check_order : list reason :=
  [ invalid_or_unknown_zone; invalid_timestamp; duration_out_of_range;
    invalid_passenger_count; trip_distance_out_of_range; fare_out_of_range;
    total_amount_out_of_range ].

Definition out_of_range (x lo hi : num) : bool :=
  (JsNum.lt x lo || JsNum.gt x hi)%bool.

(** [fails zoneMap r why]: the check that reports [why] fails on the row,
    taken on its own.  The duration check reads the two timestamps and does
    not fail when one of them does not parse. *)
Definition fails (zoneMap : zone_map) (r : row) (why : reason) : bool :=
  match why with
  | invalid_or_unknown_zone =>
      match zoneMap with
      | None => true
      | Some zm =>
          (negb (zoneMap_has zm (parseIntStrict id (PULocationID r) NaN))
           || negb (zoneMap_has zm (parseIntStrict id (DOLocationID r) NaN)))%bool
      end
  | invalid_timestamp =>
      match parseTimestamp (tpep_pickup_datetime r),
            parseTimestamp (tpep_dropoff_datetime r) with
      | Some _, Some _ => false
      | _, _ => true
      end
  | duration_out_of_range =>
      match parseTimestamp (tpep_pickup_datetime r),
            parseTimestamp (tpep_dropoff_datetime r) with
      | Some p, Some d =>
          ((round_seconds (d - p) <? 60)%Z || (round_seconds (d - p) >? 86400)%Z)%bool
      | _, _ => false
      end
  | invalid_passenger_count =>
      out_of_range (parseIntStrict id (passenger_count r) (of_Z (-1))) (of_Z 0) (of_Z 9)
  | trip_distance_out_of_range =>
      out_of_range (parseNum (trip_distance r) (of_Z (-1))) (of_Z 0) (of_Z 500)
  | fare_out_of_range =>
      out_of_range (parseNum (fare_amount r) (of_Z (-1))) (of_Z 0) (of_Z 10000)
  | total_amount_out_of_range =>
      out_of_range (parseNum (total_amount r) (of_Z (-1))) (of_Z 0) (of_Z 10000)
  end.

(** A borough value that is a string, and not the empty one. *)
Definition non_empty (o : option string) : Prop :=
  exists s, o = Some s /\ s <> "".

(** The place of a check in the order. *)
Definition rank (why : reason) : nat :=
  match why with
  | invalid_or_unknown_zone => 1
  | invalid_timestamp => 2
  | duration_out_of_range => 3
  | invalid_passenger_count => 4
  | trip_distance_out_of_range => 5
  | fare_out_of_range => 6
  | total_amount_out_of_range => 7
  end.

(** The first check of the order that fails, if any. *)
Definition first_failing (zoneMap : zone_map) (r : row) : option reason :=
  List.find (fails zoneMap r) check_order.

(** One more row counted, as accepted or as rejected. *)
Definition count_row (accepted : bool) (n : stats) : stats :=
  {| processed := S (processed n);
     valid := if accepted then S (valid n) else valid n;
     invalid := if accepted then invalid n else S (invalid n) |}.

(** The counters after a run of rows. *)
Definition count_rows (zoneMap : zone_map) (rows : list row) (n : stats) : stats :=
  fold_left (fun n r => count_row (ok (isValidTrip zoneMap r)) n) rows n.

(** The rows a run has handled, counted. *)
Definition tally (zoneMap : zone_map) (rows : list row) : stats :=
  {| processed := length rows;
     valid := length (List.filter (fun r => ok (isValidTrip zoneMap r)) rows);
     invalid := length (List.filter (fun r => negb (ok (isValidTrip zoneMap r))) rows) |}.

(** The rows of the ['data'] events of a trace. *)
Definition data_rows (es : list csv_event) : list row :=
  omap (fun e => match e with Data rw => Some rw | Resume => None end) es.

(** A completed ingestion over [rows] that returned [s]: the Parquet loop
    over records that convert to [rows], or the CSV events carrying
    [rows]. *)
Definition completes (zoneMap : zone_map) (rows : list row) (s : stats) : Prop :=
  (exists (store : Type) (store_insert : store -> list trip -> option store)
          (records : list row) (db db' : store),
      mapM rowFromParquetRecord records = Some rows
      /\ importFromParquet store store_insert zoneMap records db = Some (s, db'))
  \/ (exists (es : list csv_event) (q : list (list trip)),
         data_rows es = rows /\ importFromCsv zoneMap es = Some (s, q)).

End Checks.

End ImportData.


(** ** scripts/importZones.js: the zone store loader *)

Module ImportZones.

Local Open Scope string_scope.
Local Open Scope list_scope.

(** A row of the lookup file as the CSV parser yields it: every column is a
    string, or [undefined] when the file has no such column. *)
Record lookup_row : Type := {
  LocationID : option string;
  Borough : option string;
  Zone : option string;
  service_zone : option string
}.

(** A row of the [zones] table of [setupDatabase.js]. *)
Record zones_row : Type := {
  location_id : Z;
  z_borough : option string;
  z_zone : option string;
  z_service_zone : option string;
  centroid_lat : option num;
  centroid_lon : option num
}.

(** The table is the list of its rows; [location_id] is its primary key. *)
Definition zones_table : Type := list zones_row.

Definition keys (t : zones_table) : list Z := map location_id t.

Definition key_unique (t : zones_table) : Prop := NoDup (keys t).

(** The column types: [INTEGER] for [location_id], [VARCHAR(50)],
    [VARCHAR(255)] and [VARCHAR(50)] for the three names. *)
Definition as_integer (n : num) : option Z :=
  k ← JsNum.to_Z n;
  if ((- 2147483648 <=? k)%Z && (k <=? 2147483647)%Z)%bool then Some k else None.

Definition fits (limit : nat) (s : string) : bool :=
  (String.length s <=? limit)%nat.

Definition has_key (k : Z) (t : zones_table) : bool :=
  existsb (fun r => (location_id r =? k)%Z) t.

Definition set_names (b z s : string) (r : zones_row) : zones_row :=
  {| location_id := location_id r;
     z_borough := Some b;
     z_zone := Some z;
     z_service_zone := Some s;
     centroid_lat := centroid_lat r;
     centroid_lon := centroid_lon r |}.

(** The values of one statement, once they fit their columns. *)
Record statement : Type := {
  q_key : Z;
  q_borough : string;
  q_zone : string;
  q_service_zone : string
}.

Definition new_row (q : statement) : zones_row :=
  {| location_id := q_key q;
     z_borough := Some (q_borough q);
     z_zone := Some (q_zone q);
     z_service_zone := Some (q_service_zone q);
     centroid_lat := None;
     centroid_lon := None |}.

(** What the statement does to one row of the table. *)
Definition update_row (q : statement) (r : zones_row) : zones_row :=
  if (location_id r =? q_key q)%Z
  then set_names (q_borough q) (q_zone q) (q_service_zone q) r
  else r.

(** [INSERT ... ON CONFLICT (location_id) DO UPDATE SET borough = $2,
    zone = $3, service_zone = $4] on the table: the row with the key is
    updated where it stands, or the new row is added. *)
Definition run_statement (t : zones_table) (q : statement) : zones_table :=
  if has_key (q_key q) t then map (update_row q) t else t ++ [new_row q].

(** The statement with its parameters; [None] when a value does not fit its
    column and the statement fails. *)
Definition checked (locId : num) (b z s : string) : option statement :=
  k ← as_integer locId;
  if (fits 50 b && fits 255 z && fits 50 s)%bool
  then Some {| q_key := k; q_borough := b; q_zone := z; q_service_zone := s |}
  else None.

Definition upsert (t : zones_table) (locId : num) (b z s : string) : option zones_table :=
  run_statement t <$> checked locId b z s.

Section WithRuntime.

Context `{RT : JsRuntime}.

(** [parseInt(row.LocationID, 10)] *)
Definition locId_of (row : lookup_row) : num :=
  parseInt10 (match LocationID row with Some s => s | None => "undefined" end).

(** [(x || '').trim()] *)
Definition trimmed (x : option string) : string :=
  trim (match x with Some s => s | None => "" end).

(** The [for] loop over the parsed rows. *)
Fixpoint load_rows (t : zones_table) (rows : list lookup_row) : option zones_table :=
  match rows with
  | [] => Some t
  | row :: rest =>
      let locId := locId_of row in
      if isNaN locId then load_rows t rest
      else
        t1 ← upsert t locId (trimmed (Borough row)) (trimmed (Zone row))
                    (trimmed (service_zone row));
        load_rows t1 rest
  end.

(** The returned count and the table left behind; [None] when a statement
    fails. *)
Definition loadZonesFromLookup (t : zones_table) (rows : list lookup_row)
    : option (nat * zones_table) :=
  t1 ← load_rows t rows;
  Some (length rows, t1).

(** The statements the rows of a lookup file lead to, in order; [None] when
    one of them fails. *)
Fixpoint statements (rows : list lookup_row) : option (list statement) :=
  match rows with
  | [] => Some []
  | row :: rest =>
      let locId := locId_of row in
      if isNaN locId then statements rest
      else
        q ← checked locId (trimmed (Borough row)) (trimmed (Zone row))
                    (trimmed (service_zone row));
        qs ← statements rest;
        Some (q :: qs)
  end.

End WithRuntime.

(** The table after a list of statements. *)
Definition run_statements (t : zones_table) (qs : list statement) : zones_table :=
  fold_left run_statement qs t.

(** One row of the table through a list of statements. *)
Definition replay (qs : list statement) (r : zones_row) : zones_row :=
  fold_left (fun r q => update_row q r) qs r.

(** The last statement of the list for a key. *)
Fixpoint last_for (k : Z) (qs : list statement) : option statement :=
  match qs with
  | [] => None
  | q :: rest =>
      match last_for k rest with
      | Some q' => Some q'
      | None => if (k =? q_key q)%Z then Some q else None
      end
  end.

(** The row carries the names of the statement. *)
Definition named_by (q : statement) (r : zones_row) : Prop :=
  z_borough r = Some (q_borough q)
  /\ z_zone r = Some (q_zone q)
  /\ z_service_zone r = Some (q_service_zone q).

End ImportZones.


(** ** The clustering engine: class TripClusterer *)

Module Clusterer.

Local Open Scope list_scope.

(** A point: the three coordinates the engine reads, and the attributes it
    passes through. *)
Record point : Type := {
  lat : jsval;
  lon : jsval;
  duration : jsval;
  others : list (string * jsval)
}.

(** [{ ...undefined }]: the object without any field. *)
Definition no_point : point :=
  {| lat := VUndefined; lon := VUndefined; duration := VUndefined; others := [] |}.

(** [{ ...data[i] }] for a number [i]. *)
Definition copy_at (data : list point) (i : Z) : point :=
  if (i <? 0)%Z then no_point
  else match data !! Z.to_nat i with
       | Some p => p
       | None => no_point
       end.

(** [Math.random()] is an oracle: [rand t] is the value of the [t]-th call
    of the run, and the number of calls made so far is threaded through. *)
Definition oracle : Type := nat -> Q.

(** [Math.floor(Math.random() * data.length)] at call [t]. *)
Definition random_index (rand : oracle) (t : nat) (data : list point) : Z :=
  JsNum.floor (rand t * inject_Z (Z.of_nat (length data))).

(** A distance is kept as its square.  [Math.sqrt] is increasing, keeps NaN
    and the infinity, so that [<], [===] and [Math.min] on distances are
    these operations on the squares; a threshold is squared. *)
Record distance : Type := Sqrt { radicand : num }.

Definition dist_min (a b : distance) : distance :=
  Sqrt (JsNum.min (radicand a) (radicand b)).

Definition dist_eqb (a b : distance) : bool :=
  JsNum.eqb (radicand a) (radicand b).

(** [d < c] for a non-negative constant [c]. *)
Definition dist_below (d : distance) (c : Q) : bool :=
  JsNum.lt (radicand d) (Fin (c * c)).

Definition Infinity : distance := Sqrt PInf.

Section WithRuntime.

Context `{RT : JsRuntime}.

(** Both arguments are objects here, the guard on a missing one is not
    needed. *)
Definition calculateDistance (point1 point2 : point) : distance :=
  let lat1 := or_zero (js_parseFloat (lat point1)) in
  let lat2 := or_zero (js_parseFloat (lat point2)) in
  let lon1 := or_zero (js_parseFloat (lon point1)) in
  let lon2 := or_zero (js_parseFloat (lon point2)) in
  let dur1 := or_zero (js_parseFloat (duration point1)) in
  let dur2 := or_zero (js_parseFloat (duration point2)) in
  let latDiff := JsNum.sub lat1 lat2 in
  let lonDiff := JsNum.sub lon1 lon2 in
  let durationDiff := JsNum.div (JsNum.sub dur1 dur2) (of_Z 1000) in
  Sqrt (JsNum.add (JsNum.add (JsNum.mul latDiff latDiff) (JsNum.mul lonDiff lonDiff))
                  (JsNum.mul durationDiff durationDiff)).

(** The [do ... while] loop: draw until the index is unused.  [fuel] bounds
    the number of draws; [None] when it runs out. *)
Fixpoint draw_unused (fuel : nat) (rand : oracle) (data : list point)
    (usedIndices : gset Z) (t : nat) : option (Z * nat) :=
  match fuel with
  | O => None
  | S fuel' =>
      let randomIndex := random_index rand t data in
      if decide (randomIndex ∈ usedIndices)
      then draw_unused fuel' rand data usedIndices (S t)
      else Some (randomIndex, S t)
  end.

(** The [for] loop of [initializeCentroids], [n] rounds to go. *)
Fixpoint init_loop (fuel : nat) (rand : oracle) (data : list point) (n : nat)
    (usedIndices : gset Z) (centroids : list point) (t : nat)
    : option (list point * nat) :=
  match n with
  | O => Some (centroids, t)
  | S n' =>
      '(randomIndex, t1) ← draw_unused fuel rand data usedIndices t;
      init_loop fuel rand data n' ({[randomIndex]} ∪ usedIndices)
                (centroids ++ [copy_at data randomIndex]) t1
  end.

Definition initializeCentroids (fuel : nat) (rand : oracle) (t : nat)
    (data : list point) (k : Z) : option (list point * nat) :=
  init_loop fuel rand data (Z.to_nat k) ∅ [] t.

(** [Math.min(...distances)] *)
Definition min_of (distances : list distance) : distance :=
  fold_left dist_min distances Infinity.

(** [distances.indexOf(m)]; [None] is [-1]. *)
Fixpoint indexOf (distances : list distance) (m : distance) : option nat :=
  match distances with
  | [] => None
  | d :: rest => if dist_eqb d m then Some O else S <$> indexOf rest m
  end.

(** [clusters[i].push(point)] when [i] is an index of [clusters]. *)
Definition push_at (clusters : list (list point)) (i : nat) (p : point)
    : list (list point) :=
  match clusters !! i with
  | Some c => <[i := c ++ [p]]> clusters
  | None => clusters
  end.

(** The assignment step: [k] empty clusters, then every point goes to its
    nearest centroid, if it has one. *)
Definition assign (data centroids : list point) (k : Z) : list (list point) :=
  fold_left
    (fun clusters p =>
       let distances := map (calculateDistance p) centroids in
       match indexOf distances (min_of distances) with
       | Some nearestIndex => push_at clusters nearestIndex p
       | None => clusters
       end)
    data (replicate (Z.to_nat k) []).

(** [cluster.reduce((sum, p) => sum + parseFloat(p.f), 0) / cluster.length] *)
Definition average (f : point -> jsval) (cluster : list point) : num :=
  JsNum.div (fold_left (fun sum p => JsNum.add sum (js_parseFloat (f p))) cluster (of_Z 0))
            (of_Z (Z.of_nat (length cluster))).

(** The update step, cluster by cluster; an empty cluster draws a point. *)
Fixpoint update (rand : oracle) (data : list point) (clusters : list (list point))
    (t : nat) : list point * nat :=
  match clusters with
  | [] => ([], t)
  | cluster :: rest =>
      match cluster with
      | [] =>
          let randomIndex := random_index rand t data in
          let '(cs, t1) := update rand data rest (S t) in
          (copy_at data randomIndex :: cs, t1)
      | _ =>
          let c := {| lat := VNum (average lat cluster);
                      lon := VNum (average lon cluster);
                      duration := VNum (average duration cluster);
                      others := [] |} in
          let '(cs, t1) := update rand data rest t in
          (c :: cs, t1)
      end
  end.

(** [centroids.every((centroid, i) => distance(centroid, newCentroids[i]) < 0.001)] *)
Definition converged (centroids newCentroids : list point) : bool :=
  forallb (fun cn => dist_below (calculateDistance (fst cn) (snd cn)) (1 # 1000))
          (zip centroids newCentroids).

(** The [for] loop of [kMeans], [n] iterations to go; it yields the last
    value of [clusters]. *)
Fixpoint iterate (n : nat) (rand : oracle) (data : list point) (k : Z)
    (centroids : list point) (clusters : list (list point)) (t : nat)
    : list (list point) * nat :=
  match n with
  | O => (clusters, t)
  | S n' =>
      let clusters1 := assign data centroids k in
      let '(newCentroids, t1) := update rand data clusters1 t in
      if converged centroids newCentroids then (clusters1, t1)
      else iterate n' rand data k newCentroids clusters1 t1
  end.

Definition nonempty (cluster : list point) : bool :=
  (0 <? length cluster)%nat.

(** [kMeans(data, k, maxIterations)], started after [t] calls of
    [Math.random()]; the clusters and the number of calls then made.  The
    number of clusters is an integer: the caller passes [parseInt(k)]
    clamped to 1..20. *)
Definition kMeans (fuel : nat) (rand : oracle) (t : nat)
    (data : list point) (k : Z) (maxIterations : Z)
    : option (list (list point) * nat) :=
  if (length data =? 0)%nat then Some ([], t)
  else if ((k <=? 0)%Z || (k >? Z.of_nat (length data))%Z)%bool then Some ([data], t)
  else
    '(centroids, t1) ← initializeCentroids fuel rand t data k;
    let '(clusters, t2) := iterate (Z.to_nat maxIterations) rand data k centroids [] t1 in
    Some (List.filter nonempty clusters, t2).

End WithRuntime.

(** Every value of the source lies in [0, 1), as the language promises of
    [Math.random()]. *)
Definition in_unit (rand : oracle) : Prop :=
  forall t, (0 <= rand t < 1)%Q.

(** Every index of the input is drawn again after any number of calls. *)
Definition recurrent (rand : oracle) (data : list point) : Prop :=
  forall (t : nat) (j : Z),
    (0 <= j < Z.of_nat (length data))%Z ->
    exists t', (t <= t')%nat /\ random_index rand t' data = j.

(** The centroid [c] is the point of the input at index [i]. *)
Definition point_at (data : list point) (i : Z) (c : point) : Prop :=
  (0 <= i)%Z /\ data !! Z.to_nat i = Some c.

End Clusterer.


(** ** scripts/importZones.js: the centroids of the zones *)

Module Backfill.

Import ImportZones.

Local Open Scope list_scope.

(** A coordinate of a vertex: a number, or a value whose [typeof] is not
    ['number'] (a missing entry, a nested array). *)
Inductive coord : Type :=
| CNum (n : num)
| COther.

(** The first two entries of a vertex. *)
Definition vertex : Type := (coord * coord)%type.

(** [typeof p[0] === 'number' && typeof p[1] === 'number'] *)
Definition numeric (p : vertex) : option (num * num) :=
  match p with
  | (CNum x, CNum y) => Some (x, y)
  | _ => None
  end.

(** The loop over the ring: the two sums and the count. *)
Definition add_vertex (acc : num * num * nat) (p : vertex) : num * num * nat :=
  let '(sx, sy, n) := acc in
  match numeric p with
  | Some (x, y) => (JsNum.add sx x, JsNum.add sy y, S n)
  | None => acc
  end.

(** [polygonCentroid(coords)]: the mean of the numeric vertices of the
    first ring; [None] is [null]. *)
Definition polygonCentroid (coords : list (list vertex)) : option (num * num) :=
  match coords with
  | [] => None
  | ring :: _ =>
      match ring with
      | [] => None
      | _ =>
          let '(sx, sy, n) := fold_left add_vertex ring (of_Z 0, of_Z 0, O) in
          match n with
          | O => None
          | _ => Some (JsNum.div sx (of_Z (Z.of_nat n)), JsNum.div sy (of_Z (Z.of_nat n)))
          end
      end
  end.

(** A feature of the shapefile: [properties.LocationID] ([None] without
    properties) and [geometry.coordinates] ([None] without geometry or
    coordinates). *)
Record feature : Type := {
  f_LocationID : option jsval;
  f_coordinates : option (list (list vertex))
}.

(** [{ location_id, lat, lon }] *)
Record centroid : Type := {
  c_location_id : num;
  c_lat : num;
  c_lon : num
}.

Definition set_centroid (lat lon : num) (r : zones_row) : zones_row :=
  {| location_id := location_id r;
     z_borough := z_borough r;
     z_zone := z_zone r;
     z_service_zone := z_service_zone r;
     centroid_lat := Some lat;
     centroid_lon := Some lon |}.

Section WithRuntime.

Context `{RT : JsRuntime}.

(** [proj4('NYLI', 'WGS84', xy)]: the longitude and the latitude of a point
    of the plane; the projection library is not part of the repository. *)
Variable proj4 : num * num -> num * num.

(** The value a [DECIMAL(10, 7)] column stores for a number; [None] when
    the number does not fit the column. *)
Variable as_decimal : num -> option num.

(** The identifier of a feature; [None] is [null]. *)
Definition feature_id (f : feature) : option num :=
  v ← f_LocationID f;
  if is_nullish v then None else Some (parseInt10 (js_String v)).

(** The first loop: one centroid for every feature that has an identifier
    and a geometry whose first ring has a numeric vertex. *)
Fixpoint collect (features : list feature) : list centroid :=
  match features with
  | [] => []
  | f :: rest =>
      match feature_id f, f_coordinates f with
      | Some locId, Some coords =>
          match polygonCentroid coords with
          | Some xy =>
              let '(lon, lat) := proj4 xy in
              {| c_location_id := locId; c_lat := lat; c_lon := lon |} :: collect rest
          | None => collect rest
          end
      | _, _ => collect rest
      end
  end.

(** [UPDATE zones SET centroid_lat = $1, centroid_lon = $2
     WHERE location_id = $3]; [None] when a parameter does not fit its
    type. *)
Definition update_centroid (t : zones_table) (c : centroid) : option zones_table :=
  lat ← as_decimal (c_lat c);
  lon ← as_decimal (c_lon c);
  k ← as_integer (c_location_id c);
  Some (map (fun r => if (location_id r =? k)%Z then set_centroid lat lon r else r) t).

(** The second loop. *)
Fixpoint update_all (t : zones_table) (cs : list centroid) : option zones_table :=
  match cs with
  | [] => Some t
  | c :: rest => t1 ← update_centroid t c; update_all t1 rest
  end.

(** The returned count and the table left behind. *)
Definition updateCentroidsFromShapefile (t : zones_table) (features : list feature)
    : option (nat * zones_table) :=
  let centroids := collect features in
  t1 ← update_all t centroids;
  Some (length centroids, t1).

(** The zone ids the rows of [trips] refer to: [pu_location_id] and
    [do_location_id] are foreign keys to [zones(location_id)], with no
    action on delete ([setupDatabase.js]). *)
Variable referenced : Z -> bool.

(** [DELETE FROM zones]: the statement is refused when a trip refers to a
    row of the table; [None] is the error. *)
Definition delete_zones (t : zones_table) : option zones_table :=
  if existsb (fun r => referenced (location_id r)) t then None else Some [].

(** What [run] logs: the count of the loader, and that of the centroid
    pass when the shapefile is there. *)
Record report : Type := {
  count : nat;
  updated : option nat
}.

(** [run()] on the table [t]: [lookup] is the rows of
    [taxi_zone_lookup.csv], [None] when the file is missing; [shapes] the
    features of the shapefile, [None] unless both of its files exist.
    [None] is an exit or a rejected promise. *)
Definition run (t : zones_table) (lookup : option (list lookup_row))
    (shapes : option (list feature)) : option (report * zones_table) :=
  rows ← lookup;
  t0 ← delete_zones t;
  '(count, t1) ← loadZonesFromLookup t0 rows;
  match shapes with
  | Some features =>
      '(updated, t2) ← updateCentroidsFromShapefile t1 features;
      Some ({| count := count; updated := Some updated |}, t2)
  | None => Some ({| count := count; updated := None |}, t1)
  end.

End WithRuntime.

(** Two rows with the same key and the same three names. *)
Definition same_zone (r r' : zones_row) : Prop :=
  location_id r' = location_id r
  /\ z_borough r' = z_borough r
  /\ z_zone r' = z_zone r
  /\ z_service_zone r' = z_service_zone r.

(** Two rows with the same key and the same centroid. *)
Definition same_centroid (r r' : zones_row) : Prop :=
  location_id r' = location_id r
  /\ centroid_lat r' = centroid_lat r
  /\ centroid_lon r' = centroid_lon r.

Definition no_centroid (r : zones_row) : Prop :=
  centroid_lat r = None /\ centroid_lon r = None.

(** The mean as the loop computes it: the sum of the numbers, taken in
    order from 0, over their count. *)
Definition mean (xs : list num) : num :=
  JsNum.div (fold_left JsNum.add xs (of_Z 0)) (of_Z (Z.of_nat (length xs))).

(** A vertex with two numbers has two finite ones. *)
Definition finite_vertex (p : vertex) : Prop :=
  match numeric p with
  | Some (x, y) => (exists a, x = Fin a) /\ (exists b, y = Fin b)
  | None => True
  end.

(** The table holds exactly the zones of a list of statements: one row for
    every key of the list and no other, each carrying the names of the
    last statement for its key. *)
Definition loaded_from (qs : list statement) (t : zones_table) : Prop :=
  key_unique t
  /\ (forall k, In k (keys t) <-> exists q, In q qs /\ q_key q = k)
  /\ (forall r, In r t ->
        exists q, last_for (location_id r) qs = Some q /\ named_by q r).

End Backfill.


(** ** The clustering engine: the assignment step, point by point *)

Module Assignment.

Import Clusterer.

Local Open Scope list_scope.

(** [a <= b] on numbers: false as soon as one side is NaN. *)
Definition le (a b : num) : bool :=
  match a, b with
  | NaN, _ | _, NaN => false
  | _, _ => negb (JsNum.lt b a)
  end.

(** [d1 <= d2] and [d1 < d2] on distances. *)
Definition dist_le (d1 d2 : distance) : bool := le (radicand d1) (radicand d2).

Definition dist_lt (d1 d2 : distance) : bool := JsNum.lt (radicand d1) (radicand d2).

(** [x || 0] is a finite number: [x] is NaN or finite, not an infinity. *)
Definition tame (x : num) : Prop :=
  exists q, or_zero x = Fin q.

Section WithRuntime.

Context `{RT : JsRuntime}.

(** [distances.indexOf(Math.min(...distances))] for a point: the index of
    its nearest centroid; [None] is [-1]. *)
Definition nearest (centroids : list point) (p : point) : option nat :=
  let distances := map (calculateDistance p) centroids in
  indexOf distances (min_of distances).

(** The point is pushed to one of [m] clusters. *)
Definition placed (centroids : list point) (m : nat) (p : point) : bool :=
  match nearest centroids p with
  | Some i => (i <? m)%nat
  | None => false
  end.

(** The points that go to cluster [i], in the order of the input. *)
Definition cluster_of (centroids data : list point) (i : nat) : list point :=
  filter (fun p => nearest centroids p = Some i) data.

(** The coordinate, as [parseFloat] reads it, is not an infinity. *)
Definition clean (v : jsval) : Prop :=
  tame (js_parseFloat v).

Definition finite_point (p : point) : Prop :=
  clean (lat p) /\ clean (lon p) /\ clean (duration p).

End WithRuntime.

End Assignment.


(** ** The server: the parameters of the clustering request *)

Module Server.

Local Open Scope string_scope.
Local Open Scope list_scope.

(** [Math.max(a, b)] *)
Definition max (a b : num) : num :=
  match a, b with
  | NaN, _ | _, NaN => NaN
  | _, _ => if JsNum.lt a b then b else a
  end.

(** [x || d] on a number. *)
Definition or_else (x d : num) : num :=
  if JsNum.truthy x then x else d.

(** A query text is a template literal: pieces of fixed text (white space
    collapsed here) around the numbers it interpolates after a [$]. *)
Inductive piece : Type :=
| Text (s : string)
| Placeholder (n : Z).

(** A value bound to a placeholder: a value of the request as it came, or
    the number [parseInt] made of one. *)
Inductive param : Type :=
| PValue (v : jsval)
| PNumber (n : num).

(** The numbers of the placeholders of a text, in the order they occur. *)
Definition placeholders (text : list piece) : list Z :=
  omap (fun x => match x with Placeholder n => Some n | Text _ => None end) text.

(** [$1], ..., [$n] *)
Definition numbered (n : nat) : list Z :=
  map Z.of_nat (seq 1 n).

Section WithRuntime.

Context `{RT : JsRuntime}.

(** [parseInt(s)] without a radix: the built-in is left open, it reads a
    [0x] prefix as radix 16 where [parseInt(s, 10)] does not. *)
Variable parseInt : string -> num.

(** [parseInt(v)] of a query parameter that defaults to the number [d]
    when it is absent. *)
Definition parse_param (v : jsval) (d : Z) : num :=
  parseInt (js_String (match v with VUndefined => VNum (of_Z d) | _ => v end)).

(** [Math.max(1, Math.min(parseInt(k) || 5, 20))] with [k = 5] by default. *)
Definition kValue (k : jsval) : num :=
  max (of_Z 1) (JsNum.min (or_else (parse_param k 5) (of_Z 5)) (of_Z 20)).

(** [Math.max(10, Math.min(parseInt(limit) || 10000, 50000))] with
    [limit = 10000] by default. *)
Definition limitValue (limit : jsval) : num :=
  max (of_Z 10) (JsNum.min (or_else (parse_param limit 10000) (of_Z 10000)) (of_Z 50000)).

(** *** The query builders of [/api/trips] and [/api/heatmap] *)

(** The filters of the request, as the query string gives them. *)
Record filters : Type := {
  limit : jsval;
  offset : jsval;
  borough : jsval;
  hour : jsval;
  minDuration : jsval;
  maxDuration : jsval;
  tripType : jsval
}.

(** The variables of a builder. *)
Record builder : Type := {
  whereClause : list piece;
  params : list param;
  paramCount : Z
}.

(** [paramCount++; whereClause += ` AND ... $${paramCount}`;
    params.push(value)] *)
Definition add_filter (text : string) (value : param) (b : builder) : builder :=
  let paramCount := paramCount b + 1 in
  {| whereClause := whereClause b ++ [Text text; Placeholder paramCount];
     params := params b ++ [value];
     paramCount := paramCount |}.

(** [if (v) ...]: the filter is added when the value is truthy. *)
Definition when_truthy (v : jsval) (f : builder -> builder) (b : builder) : builder :=
  if falsy v then b else f b.

(** [if (v !== undefined) ...] *)
Definition when_defined (v : jsval) (f : builder -> builder) (b : builder) : builder :=
  match v with
  | VUndefined => b
  | _ => f b
  end.

(** [paramCount++; params.push(value)] *)
Definition add_param (value : param) (b : builder) : builder :=
  {| whereClause := whereClause b;
     params := params b ++ [value];
     paramCount := paramCount b + 1 |}.

(** The text and the parameters of the query of [/api/trips]. *)
Definition trips_query (q : filters) : list piece * list param :=
  let b0 := {| whereClause := [Text "WHERE 1=1"]; params := []; paramCount := 0 |} in
  let b1 := when_truthy (borough q)
              (add_filter " AND pickup_borough = " (PValue (borough q))) b0 in
  let b2 := when_defined (hour q)
              (add_filter " AND hour_of_day = " (PNumber (parseInt (js_String (hour q))))) b1 in
  let b3 := when_truthy (minDuration q)
              (add_filter " AND trip_duration_sec >= "
                 (PNumber (parseInt (js_String (minDuration q))))) b2 in
  let b4 := when_truthy (maxDuration q)
              (add_filter " AND trip_duration_sec <= "
                 (PNumber (parseInt (js_String (maxDuration q))))) b3 in
  let b5 := when_truthy (tripType q)
              (add_filter " AND trip_type = " (PValue (tripType q))) b4 in
  let b6 := add_param (PNumber (parse_param (limit q) 1000)) b5 in
  let b7 := add_param (PNumber (parse_param (offset q) 0)) b6 in
  ([Text "SELECT trip_id, vendor_id, tpep_pickup_datetime as pickup_datetime, tpep_dropoff_datetime as dropoff_datetime, passenger_count, trip_distance, (trip_distance * 1.60934) as distance_km, trip_duration_sec as trip_duration, speed_kmh, fare_per_km, hour_of_day, day_of_week, month, pickup_borough, dropoff_borough, trip_type FROM trips "] ++ whereClause b7
     ++ [Text " ORDER BY tpep_pickup_datetime DESC LIMIT "; Placeholder (paramCount b7 - 1);
         Text " OFFSET "; Placeholder (paramCount b7)],
   params b7).

(** The text and the parameters of the query of [/api/heatmap]. *)
Definition heatmap_query (q : filters) : list piece * list param :=
  let b0 := {| whereClause :=
                 [Text "WHERE z.centroid_lat IS NOT NULL AND z.centroid_lon IS NOT NULL"];
               params := []; paramCount := 0 |} in
  let b1 := when_defined (hour q)
              (add_filter " AND t.hour_of_day = "
                 (PNumber (parseInt (js_String (hour q))))) b0 in
  let b2 := when_truthy (borough q)
              (add_filter " AND t.pickup_borough = " (PValue (borough q))) b1 in
  ([Text "SELECT z.centroid_lat as lat, z.centroid_lon as lon, COUNT(*) as intensity, AVG(t.trip_duration_sec) as avg_duration, AVG(t.speed_kmh) as avg_speed FROM trips t JOIN zones z ON t.pu_location_id = z.location_id "]
     ++ whereClause b2
     ++ [Text " GROUP BY z.location_id, z.centroid_lat, z.centroid_lon HAVING COUNT(*) > 2 ORDER BY intensity DESC LIMIT 500"],
   params b2).

End WithRuntime.

End Server.


(** ** Ingestion: what reaches the store *)

Module Persisted.

Import ImportData.

Local Open Scope list_scope.

(** A store that keeps the statements it receives, oldest first, and
    refuses none. *)
Definition journal : Type := list (list trip).

Definition journal_insert (db : journal) (b : list trip) : option journal :=
  Some (db ++ [b]).

(** The trip a row is persisted as, when the validator accepts it. *)
Definition trip_of `{RT : JsRuntime} (zoneMap : zone_map) (r : row) : option trip :=
  match isValidTrip zoneMap r with
  | Accepted c => enrich zoneMap r c
  | Rejected _ => None
  end.

(** The trips of the accepted rows, in the order of the rows. *)
Definition enriched `{RT : JsRuntime} (zoneMap : zone_map) (rows : list row) : list trip :=
  omap (trip_of zoneMap) rows.

(** Every statement but the last carries a full batch. *)
Definition full_but_last (db : list (list trip)) : Prop :=
  forall i b, db !! i = Some b -> (S i < length db)%nat -> length b = BATCH_SIZE.

(** The variables of a run that a loop can have reached. *)
Definition reached `{RT : JsRuntime} (zoneMap : zone_map) (st : run) : Prop :=
  (exists (store : Type) (store_insert : store -> list trip -> option store)
          (records : list row) (db db' : store),
      parquet_loop store store_insert zoneMap records run0 db = Some (st, db'))
  \/ (exists (es : list csv_event) (cs : csv_state),
         csv_events zoneMap es csv0 = Some cs /\ vars cs = st).

(** Both zone ids of the trip are keys of the [zones] table: the foreign
    keys of the [trips] row hold. *)
Definition refers_to (ks : list Z) (tr : trip) : Prop :=
  (exists k, JsNum.to_Z (pu_location_id tr) = Some k /\ In k ks)
  /\ (exists k, JsNum.to_Z (do_location_id tr) = Some k /\ In k ks).

(** The counters after [n] more accepted rows. *)
Definition more_valid (n : nat) (c : stats) : stats :=
  {| processed := n + processed c; valid := n + valid c; invalid := invalid c |}.

End Persisted.


(** ** The statement of [insertBatch] *)

Module InsertStatement.

Import ImportData.

Local Open Scope list_scope.

(** A value handed over with the statement. *)
Inductive sqlval : Type :=
| SNull
| SNumber (n : num)
| SInteger (z : Z)
| SDate (ms : Z)
| SText (s : string).

Definition or_null {A : Type} (f : A -> sqlval) (o : option A) : sqlval :=
  match o with
  | Some a => f a
  | None => SNull
  end.

(** The 28 values of one trip, in the order of the column list. *)
Definition row_values (r : trip) : list sqlval :=
  [ or_null SNumber (vendor_id r); SDate (t_pickup_datetime r); SDate (t_dropoff_datetime r);
    SNumber (t_passenger_count r); SNumber (t_trip_distance r);
    or_null SNumber (rate_code_id r); or_null SText (t_store_and_fwd_flag r);
    SNumber (pu_location_id r); SNumber (do_location_id r);
    or_null SNumber (t_payment_type r);
    SNumber (t_fare_amount r); SNumber (t_extra r); SNumber (t_mta_tax r);
    SNumber (t_tip_amount r); SNumber (t_tolls_amount r);
    SNumber (t_improvement_surcharge r);
    SNumber (t_total_amount r); SNumber (t_congestion_surcharge r);
    SInteger (trip_duration_sec r); SNumber (speed_kmh r); SNumber (fare_per_km r);
    SNumber (tip_rate r);
    SInteger (hour_of_day r); SInteger (day_of_week r); SInteger (month r);
    or_null SText (pickup_borough r); or_null SText (dropoff_borough r);
    SText (trip_type r) ].

(** The group of placeholders of the [i]-th trip:
    [($${base+1},...,$${base+28})] with [base = i * 28]. *)
Definition row_placeholders (i : Z) : list Z :=
  let base := i * 28 in
  [ base + 1; base + 2; base + 3; base + 4; base + 5; base + 6; base + 7;
    base + 8; base + 9; base + 10; base + 11; base + 12; base + 13; base + 14;
    base + 15; base + 16; base + 17; base + 18; base + 19; base + 20; base + 21;
    base + 22; base + 23; base + 24; base + 25; base + 26; base + 27; base + 28 ].

(** [batch.map((_, i) => ...)] *)
Definition placeholders (batch : list trip) : list (list Z) :=
  imap (fun i _ => row_placeholders (Z.of_nat i)) batch.

(** [batch.flatMap(r => [...])] *)
Definition values (batch : list trip) : list sqlval :=
  flat_map row_values batch.

End InsertStatement.


(** ** A reference runtime

    Decimal literals, and timestamps of the form [YYYY-MM-DD HH:MM:SS] (or
    with a [T]) read in a UTC local time.  It makes the model run on
    concrete rows. *)

Module RefRuntime.

Local Open Scope string_scope.

Fixpoint digits (s : string) (acc : Z) (seen : nat) : Z * nat * string :=
  match s with
  | String c r =>
      if is_digit c then digits r (10 * acc + digit_value c) (S seen)
      else (acc, seen, s)
  | EmptyString => (acc, seen, s)
  end.

Definition signed (s : string) : bool * string :=
  match s with
  | String "-" r => (true, r)
  | String "+" r => (false, r)
  | _ => (false, s)
  end.

Definition ref_parseInt10 (s : string) : num :=
  let '(negative, r) := signed (trim_start s) in
  let '(v, seen, _) := digits r 0 0 in
  match seen with
  | O => NaN
  | _ => of_Z (if negative then - v else v)
  end.

Definition pow10 (e : Z) : Q :=
  if (e <? 0)%Z then 1 / inject_Z (10 ^ (- e)) else inject_Z (10 ^ e).

(** The exponent part [e±ddd], when there is one. *)
Definition exponent (s : string) : Z :=
  match s with
  | String c r =>
      if (Ascii.eqb c "e" || Ascii.eqb c "E")%bool
      then
        let '(negative, r1) := signed r in
        let '(v, seen, _) := digits r1 0 0 in
        match seen with
        | O => 0
        | _ => if negative then - v else v
        end
      else 0
  | EmptyString => 0
  end.

Definition ref_parseFloat (s : string) : num :=
  let '(negative, r) := signed (trim_start s) in
  if String.prefix "Infinity" r then (if negative then NInf else PInf)
  else
    let '(whole, n1, r1) := digits r 0 0 in
    let '(frac, n2, r2) :=
      match r1 with
      | String "." r' => digits r' 0 0
      | _ => (0, O, r1)
      end in
    match (n1 + n2)%nat with
    | O => NaN
    | _ =>
        let m := (inject_Z whole + inject_Z frac / inject_Z (10 ^ Z.of_nat n2))%Q in
        let v := Qred (m * pow10 (exponent r2)) in
        Fin (if negative then - v else v)
    end.

Definition digit_char (d : Z) : ascii := ascii_of_nat (48 + Z.to_nat d).

(** The decimal digits of a natural number, at least [width] of them. *)
Fixpoint decimal (fuel : nat) (width : nat) (n : Z) (acc : string) : string :=
  match fuel with
  | O => acc
  | S fuel' =>
      let acc' := String (digit_char (n mod 10)) acc in
      if ((n / 10 =? 0)%Z && (width <=? 1)%nat)%bool then acc'
      else decimal fuel' (pred width) (n / 10) acc'
  end.

Definition show_nat (width : nat) (n : Z) : string := decimal 400 width n "".

(** The fractional digits of [r / d], at most [fuel] of them. *)
Fixpoint fraction (fuel : nat) (r d : Z) : string :=
  match fuel with
  | O => ""
  | S fuel' =>
      if (r =? 0)%Z then ""
      else String (digit_char (10 * r / d)) (fraction fuel' ((10 * r) mod d) d)
  end.

Definition ref_Number_toString (n : num) : string :=
  match n with
  | NaN => "NaN"
  | PInf => "Infinity"
  | NInf => "-Infinity"
  | Fin q =>
      let a := Z.abs (Qnum q) in
      let d := Z.pos (Qden q) in
      let body := show_nat 1 (a / d) in
      let f := fraction 20 (a mod d) d in
      let text := match f with "" => body | _ => body ++ "." ++ f end in
      if ((Qnum q <? 0)%Z)%bool then "-" ++ text else text
  end.

Definition days_from_civil (y m d : Z) : Z :=
  let y1 := if (m <=? 2)%Z then y - 1 else y in
  let era := y1 / 400 in
  let yoe := y1 - era * 400 in
  let mp := if (m >? 2)%Z then m - 3 else m + 9 in
  let doy := (153 * mp + 2) / 5 + d - 1 in
  let doe := yoe * 365 + yoe / 4 - yoe / 100 + doy in
  era * 146097 + doe - 719468.

(** Year, month (from 1) and day of a day count. *)
Definition civil_from_days (z0 : Z) : Z * Z * Z :=
  let z := z0 + 719468 in
  let era := z / 146097 in
  let doe := z - era * 146097 in
  let yoe := (doe - doe / 1460 + doe / 36524 - doe / 146096) / 365 in
  let doy := doe - (365 * yoe + yoe / 4 - yoe / 100) in
  let mp := (5 * doy + 2) / 153 in
  let d := doy - (153 * mp + 2) / 5 + 1 in
  let m := if (mp <? 10)%Z then mp + 3 else mp - 9 in
  let y := yoe + era * 400 in
  (if (m <=? 2)%Z then y + 1 else y, m, d).

Definition ms_per_day : Z := 86400000.

Definition field (n : nat) (s : string) : option (Z * string) :=
  r ← take_digits n s; Some (digits_value n s 0, r).

Definition parse_stamp (s : string) : option Z :=
  '(y, r1) ← field 4 s;
  r2 ← take_char (Ascii.eqb "-") r1;
  '(mo, r3) ← field 2 r2;
  r4 ← take_char (Ascii.eqb "-") r3;
  '(d, r5) ← field 2 r4;
  r6 ← take_char (fun c => (Ascii.eqb c " " || Ascii.eqb c "T")%bool) r5;
  '(h, r7) ← field 2 r6;
  r8 ← take_char (Ascii.eqb ":") r7;
  '(mi, r9) ← field 2 r8;
  r10 ← take_char (Ascii.eqb ":") r9;
  '(sec, r11) ← field 2 r10;
  match r11 with
  | EmptyString =>
      if ((1 <=? mo)%Z && (mo <=? 12)%Z && (1 <=? d)%Z && (d <=? 31)%Z
          && (h <=? 23)%Z && (mi <=? 59)%Z && (sec <=? 59)%Z)%bool
      then Some (days_from_civil y mo d * ms_per_day
                 + ((h * 60 + mi) * 60 + sec) * 1000)%Z
      else None
  | _ => None
  end.

Definition ref_Date_new (v : jsval) : option Z :=
  match v with
  | VStr s => parse_stamp s
  | VNum (Fin q) =>
      let ms := Z.quot (Qnum q) (Z.pos (Qden q)) in
      if (Z.abs ms <=? 8640000000000000)%Z then Some ms else None
  | VNull => Some 0%Z
  | _ => None
  end.

Definition ref_getHours (ms : Z) : Z := (ms / 3600000) mod 24.
Definition ref_getDay (ms : Z) : Z := (ms / ms_per_day + 4) mod 7.
Definition ref_getMonth (ms : Z) : Z := snd (fst (civil_from_days (ms / ms_per_day))) - 1.

Definition ref_toISOString (ms : Z) : string :=
  let '(y, m, d) := civil_from_days (ms / ms_per_day) in
  let t := ms mod ms_per_day in
  show_nat 4 y ++ "-" ++ show_nat 2 m ++ "-" ++ show_nat 2 d ++ "T"
  ++ show_nat 2 (t / 3600000) ++ ":" ++ show_nat 2 ((t / 60000) mod 60) ++ ":"
  ++ show_nat 2 ((t / 1000) mod 60) ++ "." ++ show_nat 3 (t mod 1000) ++ "Z".

#[export] Instance runtime : JsRuntime := {|
  parseInt10 := ref_parseInt10;
  parseFloat := ref_parseFloat;
  Number_toString := ref_Number_toString;
  Date_new := ref_Date_new;
  Date_getHours := ref_getHours;
  Date_getDay := ref_getDay;
  Date_getMonth := ref_getMonth;
  Date_toISOString := ref_toISOString
|}.

End RefRuntime.



(** ** The scenarios of the specification *)

Module Scenario.

Import ImportData.

Local Open Scope string_scope.
Local Open Scope list_scope.

(** The zone store and the row of the end-to-end scenario of the
    specification: zones 1 (Manhattan) and 2 (Queens), one trip of twenty
    minutes and five miles. *)
Definition two_zones : zone_map :=
  Some (loadZoneMap
          [ {| zr_location_id := 1;
               zr_zone := {| borough := Some "Manhattan"; zone_name := Some "Midtown";
                             service_zone := Some "Yellow Zone" |} |};
            {| zr_location_id := 2;
               zr_zone := {| borough := Some "Queens"; zone_name := Some "Astoria";
                             service_zone := Some "Boro Zone" |} |} ]).

Definition scenario_row (pu_id dropoff_at miles : string) : row :=
  {| VendorID := VStr "1";
     tpep_pickup_datetime := VStr "2024-01-01 08:00:00";
     tpep_dropoff_datetime := VStr dropoff_at;
     passenger_count := VStr "1";
     trip_distance := VStr miles;
     RatecodeID := VStr "1";
     store_and_fwd_flag := VStr "N";
     PULocationID := VStr pu_id;
     DOLocationID := VStr "2";
     payment_type := VStr "1";
     fare_amount := VStr "20";
     extra := VStr "0";
     mta_tax := VStr "0.5";
     tip_amount := VStr "5";
     tolls_amount := VStr "0";
     improvement_surcharge := VStr "0";
     total_amount := VStr "25";
     congestion_surcharge := VStr "" |}.

Definition good_row : row := scenario_row "1" "2024-01-01 08:20:00" "5".
Definition short_row : row := scenario_row "1" "2024-01-01 08:00:30" "5".
Definition unknown_zone_row : row := scenario_row "999" "2024-01-01 08:20:00" "5".
Definition fast_row : row := scenario_row "1" "2024-01-01 08:01:00" "500".

(** What the validator and the enricher make of [good_row]. *)
Definition good_ctx : ctx :=
  {| durationSec := 1200;
     tripDistance := Fin 5;
     fareAmount := Fin 20;
     totalAmount := Fin 25;
     pu := Fin 1;
     do := Fin 2;
     pickup := 1704096000000;
     dropoff := 1704097200000;
     passengers := Fin 1;
     ctx_row := good_row |}.

(** A lookup file: two zones, a row without a numeric id, and a second row
    for zone 1. *)
Definition lookup (id b z s : string) : ImportZones.lookup_row :=
  {| ImportZones.LocationID := Some id;
     ImportZones.Borough := Some b;
     ImportZones.Zone := Some z;
     ImportZones.service_zone := Some s |}.

Definition unnumbered_row : ImportZones.lookup_row :=
  lookup "abc" "Queens" "Astoria" "Boro Zone".

Definition lookup_rows : list ImportZones.lookup_row :=
  [ lookup "1" "EWR" " Newark Airport " "EWR";
    lookup "2" "Queens" "Jamaica Bay" "Boro Zone";
    unnumbered_row;
    lookup "1" "Manhattan" "Midtown" "Yellow Zone" ].

Definition loaded_zones : option (nat * ImportZones.zones_table) :=
  Eval vm_compute in
    ImportZones.loadZonesFromLookup (RT := RefRuntime.runtime) [] lookup_rows.

(** Two points, and a source of random numbers that alternates between 0
    and one half. *)
Definition point_a : Clusterer.point :=
  {| Clusterer.lat := VStr "40.7500000";
     Clusterer.lon := VStr "-73.9900000";
     Clusterer.duration := VNum (Fin 600);
     Clusterer.others := [("pickup_borough", VStr "Manhattan")] |}.

Definition point_b : Clusterer.point :=
  {| Clusterer.lat := VStr "40.6500000";
     Clusterer.lon := VStr "-73.7800000";
     Clusterer.duration := VNum (Fin 1800);
     Clusterer.others := [("pickup_borough", VStr "Queens")] |}.

Definition two_points : list Clusterer.point := [point_a; point_b].

Definition alternating : Clusterer.oracle :=
  fun t => (Z.of_nat t mod 2 # 2)%Q.

(** A source that always returns 0. *)
Definition stuck : Clusterer.oracle := fun _ => 0%Q.

Definition good_trip : option trip :=
  Eval vm_compute in enrich (RT := RefRuntime.runtime) two_zones good_row good_ctx.

End Scenario.


(** ** Further scenarios *)

Module MoreScenarios.

Import ImportData Persisted Scenario.

Local Open Scope string_scope.
Local Open Scope list_scope.

(** A record of a Parquet file: numbers and time values, not strings. *)
Definition parquet_record (dropoff_ms : Z) : row :=
  {| VendorID := VNum (Fin 1);
     tpep_pickup_datetime := VNum (Fin 1704096000000);
     tpep_dropoff_datetime := VNum (of_Z dropoff_ms);
     passenger_count := VNum (Fin 1);
     trip_distance := VNum (Fin 5);
     RatecodeID := VNull;
     store_and_fwd_flag := VNull;
     PULocationID := VNum (Fin 1);
     DOLocationID := VNum (Fin 2);
     payment_type := VNull;
     fare_amount := VNum (Fin 20);
     extra := VNull;
     mta_tax := VNull;
     tip_amount := VNum (Fin 5);
     tolls_amount := VNull;
     improvement_surcharge := VNull;
     total_amount := VNum (Fin 25);
     congestion_surcharge := VNull |}.

(** Twenty minutes, thirty seconds, twenty minutes again. *)
Definition parquet_records : list row :=
  [ parquet_record 1704097200000; parquet_record 1704096030000;
    parquet_record 1704097200000 ].

Definition parquet_outcome : option (stats * journal) :=
  Eval vm_compute in
    importFromParquet (RT := RefRuntime.runtime) journal journal_insert
      two_zones parquet_records [].

(** The variables of the CSV loop after a rejected and an accepted row. *)
Definition csv_outcome : option csv_state :=
  Eval vm_compute in
    csv_events (RT := RefRuntime.runtime) two_zones [Data short_row; Data good_row] csv0.

(** The records of the [zones] table behind the zone map of the
    scenarios. *)
Definition two_zone_records : list zone_record :=
  [ {| zr_location_id := 1;
       zr_zone := {| borough := Some "Manhattan"; zone_name := Some "Midtown";
                     service_zone := Some "Yellow Zone" |} |};
    {| zr_location_id := 2;
       zr_zone := {| borough := Some "Queens"; zone_name := Some "Astoria";
                     service_zone := Some "Boro Zone" |} |} ].

(** A table that already holds zone 1 with its centroid, and the lookup
    file loaded over it. *)
Definition surveyed_table : ImportZones.zones_table :=
  [ {| ImportZones.location_id := 1;
       ImportZones.z_borough := Some "EWR";
       ImportZones.z_zone := Some "Newark";
       ImportZones.z_service_zone := Some "EWR";
       ImportZones.centroid_lat := Some (Fin (407 # 10));
       ImportZones.centroid_lon := Some (Fin (- (742 # 10))) |} ].

Definition reloaded_zones : option (nat * ImportZones.zones_table) :=
  Eval vm_compute in
    ImportZones.loadZonesFromLookup (RT := RefRuntime.runtime) surveyed_table lookup_rows.

(** A ring of three numeric vertices and one that is not. *)
Definition open_ring : list Backfill.vertex :=
  [ (Backfill.CNum (Fin 0), Backfill.CNum (Fin 0));
    (Backfill.CNum (Fin 4), Backfill.CNum (Fin 0));
    (Backfill.CNum (Fin 4), Backfill.CNum (Fin 2));
    (Backfill.COther, Backfill.CNum (Fin 1)) ].

(** Two features: the polygon of zone 2, and one without properties.  The
    projection is taken to be the identity and every number to fit the
    column. *)
Definition shapes : list Backfill.feature :=
  [ {| Backfill.f_LocationID := Some (VNum (Fin 2));
       Backfill.f_coordinates := Some [open_ring] |};
    {| Backfill.f_LocationID := None;
       Backfill.f_coordinates := Some [open_ring] |} ].

Definition plane : num * num -> num * num := fun xy => xy.

Definition any_decimal : num -> option num := Some.

Definition backfilled_zones : option (nat * ImportZones.zones_table) :=
  Eval vm_compute in
    match reloaded_zones with
    | Some (_, t) =>
        Backfill.updateCentroidsFromShapefile (RT := RefRuntime.runtime)
          plane any_decimal t shapes
    | None => None
    end.

End MoreScenarios.


(** * Properties *)

(** ** Numbers *)

Module JsNumFacts.

Lemma Qltb_lt (x y : Q) : Qltb x y = true <-> (x < y)%Q.
Proof.
  unfold Qltb. rewrite negb_true_iff, <- not_true_iff_false, Qle_bool_iff.
  split; [apply Qnot_le_lt | apply Qlt_not_le].
Qed.

Lemma Qltb_ge (x y : Q) : Qltb x y = false <-> (y <= x)%Q.
Proof.
  unfold Qltb. rewrite negb_false_iff. apply Qle_bool_iff.
Qed.

(** A number that is not NaN and lies neither below [lo] nor above [hi] is
    finite and between them. *)
Lemma between_finite (x : num) (lo hi : Q) :
  isNaN x = false ->
  JsNum.lt x (Fin lo) = false ->
  JsNum.gt x (Fin hi) = false ->
  exists q, x = Fin q /\ (lo <= q <= hi)%Q.
Proof.
  destruct x as [| |q|]; cbn; try discriminate.
  intros _ Hlo Hhi. exists q. split; [reflexivity|].
  split; apply Qltb_ge; assumption.
Qed.

(** [Math.min] against a finite cap, on a finite value. *)
Lemma min_Fin (cap v : Q) :
  exists m, JsNum.min (Fin cap) (Fin v) = Fin m /\ (m == Qmin cap v)%Q /\ (m <= cap)%Q.
Proof.
  cbn. destruct (Qltb v cap) eqn:E.
  - apply Qltb_lt in E. exists v. split; [reflexivity|]. split.
    + symmetry. apply Q.min_r. apply Qlt_le_weak. exact E.
    + apply Qlt_le_weak. exact E.
  - apply Qltb_ge in E. exists cap. split; [reflexivity|]. split.
    + symmetry. apply Q.min_l. exact E.
    + apply Qle_refl.
Qed.

End JsNumFacts.

(** ** Validation and enrichment *)

Module ImportDataProps.

Import ImportData Scenario JsNumFacts.

Local Open Scope string_scope.
Local Open Scope list_scope.

Section Validation.

Context `{RT : JsRuntime}.

Lemma isValidTrip_first_failing (zoneMap : zone_map) (r : row) :
  match first_failing zoneMap r with
  | Some why => isValidTrip zoneMap r = Rejected why
  | None => ok (isValidTrip zoneMap r) = true
  end.
Proof.
  unfold first_failing, check_order, isValidTrip. cbn [List.find fails].
  unfold out_of_range.
  destruct zoneMap as [zm|]; [|reflexivity].
  destruct (negb (zoneMap_has zm _) || negb (zoneMap_has zm _))%bool; [reflexivity|].
  destruct (parseTimestamp (tpep_pickup_datetime r)) as [p|]; [|reflexivity].
  destruct (parseTimestamp (tpep_dropoff_datetime r)) as [d|]; [|reflexivity].
  destruct ((round_seconds (d - p) <? 60)%Z || (round_seconds (d - p) >? 86400)%Z)%bool;
    [reflexivity|].
  repeat match goal with
         | |- context [if (JsNum.lt ?a ?b || JsNum.gt ?c ?d)%bool then _ else _] =>
             destruct (JsNum.lt a b || JsNum.gt c d)%bool; [reflexivity|]
         end.
  reflexivity.
Qed.

Lemma find_check_order (f : reason -> bool) (why : reason) :
  List.find f check_order = Some why
  <-> f why = true /\ forall w, (rank w < rank why)%nat -> f w = false.
Proof.
  unfold check_order. cbn [List.find]. split.
  - destruct (f invalid_or_unknown_zone) eqn:E1;
      [|destruct (f invalid_timestamp) eqn:E2;
        [|destruct (f duration_out_of_range) eqn:E3;
          [|destruct (f invalid_passenger_count) eqn:E4;
            [|destruct (f trip_distance_out_of_range) eqn:E5;
              [|destruct (f fare_out_of_range) eqn:E6;
                [|destruct (f total_amount_out_of_range) eqn:E7]]]]]];
      intros Hf; simplify_eq;
      (split; [assumption | intros w Hw; destruct w; cbn in Hw; (lia || assumption)]).
  - intros [Hf Hbefore].
    destruct why; cbn [rank] in Hbefore;
      repeat match goal with
             | |- context [f ?w] =>
                 first [ rewrite Hf | rewrite (Hbefore w) by (cbn; lia) ]
             end; reflexivity.
Qed.

(** C1. The validator applies its seven checks in the order zone,
    timestamp, duration, passenger count, trip distance, fare, total amount,
    and rejects with the code of the first one that fails: a row is rejected
    with a reason exactly when that check fails and no earlier one does.  In
    particular a row whose zones resolve and whose timestamps parse, with a
    rounded duration below 60 or above 86400 seconds, is rejected as
    [duration_out_of_range]. *)
Theorem isValidTrip_reports_first_failing_check (zoneMap : zone_map) (r : row) :
  (forall why,
      isValidTrip zoneMap r = Rejected why
      <-> fails zoneMap r why = true
          /\ forall w, (rank w < rank why)%nat -> fails zoneMap r w = false)
  /\ (forall zm p d,
         zoneMap = Some zm ->
         zoneMap_has zm (parseIntStrict id (PULocationID r) NaN) = true ->
         zoneMap_has zm (parseIntStrict id (DOLocationID r) NaN) = true ->
         parseTimestamp (tpep_pickup_datetime r) = Some p ->
         parseTimestamp (tpep_dropoff_datetime r) = Some d ->
         (round_seconds (d - p) < 60 \/ 86400 < round_seconds (d - p))%Z ->
         isValidTrip zoneMap r = Rejected duration_out_of_range).
Proof.
  pose proof (isValidTrip_first_failing zoneMap r) as Hfirst.
  assert (Hiff : forall why,
             isValidTrip zoneMap r = Rejected why
             <-> fails zoneMap r why = true
                 /\ forall w, (rank w < rank why)%nat -> fails zoneMap r w = false).
  { intros why. rewrite <- find_check_order. fold (first_failing zoneMap r).
    destruct (first_failing zoneMap r) as [w|]; split; intros H.
    - congruence.
    - congruence.
    - rewrite H in Hfirst. discriminate.
    - discriminate. }
  split; [exact Hiff|].
  intros zm p d -> Hpu Hdo Hp Hd Hrange.
  apply Hiff. split.
  - cbn [fails]. rewrite Hp, Hd.
    apply orb_true_iff. destruct Hrange; [left|right]; lia.
  - intros w Hw. destruct w; cbn [rank] in Hw; try lia; cbn [fails].
    + rewrite Hpu, Hdo. reflexivity.
    + rewrite Hp, Hd. reflexivity.
Qed.

Lemma parseNum_not_NaN (val : jsval) (def : num) :
  isNaN def = false -> isNaN (parseNum val def) = false.
Proof.
  intros Hdef. unfold parseNum.
  destruct (is_blank val); [exact Hdef|].
  destruct (isNaN (parseFloat _)) eqn:E; [exact Hdef | exact E].
Qed.

(** What the validator has established about an accepted row. *)
Lemma isValidTrip_accepted (zoneMap : zone_map) (r : row) (c : ctx) :
  isValidTrip zoneMap r = Accepted c ->
  exists zm p d,
    zoneMap = Some zm
    /\ zoneMap_has zm (pu c) = true
    /\ zoneMap_has zm (do c) = true
    /\ parseTimestamp (tpep_pickup_datetime r) = Some p
    /\ parseTimestamp (tpep_dropoff_datetime r) = Some d
    /\ durationSec c = round_seconds (d - p)
    /\ (60 <= durationSec c <= 86400)%Z
    /\ tripDistance c = parseNum (trip_distance r) (of_Z (-1))
    /\ out_of_range (tripDistance c) (of_Z 0) (of_Z 500) = false
    /\ fareAmount c = parseNum (fare_amount r) (of_Z (-1))
    /\ out_of_range (fareAmount c) (of_Z 0) (of_Z 10000) = false
    /\ totalAmount c = parseNum (total_amount r) (of_Z (-1))
    /\ out_of_range (totalAmount c) (of_Z 0) (of_Z 10000) = false.
Proof.
  unfold isValidTrip, out_of_range.
  destruct zoneMap as [zm|]; [|discriminate].
  destruct (negb (zoneMap_has zm _) || negb (zoneMap_has zm _))%bool eqn:Hz; [discriminate|].
  destruct (parseTimestamp (tpep_pickup_datetime r)) as [p|]; [|discriminate].
  destruct (parseTimestamp (tpep_dropoff_datetime r)) as [d|]; [|discriminate].
  destruct ((round_seconds (d - p) <? 60)%Z || (round_seconds (d - p) >? 86400)%Z)%bool
    eqn:Hd; [discriminate|].
  destruct (JsNum.lt (parseIntStrict id (passenger_count r) _) _ || _)%bool; [discriminate|].
  destruct (JsNum.lt (parseNum (trip_distance r) _) _ || _)%bool eqn:H1; [discriminate|].
  destruct (JsNum.lt (parseNum (fare_amount r) _) _ || _)%bool eqn:H2; [discriminate|].
  destruct (JsNum.lt (parseNum (total_amount r) _) _ || _)%bool eqn:H3; [discriminate|].
  intros [= <-]. cbn.
  apply orb_false_iff in Hz as [Hpu Hdo]. apply negb_false_iff in Hpu, Hdo.
  apply orb_false_iff in Hd as [Hlo Hhi].
  exists zm, p, d. repeat split; try assumption; try reflexivity; lia.
Qed.

(** The enricher does not fail on an accepted row. *)
(** The two zone ids the validator hands over are those it parsed from
    the row. *)
Lemma isValidTrip_accepted_ids (zoneMap : zone_map) (r : row) (c : ctx) :
  isValidTrip zoneMap r = Accepted c ->
  pu c = parseIntStrict id (PULocationID r) NaN
  /\ do c = parseIntStrict id (DOLocationID r) NaN.
Proof.
  unfold isValidTrip.
  destruct zoneMap as [zm|]; [|discriminate].
  destruct (negb (zoneMap_has zm _) || negb (zoneMap_has zm _))%bool; [discriminate|].
  destruct (parseTimestamp (tpep_pickup_datetime r)) as [p|]; [|discriminate].
  destruct (parseTimestamp (tpep_dropoff_datetime r)) as [d|]; [|discriminate].
  destruct ((round_seconds (d - p) <? 60)%Z || (round_seconds (d - p) >? 86400)%Z)%bool;
    [discriminate|].
  destruct (JsNum.lt (parseIntStrict id (passenger_count r) _) _ || _)%bool; [discriminate|].
  destruct (JsNum.lt (parseNum (trip_distance r) _) _ || _)%bool; [discriminate|].
  destruct (JsNum.lt (parseNum (fare_amount r) _) _ || _)%bool; [discriminate|].
  destruct (JsNum.lt (parseNum (total_amount r) _) _ || _)%bool; [discriminate|].
  intros [= <-]. cbn. split; reflexivity.
Qed.

Lemma enrich_accepted (zoneMap : zone_map) (r : row) (c : ctx) :
  isValidTrip zoneMap r = Accepted c ->
  exists t, enrich zoneMap r c = Some t.
Proof.
  intros H. apply isValidTrip_accepted in H as (zm & p & d & -> & _).
  unfold enrich. cbn [mbind option_bind]. eexists. reflexivity.
Qed.

(** The distance of an accepted row is a finite number of miles in
    [0, 500]. *)
Lemma accepted_distance (zoneMap : zone_map) (r : row) (c : ctx) :
  isValidTrip zoneMap r = Accepted c ->
  exists miles, tripDistance c = Fin miles /\ (0 <= miles <= 500)%Q.
Proof.
  intros H. apply isValidTrip_accepted in H as (zm & p & d & H).
  destruct H as (_ & _ & _ & _ & _ & _ & _ & Hdist & Hrange & _).
  apply orb_false_iff in Hrange as [Hlo Hhi].
  apply (between_finite _ 0 500) in Hlo; [exact Hlo| |exact Hhi].
  rewrite Hdist. apply parseNum_not_NaN. reflexivity.
Qed.

(** The speed the enricher stores, for a finite distance and a positive
    duration. *)
Lemma enrich_speed (zoneMap : zone_map) (r : row) (c : ctx) (t : trip) (miles : Q) :
  enrich zoneMap r c = Some t ->
  tripDistance c = Fin miles ->
  (0 < durationSec c)%Z ->
  speed_kmh t
  = JsNum.min (of_Z 200)
      (Fin (miles * (160934 # 100000) / (inject_Z (durationSec c) / inject_Z 3600))).
Proof.
  unfold enrich. intros Ht Hmiles Hpos.
  destruct zoneMap as [zm|]; [|discriminate]. cbn in Ht.
  injection Ht as <-. cbn [speed_kmh]. rewrite Hmiles.
  assert (Hhours : (0 < inject_Z (durationSec c) / inject_Z 3600)%Q).
  { apply Qlt_shift_div_l; [reflexivity|].
    rewrite Qmult_0_l. rewrite <- (Zlt_Qlt 0). exact Hpos. }
  unfold of_Z, MILES_TO_KM. cbn [JsNum.div JsNum.mul JsNum.gt JsNum.lt].
  change (Qeq_bool (inject_Z 3600) 0) with false. cbn iota.
  cbn [JsNum.gt JsNum.lt].
  replace (Qltb (inject_Z 0) (inject_Z (durationSec c) / inject_Z 3600)) with true
    by (symmetry; apply Qltb_lt; exact Hhours).
  cbn [JsNum.div].
  replace (Qeq_bool (inject_Z (durationSec c) / inject_Z 3600) 0) with false.
  - reflexivity.
  - symmetry. apply not_true_iff_false. intros E. apply Qeq_bool_iff in E.
    rewrite E in Hhours. discriminate.
Qed.

(** C2. For every accepted row the stored speed is
    [min(200, distance_km / (duration_sec / 3600))] with
    [distance_km = trip_distance * 1.60934], where [trip_distance] is the
    distance parsed from the row and [duration_sec] the rounded number of
    seconds between the two timestamps parsed from the row, both stored
    with the trip (the duration of an accepted row is at least 60 seconds,
    never 0); and so the speed is at most 200. *)
Theorem enrich_speed_capped (zoneMap : zone_map) (r : row) (c : ctx) :
  isValidTrip zoneMap r = Accepted c ->
  exists (t : trip) (miles v : Q) (p d : Z),
    enrich zoneMap r c = Some t
    /\ parseNum (trip_distance r) (of_Z (-1)) = Fin miles
    /\ parseTimestamp (tpep_pickup_datetime r) = Some p
    /\ parseTimestamp (tpep_dropoff_datetime r) = Some d
    /\ t_trip_distance t = Fin miles
    /\ trip_duration_sec t = round_seconds (d - p)
    /\ (60 <= trip_duration_sec t <= 86400)%Z
    /\ speed_kmh t = Fin v
    /\ (let distance_km := miles * (160934 # 100000) in
        let duration_sec := inject_Z (trip_duration_sec t) in
        v == if Qeq_bool duration_sec 0 then 0
             else Qmin 200 (distance_km / (duration_sec / 3600)))%Q
    /\ (v <= 200)%Q.
Proof.
  intros Hok.
  destruct (enrich_accepted _ _ _ Hok) as [t Ht].
  destruct (accepted_distance _ _ _ Hok) as (miles & Hmiles & _).
  destruct (isValidTrip_accepted _ _ _ Hok) as (zm & p & d & H).
  destruct H as (_ & _ & _ & Hp & Hd0 & Hround & Hdur & Hparse & _).
  assert (Hpos : (0 < durationSec c)%Z) by lia.
  pose proof (enrich_speed _ _ _ _ _ Ht Hmiles Hpos) as Hspeed.
  assert (Hfields : t_trip_distance t = tripDistance c
                    /\ trip_duration_sec t = durationSec c).
  { unfold enrich in Ht. destruct zoneMap; [|discriminate]. cbn in Ht.
    injection Ht as <-. split; reflexivity. }
  destruct Hfields as [Hd Hs].
  destruct (min_Fin 200 (miles * (160934 # 100000)
                         / (inject_Z (durationSec c) / inject_Z 3600)))
    as (v & Hv & Heq & Hle).
  exists t, miles, v, p, d. rewrite Hd, Hs, Hspeed.
  split; [exact Ht|]. split; [rewrite <- Hparse; exact Hmiles|].
  split; [exact Hp|]. split; [exact Hd0|]. split; [exact Hmiles|].
  split; [exact Hround|]. split; [exact Hdur|].
  split; [exact Hv|]. split; [|exact Hle].
  cbv zeta.
  replace (Qeq_bool (inject_Z (durationSec c)) 0) with false; [exact Heq|].
  symmetry. apply not_true_iff_false. intros E. apply Qeq_bool_iff in E.
  change 0%Q with (inject_Z 0) in E. apply (proj1 (inject_Z_injective _ _)) in E.
  rewrite E in Hpos. discriminate.
Qed.

Lemma str_truthy_non_empty (o : option string) :
  str_truthy o = true <-> non_empty o.
Proof.
  unfold str_truthy, non_empty. destruct o as [s|].
  - rewrite negb_true_iff, String.eqb_neq. split.
    + intros H. exists s. split; [reflexivity | exact H].
    + intros (s' & [= <-] & H). exact H.
  - split; [discriminate | intros (s & H & _); discriminate].
Qed.

Lemma strict_neq_spec (a b : option string) : strict_neq a b = true <-> a <> b.
Proof.
  unfold strict_neq. rewrite negb_true_iff, bool_decide_eq_false. reflexivity.
Qed.

Lemma zoneMap_has_get (zm : gmap Z zone) (n : num) :
  zoneMap_has zm n = true -> exists z, zoneMap_get zm n = Some z.
Proof.
  unfold zoneMap_has. intros H. apply bool_decide_eq_true in H.
  destruct H as [z Hz]. exists z. exact Hz.
Qed.

(** C3. For every accepted row the zone ids stored with the trip are the
    pick-up and drop-off ids parsed from the row, both resolve in the zone
    store, the pick-up borough of the trip is the borough of the zone of
    the pick-up id and the drop-off borough that of the zone of the
    drop-off id, and the trip is ["Cross Borough"] exactly when both are
    non-empty strings and differ; it is ["Within Borough"] in every other
    case. *)
Theorem enrich_trip_type (zoneMap : zone_map) (r : row) (c : ctx) :
  isValidTrip zoneMap r = Accepted c ->
  exists t zm pz dz,
    enrich zoneMap r c = Some t
    /\ zoneMap = Some zm
    /\ pu_location_id t = parseIntStrict id (PULocationID r) NaN
    /\ do_location_id t = parseIntStrict id (DOLocationID r) NaN
    /\ zoneMap_get zm (parseIntStrict id (PULocationID r) NaN) = Some pz
    /\ zoneMap_get zm (parseIntStrict id (DOLocationID r) NaN) = Some dz
    /\ zoneMap_get zm (pu_location_id t) = Some pz
    /\ zoneMap_get zm (do_location_id t) = Some dz
    /\ pickup_borough t = borough pz
    /\ dropoff_borough t = borough dz
    /\ (trip_type t = "Cross Borough"
        <-> non_empty (borough pz) /\ non_empty (borough dz)
            /\ borough pz <> borough dz)
    /\ (trip_type t <> "Cross Borough" -> trip_type t = "Within Borough").
Proof.
  intros Hok.
  destruct (enrich_accepted _ _ _ Hok) as [t Ht].
  destruct (isValidTrip_accepted_ids _ _ _ Hok) as [Ipu Ido].
  destruct (isValidTrip_accepted _ _ _ Hok) as (zm & p & d & H).
  destruct H as (-> & Hpu & Hdo & _).
  destruct (zoneMap_has_get _ _ Hpu) as [pz Hpz].
  destruct (zoneMap_has_get _ _ Hdo) as [dz Hdz].
  exists t, zm, pz, dz. split; [exact Ht|].
  unfold enrich in Ht. cbn [mbind option_bind] in Ht.
  rewrite Hpz, Hdz in Ht. injection Ht as <-.
  cbn [pu_location_id do_location_id pickup_borough dropoff_borough trip_type].
  rewrite <- Ipu, <- Ido.
  repeat (split; [solve [reflexivity | assumption]|]).
  rewrite <- !str_truthy_non_empty, <- strict_neq_spec.
  destruct (str_truthy (borough pz)), (str_truthy (borough dz)),
    (strict_neq (borough pz) (borough dz)); cbn;
    (split; [split; [intros H; try discriminate H; auto
                    | intros (H1 & H2 & H3); try discriminate; reflexivity]
            | intros H; try reflexivity; contradiction H; reflexivity]).
Qed.

End Validation.

(** The end-to-end scenario: five miles in twenty minutes. *)
Lemma enrich_speed_capped_scenario :
  exists (t : trip) (miles v : Q) (p d : Z),
    enrich (RT := RefRuntime.runtime) two_zones good_row good_ctx = Some t
    /\ parseNum (RT := RefRuntime.runtime) (trip_distance good_row) (of_Z (-1)) = Fin miles
    /\ parseTimestamp (RT := RefRuntime.runtime) (tpep_pickup_datetime good_row) = Some p
    /\ parseTimestamp (RT := RefRuntime.runtime) (tpep_dropoff_datetime good_row) = Some d
    /\ t_trip_distance t = Fin miles
    /\ trip_duration_sec t = round_seconds (d - p)
    /\ (60 <= trip_duration_sec t <= 86400)%Z
    /\ speed_kmh t = Fin v
    /\ (let distance_km := miles * (160934 # 100000) in
        let duration_sec := inject_Z (trip_duration_sec t) in
        v == if Qeq_bool duration_sec 0 then 0
             else Qmin 200 (distance_km / (duration_sec / 3600)))%Q
    /\ (v <= 200)%Q.
Proof.
  apply (enrich_speed_capped (RT := RefRuntime.runtime) two_zones good_row good_ctx).
  vm_compute. reflexivity.
Defined.

(** The end-to-end scenario: from Manhattan to Queens. *)
Lemma enrich_trip_type_scenario :
  exists t zm pz dz,
    enrich (RT := RefRuntime.runtime) two_zones good_row good_ctx = Some t
    /\ two_zones = Some zm
    /\ pu_location_id t
       = parseIntStrict (RT := RefRuntime.runtime) id (PULocationID good_row) NaN
    /\ do_location_id t
       = parseIntStrict (RT := RefRuntime.runtime) id (DOLocationID good_row) NaN
    /\ zoneMap_get zm
         (parseIntStrict (RT := RefRuntime.runtime) id (PULocationID good_row) NaN) = Some pz
    /\ zoneMap_get zm
         (parseIntStrict (RT := RefRuntime.runtime) id (DOLocationID good_row) NaN) = Some dz
    /\ zoneMap_get zm (pu_location_id t) = Some pz
    /\ zoneMap_get zm (do_location_id t) = Some dz
    /\ pickup_borough t = borough pz
    /\ dropoff_borough t = borough dz
    /\ (trip_type t = "Cross Borough"
        <-> non_empty (borough pz) /\ non_empty (borough dz)
            /\ borough pz <> borough dz)
    /\ (trip_type t <> "Cross Borough" -> trip_type t = "Within Borough").
Proof.
  apply (enrich_trip_type (RT := RefRuntime.runtime) two_zones good_row good_ctx).
  vm_compute. reflexivity.
Defined.

(** The values of the end-to-end scenario: twenty minutes, about 24.14
    km/h, a tip rate of one fifth, a trip across boroughs at 8 o'clock. *)
Example good_row_enriched :
  exists t,
    good_trip = Some t
    /\ trip_duration_sec t = 1200%Z
    /\ speed_kmh t = Fin (2896812000 # 120000000)
    /\ tip_rate t = Fin (5 # 25)
    /\ trip_type t = "Cross Borough"
    /\ hour_of_day t = 8%Z
    /\ pickup_borough t = Some "Manhattan"
    /\ dropoff_borough t = Some "Queens".
Proof. eexists. split; [reflexivity|]. repeat split. Qed.

(** Five hundred miles in one minute: the cap applies. *)
Example fast_row_capped :
  exists c t,
    isValidTrip (RT := RefRuntime.runtime) two_zones fast_row = Accepted c
    /\ enrich (RT := RefRuntime.runtime) two_zones fast_row c = Some t
    /\ speed_kmh t = Fin 200.
Proof.
  eexists. eexists. split; [vm_compute; reflexivity|].
  split; vm_compute; reflexivity.
Qed.

(** The scenario of an unknown pick-up zone. *)
Example unknown_zone_rejected :
  isValidTrip (RT := RefRuntime.runtime) two_zones unknown_zone_row
  = Rejected invalid_or_unknown_zone.
Proof. vm_compute. reflexivity. Qed.

Section Counting.

Context `{RT : JsRuntime}.

Lemma count_rows_cons (zoneMap : zone_map) (r : row) (rows : list row) (n : stats) :
  count_rows zoneMap (r :: rows) n
  = count_rows zoneMap rows (count_row (ok (isValidTrip zoneMap r)) n).
Proof. reflexivity. Qed.

Lemma consume_counters (zoneMap : zone_map) (rw : row) (st st' : run) :
  consume zoneMap rw st = Some st' ->
  counters st' = count_row (ok (isValidTrip zoneMap rw)) (counters st).
Proof.
  unfold consume. destruct (isValidTrip zoneMap rw) as [why|c]; cbn.
  - intros [= <-]. reflexivity.
  - destruct (enrich zoneMap rw c); cbn; [|discriminate].
    intros [= <-]. reflexivity.
Qed.

Lemma count_rows_tally (zoneMap : zone_map) (rows : list row) (n : stats) :
  processed (count_rows zoneMap rows n) = (processed n + processed (tally zoneMap rows))%nat
  /\ valid (count_rows zoneMap rows n) = (valid n + valid (tally zoneMap rows))%nat
  /\ invalid (count_rows zoneMap rows n) = (invalid n + invalid (tally zoneMap rows))%nat.
Proof.
  revert n. induction rows as [|r rows IH]; intros n.
  - cbn. lia.
  - rewrite count_rows_cons.
    destruct (IH (count_row (ok (isValidTrip zoneMap r)) n)) as (Hp & Hv & Hi).
    rewrite Hp, Hv, Hi. cbn [tally processed valid invalid length List.filter].
    destruct (ok (isValidTrip zoneMap r)); cbn; lia.
Qed.

Lemma tally_sum (zoneMap : zone_map) (rows : list row) :
  processed (tally zoneMap rows)
  = (valid (tally zoneMap rows) + invalid (tally zoneMap rows))%nat.
Proof.
  cbn. induction rows as [|r rows IH]; [reflexivity|].
  cbn. destruct (ok (isValidTrip zoneMap r)); cbn; lia.
Qed.

Lemma count_rows_zero (zoneMap : zone_map) (rows : list row) :
  count_rows zoneMap rows (counters run0) = tally zoneMap rows.
Proof.
  destruct (count_rows_tally zoneMap rows (counters run0)) as (Hp & Hv & Hi).
  destruct (count_rows zoneMap rows (counters run0)) as [a b c].
  cbn in Hp, Hv, Hi. subst. reflexivity.
Qed.

Section Parquet.

Variable store : Type.
Variable store_insert : store -> list trip -> option store.

Lemma parquet_loop_counters (zoneMap : zone_map) (records : list row) :
  forall (st st' : run) (db db' : store),
    parquet_loop store store_insert zoneMap records st db = Some (st', db') ->
    exists rows,
      mapM rowFromParquetRecord records = Some rows
      /\ counters st' = count_rows zoneMap rows (counters st).
Proof.
  induction records as [|rec rest IH]; intros st st' db db'.
  - cbn. intros [= <- <-]. exists []. split; reflexivity.
  - cbn [parquet_loop]. destruct (rowFromParquetRecord rec) as [rw|] eqn:Hrw; [|discriminate].
    cbn [mbind option_bind].
    destruct (consume zoneMap rw st) as [st1|] eqn:Hst1; [|discriminate].
    cbn [mbind option_bind].
    pose proof (consume_counters _ _ _ _ Hst1) as Hc.
    assert (Hrest : forall st2 db2,
               counters st2 = counters st1 ->
               parquet_loop store store_insert zoneMap rest st2 db2 = Some (st', db') ->
               exists rows,
                 mapM rowFromParquetRecord (rec :: rest) = Some rows
                 /\ counters st' = count_rows zoneMap rows (counters st)).
    { intros st2 db2 Heq Hloop. destruct (IH _ _ _ _ Hloop) as (rows & Hrows & Hcount).
      exists (rw :: rows). split.
      - apply mapM_Some. constructor; [exact Hrw|]. apply mapM_Some. exact Hrows.
      - rewrite count_rows_cons, Hcount, Heq, Hc. reflexivity. }
    destruct (ok (isValidTrip zoneMap rw) && (BATCH_SIZE <=? length (batch st1))%nat)%bool.
    + destruct (insertBatch store store_insert db (batch st1)) as [db1|]; [|discriminate].
      cbn [mbind option_bind]. apply Hrest. reflexivity.
    + apply Hrest. reflexivity.
Qed.

End Parquet.

Lemma csv_events_counters (zoneMap : zone_map) (es : list csv_event) :
  forall st st',
    csv_events zoneMap es st = Some st' ->
    counters (vars st') = count_rows zoneMap (data_rows es) (counters (vars st)).
Proof.
  induction es as [|e es IH]; intros st st'.
  - cbn. intros [= <-]. reflexivity.
  - cbn [csv_events]. destruct (csv_step zoneMap st e) as [st1|] eqn:Hstep; [|discriminate].
    cbn [mbind option_bind]. intros Hrest. rewrite (IH _ _ Hrest).
    destruct e as [rw|]; cbn [csv_step] in Hstep.
    + destruct (consume zoneMap rw (vars st)) as [v|] eqn:Hv; [|discriminate].
      cbn [mbind option_bind] in Hstep.
      pose proof (consume_counters _ _ _ _ Hv) as Hc.
      assert (Hvars : counters (vars st1) = counters v).
      { destruct (ok _ && _)%bool; injection Hstep as <-; reflexivity. }
      rewrite Hvars, Hc. reflexivity.
    + destruct (suspended st); [discriminate|]. injection Hstep as <-. reflexivity.
Qed.

(** C10. The statistics a completed ingestion returns count every row once:
    [processed] is the number of rows handled, [valid] the number of rows the
    validator accepted, [invalid] the number it rejected, and so
    [processed = valid + invalid]. *)
Theorem ingestion_counts_every_row_once (zoneMap : zone_map) (rows : list row) (s : stats) :
  completes zoneMap rows s ->
  s = tally zoneMap rows /\ processed s = (valid s + invalid s)%nat.
Proof.
  intros Hrun.
  assert (Hs : s = tally zoneMap rows).
  { destruct Hrun as [(store & store_insert & records & db & db' & Hrows & Hrun)
                     | (es & q & Hrows & Hrun)].
    - unfold importFromParquet in Hrun.
      destruct (parquet_loop store store_insert zoneMap records run0 db)
        as [[st db1]|] eqn:Hloop; [|discriminate].
      cbn [mbind option_bind] in Hrun.
      destruct (parquet_loop_counters _ _ _ _ _ _ _ _ Hloop) as (rows' & Hrows' & Hc).
      rewrite Hrows in Hrows'. injection Hrows' as <-.
      destruct (if (0 <? length (batch st))%nat then _ else _); [|discriminate].
      injection Hrun as <- _. rewrite Hc. apply count_rows_zero.
    - unfold importFromCsv in Hrun.
      destruct (csv_events zoneMap es csv0) as [st|] eqn:Hev; [|discriminate].
      injection Hrun as <- _. rewrite (csv_events_counters _ _ _ _ Hev), Hrows.
      apply count_rows_zero. }
  split; [exact Hs|]. rewrite Hs. apply tally_sum.
Qed.

End Counting.

(** A run over the accepted row of the scenario and the short one. *)
Lemma ingestion_counts_scenario :
  {| processed := 2; valid := 1; invalid := 1 |}
  = tally (RT := RefRuntime.runtime) two_zones [good_row; short_row]
  /\ (2 = 1 + 1)%nat.
Proof.
  apply (ingestion_counts_every_row_once (RT := RefRuntime.runtime)
           two_zones [good_row; short_row]
           {| processed := 2; valid := 1; invalid := 1 |}).
  right. exists [Data good_row; Data short_row]. eexists.
  split; [reflexivity|]. vm_compute. reflexivity.
Defined.

(** The scenario of a drop-off thirty seconds after the pick-up. *)
Lemma isValidTrip_short_trip_rejected :
  isValidTrip (RT := RefRuntime.runtime) two_zones short_row
  = Rejected duration_out_of_range.
Proof.
  refine (proj2 (isValidTrip_reports_first_failing_check
                   (RT := RefRuntime.runtime) two_zones short_row)
                _ 1704096000000%Z 1704096030000%Z eq_refl _ _ _ _ _).
  - vm_compute. reflexivity.
  - vm_compute. reflexivity.
  - vm_compute. reflexivity.
  - vm_compute. reflexivity.
  - left. vm_compute. reflexivity.
Defined.

End ImportDataProps.


(** ** The zone store loader *)

Module ImportZonesProps.

Import ImportZones.

Local Open Scope string_scope.
Local Open Scope list_scope.

Section Loader.

Context `{RT : JsRuntime}.

(** The loop either fails on a value that does not fit, or runs the
    statements of its rows. *)
Lemma load_rows_statements (rows : list lookup_row) :
  forall t, load_rows t rows = run_statements t <$> statements rows.
Proof.
  induction rows as [|row rest IH]; intros t; [reflexivity|].
  cbn [load_rows statements].
  destruct (isNaN (locId_of row)); [apply IH|].
  unfold upsert.
  destruct (checked _ _ _ _) as [q|]; cbn; [|reflexivity].
  rewrite IH. destruct (statements rest); reflexivity.
Qed.

End Loader.

Lemma location_id_update_row (q : statement) (r : zones_row) :
  location_id (update_row q r) = location_id r.
Proof. unfold update_row. destruct (_ =? _)%Z; reflexivity. Qed.

Lemma keys_update (q : statement) (t : zones_table) :
  keys (map (update_row q) t) = keys t.
Proof.
  unfold keys. rewrite map_map. apply map_ext. apply location_id_update_row.
Qed.

Lemma has_key_In (k : Z) (t : zones_table) :
  has_key k t = true <-> In k (keys t).
Proof.
  unfold has_key, keys. rewrite existsb_exists, in_map_iff.
  split; intros (r & H1 & H2); exists r.
  - apply Z.eqb_eq in H2. split; assumption.
  - split; [assumption|]. apply Z.eqb_eq. assumption.
Qed.

Lemma keys_run_statement (t : zones_table) (q : statement) :
  keys (run_statement t q)
  = if has_key (q_key q) t then keys t else keys t ++ [q_key q].
Proof.
  unfold run_statement. destruct (has_key (q_key q) t).
  - apply keys_update.
  - unfold keys. rewrite map_app. reflexivity.
Qed.

(** The primary key stays a key. *)
Lemma key_unique_run_statements (qs : list statement) :
  forall t, key_unique t -> key_unique (run_statements t qs).
Proof.
  induction qs as [|q qs IH]; intros t Ht; [exact Ht|].
  cbn. apply IH. unfold key_unique. rewrite keys_run_statement.
  destruct (has_key (q_key q) t) eqn:Hk; [exact Ht|].
  apply NoDup_app. split; [exact Ht|]. split.
  - intros k Hin Hk'. apply list_elem_of_singleton in Hk'. subst k.
    apply list_elem_of_In, has_key_In in Hin. congruence.
  - apply NoDup_singleton.
Qed.

Lemma has_key_run_statement (k : Z) (t : zones_table) (q : statement) :
  has_key k t = true -> has_key k (run_statement t q) = true.
Proof.
  rewrite !has_key_In, keys_run_statement.
  destruct (has_key (q_key q) t); [tauto|]. intros H. apply in_or_app. tauto.
Qed.

Lemma has_key_run_statements (k : Z) (qs : list statement) :
  forall t, has_key k t = true -> has_key k (run_statements t qs) = true.
Proof.
  induction qs as [|q qs IH]; intros t Ht; [exact Ht|].
  cbn. apply IH, has_key_run_statement, Ht.
Qed.

(** Every statement leaves its key in the table. *)
Lemma statements_keys_present (qs : list statement) :
  forall t q, In q qs -> has_key (q_key q) (run_statements t qs) = true.
Proof.
  induction qs as [|q0 qs IH]; intros t q Hin; [destruct Hin|].
  cbn. destruct Hin as [->|Hin]; [|apply IH, Hin].
  apply has_key_run_statements. apply has_key_In. rewrite keys_run_statement.
  destruct (has_key (q_key q) t) eqn:Hk.
  - apply has_key_In, Hk.
  - apply in_or_app. right. left. reflexivity.
Qed.

(** On a table that holds every key, the statements only update rows. *)
Lemma run_statements_present (qs : list statement) :
  forall t,
    (forall q, In q qs -> has_key (q_key q) t = true) ->
    run_statements t qs = map (replay qs) t.
Proof.
  induction qs as [|q qs IH]; intros t Hall.
  - cbn. symmetry. apply map_id.
  - cbn [run_statements fold_left]. fold (run_statements (run_statement t q) qs).
    rewrite IH.
    + unfold run_statement. rewrite (Hall q) by (left; reflexivity).
      rewrite map_map. reflexivity.
    + intros q' Hq'. apply has_key_run_statement, Hall. right. exact Hq'.
Qed.

Lemma set_names_update_row (q q' : statement) (r : zones_row) :
  set_names (q_borough q') (q_zone q') (q_service_zone q') (update_row q r)
  = set_names (q_borough q') (q_zone q') (q_service_zone q') r.
Proof. unfold update_row. destruct (_ =? _)%Z; reflexivity. Qed.

(** A row through a list of statements: the last one for its key wins. *)
Lemma replay_last_for (qs : list statement) :
  forall r,
    replay qs r
    = match last_for (location_id r) qs with
      | Some q => set_names (q_borough q) (q_zone q) (q_service_zone q) r
      | None => r
      end.
Proof.
  induction qs as [|q qs IH]; intros r; [reflexivity|].
  cbn [replay fold_left last_for]. fold (replay qs (update_row q r)).
  rewrite IH, location_id_update_row.
  destruct (last_for (location_id r) qs) as [q'|].
  - apply set_names_update_row.
  - unfold update_row. destruct (_ =? _)%Z; reflexivity.
Qed.

Lemma last_for_snoc (k : Z) (qs : list statement) (q : statement) :
  last_for k (qs ++ [q]) = if (k =? q_key q)%Z then Some q else last_for k qs.
Proof.
  induction qs as [|q0 qs IH]; cbn.
  - destruct (k =? q_key q)%Z; reflexivity.
  - rewrite IH. destruct (k =? q_key q)%Z; reflexivity.
Qed.

(** After the statements, every row carries the names of the last statement
    for its key. *)
Lemma run_statements_named (qs : list statement) :
  forall t r q,
    In r (run_statements t qs) ->
    last_for (location_id r) qs = Some q ->
    named_by q r.
Proof.
  induction qs as [|q0 qs IH] using rev_ind; intros t r q Hin Hlast; [discriminate|].
  unfold run_statements in Hin. rewrite fold_left_app in Hin. cbn in Hin.
  fold (run_statements t qs) in Hin.
  rewrite last_for_snoc in Hlast.
  unfold run_statement in Hin.
  destruct (has_key (q_key q0) (run_statements t qs)) eqn:Hk.
  - apply in_map_iff in Hin as (r' & <- & Hr').
    rewrite location_id_update_row in Hlast. unfold update_row.
    destruct (location_id r' =? q_key q0)%Z.
    + injection Hlast as <-. repeat split.
    + apply (IH t); assumption.
  - apply in_app_or in Hin as [Hin|[<-|[]]].
    + destruct (location_id r =? q_key q0)%Z eqn:E.
      * apply Z.eqb_eq in E.
        assert (has_key (q_key q0) (run_statements t qs) = true); [|congruence].
        apply has_key_In. rewrite <- E. apply in_map. exact Hin.
      * apply (IH t); assumption.
    + cbn in Hlast. rewrite Z.eqb_refl in Hlast. injection Hlast as <-. repeat split.
Qed.

Lemma set_names_named (q : statement) (r : zones_row) :
  named_by q r ->
  set_names (q_borough q) (q_zone q) (q_service_zone q) r = r.
Proof.
  destruct r as [k b z s la lo]. unfold named_by, set_names. cbn.
  intros (-> & -> & ->). reflexivity.
Qed.

(** Running the statements once more changes nothing. *)
Lemma run_statements_twice (qs : list statement) (t : zones_table) :
  run_statements (run_statements t qs) qs = run_statements t qs.
Proof.
  rewrite run_statements_present by (intros q Hq; apply statements_keys_present, Hq).
  rewrite <- (map_id (run_statements t qs)) at 2.
  apply map_ext_in. intros r Hr. rewrite replay_last_for.
  destruct (last_for (location_id r) qs) as [q|] eqn:Hq; [|reflexivity].
  apply set_names_named. apply (run_statements_named qs t); assumption.
Qed.

Section Idempotence.

Context `{RT : JsRuntime}.

(** C7. A second run of the loader over an unchanged lookup source, on the
    table the first run has left, succeeds and leaves that very table: the
    same rows with the same values, hence the same row count; and no
    [location_id] occurs twice in it, a statement on an existing key updates
    the row. *)
Theorem loadZonesFromLookup_idempotent
    (t t1 : zones_table) (rows : list lookup_row) (n : nat) :
  key_unique t ->
  loadZonesFromLookup t rows = Some (n, t1) ->
  loadZonesFromLookup t1 rows = Some (n, t1)
  /\ key_unique t1.
Proof.
  unfold loadZonesFromLookup. rewrite !load_rows_statements.
  intros Hkey Hrun.
  destruct (statements rows) as [qs|]; [|discriminate].
  cbn in Hrun. injection Hrun as <- <-. cbn.
  rewrite run_statements_twice. split; [reflexivity|].
  apply key_unique_run_statements, Hkey.
Qed.

End Idempotence.

Import Scenario.

(** The lookup file of the scenarios, loaded twice. *)
Lemma loadZonesFromLookup_twice_scenario :
  exists n t1,
    loaded_zones = Some (n, t1)
    /\ loadZonesFromLookup (RT := RefRuntime.runtime) t1 lookup_rows = Some (n, t1)
    /\ key_unique t1.
Proof.
  eexists. eexists. split; [reflexivity|].
  apply (loadZonesFromLookup_idempotent (RT := RefRuntime.runtime) []).
  - apply NoDup_nil_2.
  - vm_compute. reflexivity.
Defined.

(** A row whose [LocationID] does not parse sends no statement. *)
Lemma load_rows_skips `{RT : JsRuntime} (t : zones_table) (row : lookup_row)
    (rest : list lookup_row) :
  isNaN (locId_of row) = true ->
  load_rows t (row :: rest) = load_rows t rest.
Proof. intros H. cbn [load_rows]. rewrite H. reflexivity. Qed.

(** C8, at a lookup file of one row without a numeric id: the row is
    skipped and the zone store stays empty, yet the count returned is 1, the
    number of rows read, not the number of zones loaded. *)
Theorem loadZonesFromLookup_counts_skipped_row :
  loadZonesFromLookup (RT := RefRuntime.runtime) [] [unnumbered_row]
  = Some (1%nat, []).
Proof. vm_compute. reflexivity. Qed.

End ImportZonesProps.


(** ** The clustering engine *)

Module ClustererProps.

Import Clusterer Scenario.

Local Open Scope list_scope.

Section Degenerate.

Context `{RT : JsRuntime}.

(** C4. On an empty point set the result is the empty list; on a non-empty
    one, with [k <= 0] or [k > points.length], it is one cluster, the whole
    input in its order.  No random number is drawn. *)
Theorem kMeans_degenerate (fuel : nat) (rand : oracle) (t : nat)
    (data : list point) (k maxIterations : Z) :
  data = [] \/ (k <= 0)%Z \/ (k > Z.of_nat (length data))%Z ->
  kMeans fuel rand t data k maxIterations
  = Some (match data with [] => [] | _ => [data] end, t).
Proof.
  intros H. unfold kMeans. destruct data as [|p data]; [reflexivity|].
  destruct H as [H|H]; [discriminate|].
  change (length (p :: data) =? 0)%nat with false. cbv iota.
  destruct ((k <=? 0)%Z || (k >? Z.of_nat (length (p :: data)))%Z)%bool eqn:E;
    [reflexivity|].
  apply orb_false_iff in E. lia.
Qed.

(** C5, as the code has it: with more clusters asked for than there are
    points, the result is one cluster holding the whole input. *)
Theorem kMeans_more_clusters_than_points (fuel : nat) (rand : oracle) (t : nat)
    (data : list point) (k maxIterations : Z) :
  data <> [] ->
  (k > Z.of_nat (length data))%Z ->
  kMeans fuel rand t data k maxIterations = Some ([data], t).
Proof.
  intros Hdata Hk. unfold kMeans.
  destruct data as [|p data]; [contradiction|].
  change (length (p :: data) =? 0)%nat with false. cbv iota.
  destruct ((k <=? 0)%Z || (k >? Z.of_nat (length (p :: data)))%Z)%bool eqn:E;
    [reflexivity|].
  apply orb_false_iff in E. lia.
Qed.

(** C6, as the code has it: without any iteration the clusters stay the
    empty list they start as; the centroids are drawn all the same. *)
Theorem kMeans_no_iteration (fuel : nat) (rand : oracle) (t : nat)
    (data : list point) (k maxIterations : Z) :
  data <> [] ->
  (1 <= k <= Z.of_nat (length data))%Z ->
  (maxIterations <= 0)%Z ->
  kMeans fuel rand t data k maxIterations
  = '(_, t1) ← initializeCentroids fuel rand t data k; Some ([], t1).
Proof.
  intros Hdata Hk Hmax. unfold kMeans.
  destruct data as [|p data]; [contradiction|].
  change (length (p :: data) =? 0)%nat with false. cbv iota.
  destruct ((k <=? 0)%Z || (k >? Z.of_nat (length (p :: data)))%Z)%bool eqn:E;
    [apply orb_true_iff in E; lia|].
  destruct (initializeCentroids fuel rand t (p :: data) k) as [[cs t1]|]; [|reflexivity].
  cbn [mbind option_bind]. replace (Z.to_nat maxIterations) with O by lia.
  reflexivity.
Qed.

End Degenerate.

(** Two points and three clusters asked for. *)
Lemma kMeans_degenerate_scenario :
  kMeans (RT := RefRuntime.runtime) 0 stuck 0 two_points 3 100
  = Some ([two_points], 0%nat).
Proof.
  apply (kMeans_degenerate (RT := RefRuntime.runtime) 0 stuck 0 two_points 3 100).
  right. right. vm_compute. reflexivity.
Defined.

Lemma kMeans_more_clusters_scenario :
  kMeans (RT := RefRuntime.runtime) 0 alternating 0 two_points 5 100
  = Some ([two_points], 0%nat).
Proof.
  apply (kMeans_more_clusters_than_points (RT := RefRuntime.runtime)).
  - discriminate.
  - vm_compute. reflexivity.
Defined.

(** C5 fails for [k = points.length]: two points a tenth of a degree apart,
    two clusters asked for, and each point ends in a cluster of its own. *)
Lemma kMeans_two_points_two_clusters :
  (2 >= Z.of_nat (length two_points))%Z
  /\ kMeans (RT := RefRuntime.runtime) 8 alternating 0 two_points 2 100
     = Some ([[point_a]; [point_b]], 2%nat)
  /\ [[point_a]; [point_b]] <> [two_points].
Proof.
  split; [vm_compute; discriminate|].
  split; [vm_compute; reflexivity | discriminate].
Qed.

(** C6 fails: the assignment to the initial centroids has two clusters, and
    the result without an iteration has none. *)
Lemma kMeans_no_iteration_is_empty :
  initializeCentroids 8 alternating 0 two_points 2
  = Some ([point_a; point_b], 2%nat)
  /\ List.filter nonempty (assign (RT := RefRuntime.runtime) two_points [point_a; point_b] 2)
     = [[point_a]; [point_b]]
  /\ kMeans (RT := RefRuntime.runtime) 8 alternating 0 two_points 2 0
     = Some ([], 2%nat).
Proof.
  split; [vm_compute; reflexivity|].
  split; vm_compute; reflexivity.
Qed.

Lemma kMeans_no_iteration_scenario :
  kMeans (RT := RefRuntime.runtime) 8 alternating 0 two_points 2 0
  = '(_, t1) ← initializeCentroids 8 alternating 0 two_points 2;
    Some ([], t1).
Proof.
  apply (kMeans_no_iteration (RT := RefRuntime.runtime)).
  - discriminate.
  - vm_compute. split; discriminate.
  - vm_compute. discriminate.
Defined.

Section Initialisation.

Variable rand : oracle.
Variable data : list point.

Lemma random_index_range (t : nat) :
  in_unit rand -> data <> [] ->
  (0 <= random_index rand t data < Z.of_nat (length data))%Z.
Proof.
  intros Hunit Hdata. unfold random_index, JsNum.floor.
  destruct (Hunit t) as [H0 H1].
  assert (Hn : (0 < inject_Z (Z.of_nat (length data)))%Q).
  { rewrite <- (Zlt_Qlt 0). destruct data; [contradiction|]. cbn [length]. lia. }
  split.
  - change 0%Z with (Qfloor (inject_Z 0)). apply Qfloor_resp_le.
    apply Qmult_le_0_compat; [exact H0 | apply Qlt_le_weak, Hn].
  - rewrite Zlt_Qlt. eapply Qle_lt_trans; [apply Qfloor_le|].
    rewrite <- (Qmult_1_l (inject_Z (Z.of_nat (length data)))) at 2.
    apply Qmult_lt_r; assumption.
Qed.

(** What a completed [do ... while] loop has drawn. *)
Lemma draw_unused_spec (fuel : nat) :
  forall (used : gset Z) (t : nat) (i : Z) (t1 : nat),
    draw_unused fuel rand data used t = Some (i, t1) ->
    (i ∉ used) /\ exists t0, (t <= t0)%nat /\ t1 = S t0 /\ i = random_index rand t0 data.
Proof.
  induction fuel as [|fuel IH]; intros used t i t1; [discriminate|].
  cbn [draw_unused]. destruct (decide (random_index rand t data ∈ used)) as [Hin|Hout].
  - intros H. destruct (IH _ _ _ _ H) as (Hi & t0 & Hle & -> & ->).
    split; [exact Hi|]. exists t0. repeat split. lia.
  - intros [= <- <-]. split; [exact Hout|]. exists t. repeat split. lia.
Qed.

Lemma draw_unused_mono (fuel fuel' : nat) :
  forall (used : gset Z) (t : nat) (r : Z * nat),
    (fuel <= fuel')%nat ->
    draw_unused fuel rand data used t = Some r ->
    draw_unused fuel' rand data used t = Some r.
Proof.
  revert fuel'. induction fuel as [|fuel IH]; intros fuel' used t r Hle; [discriminate|].
  destruct fuel' as [|fuel']; [lia|].
  cbn [draw_unused]. destruct (decide (random_index rand t data ∈ used)).
  - apply IH. lia.
  - trivial.
Qed.

Lemma init_loop_mono (fuel fuel' : nat) (n : nat) :
  forall (used : gset Z) (cs : list point) (t : nat) (r : list point * nat),
    (fuel <= fuel')%nat ->
    init_loop fuel rand data n used cs t = Some r ->
    init_loop fuel' rand data n used cs t = Some r.
Proof.
  induction n as [|n IH]; intros used cs t r Hle; [trivial|].
  cbn [init_loop].
  destruct (draw_unused fuel rand data used t) as [[i t1]|] eqn:Hdraw; [|discriminate].
  rewrite (draw_unused_mono _ _ _ _ _ Hle Hdraw). cbn [mbind option_bind].
  apply IH, Hle.
Qed.

(** The loop stops at the first call that yields an unused index. *)
Lemma draw_unused_finds (used : gset Z) (d : nat) :
  forall t,
    random_index rand (t + d) data ∉ used ->
    exists r, draw_unused (S d) rand data used t = Some r.
Proof.
  induction d as [|d IH]; intros t Hout.
  - rewrite Nat.add_0_r in Hout. cbn [draw_unused].
    rewrite decide_False by exact Hout. eauto.
  - cbn [draw_unused]. destruct (decide (random_index rand t data ∈ used)); [|eauto].
    apply IH. replace (S t + d)%nat with (t + S d)%nat by lia. exact Hout.
Qed.

(** Fewer indices than points: one index of the input is not among them. *)
Lemma unused_index (idxs : list Z) :
  (length idxs < length data)%nat ->
  exists j, (0 <= j < Z.of_nat (length data))%Z /\ (j ∉ idxs).
Proof.
  intros Hlen.
  set (all := map Z.of_nat (seq 0 (length data))).
  destruct (List.Forall_Exists_dec (fun j => In j idxs) (fun j => in_dec Z.eq_dec j idxs) all)
    as [Hall|Hex].
  - exfalso.
    assert (Hnodup : List.NoDup all).
    { apply Injective_map_NoDup; [intros a b; lia | apply seq_NoDup]. }
    assert (Hincl : incl all idxs) by exact (proj1 (List.Forall_forall _ _) Hall).
    pose proof (List.NoDup_incl_length Hnodup Hincl) as Hle.
    unfold all in Hle. rewrite length_map, length_seq in Hle. lia.
  - apply List.Exists_exists in Hex as (j & Hj & Hout). exists j. split.
    + apply in_map_iff in Hj as (a & <- & Ha). apply in_seq in Ha. lia.
    + rewrite list_elem_of_In. exact Hout.
Qed.

Hypothesis Hunit : in_unit rand.
Hypothesis Hdata : data <> [].

(** The invariant of the [for] loop: the used indices are those of the
    centroids pushed so far, all different. *)
Lemma init_loop_distinct (fuel : nat) (n : nat) :
  forall (used : gset Z) (cs : list point) (t : nat) (idxs0 : list Z)
         (cs' : list point) (t' : nat),
    (forall i, i ∈ used <-> i ∈ idxs0) ->
    NoDup idxs0 ->
    Forall2 (point_at data) idxs0 cs ->
    init_loop fuel rand data n used cs t = Some (cs', t') ->
    exists idxs,
      length idxs = (length idxs0 + n)%nat
      /\ NoDup idxs
      /\ Forall2 (point_at data) idxs cs'.
Proof.
  induction n as [|n IH]; intros used cs t idxs0 cs' t' Hused Hnodup Hcs.
  - cbn. intros [= <- <-]. exists idxs0. split; [lia|]. split; assumption.
  - cbn [init_loop].
    destruct (draw_unused fuel rand data used t) as [[i t1]|] eqn:Hdraw; [|discriminate].
    cbn [mbind option_bind]. intros Hloop.
    destruct (draw_unused_spec _ _ _ _ _ Hdraw) as (Hout & t0 & _ & _ & Hi).
    pose proof (random_index_range t0 Hunit Hdata) as Hrange. rewrite <- Hi in Hrange.
    destruct (IH ({[i]} ∪ used) (cs ++ [copy_at data i]) t1 (idxs0 ++ [i]) cs' t')
      as (idxs & Hlen & Hnd & Hpts).
    + intros j. rewrite elem_of_union, elem_of_singleton, elem_of_app, Hused.
      rewrite list_elem_of_singleton. tauto.
    + apply NoDup_app. split; [exact Hnodup|]. split; [|apply NoDup_singleton].
      intros j Hj Hj'. apply list_elem_of_singleton in Hj'. subst j.
      apply Hout, Hused, Hj.
    + apply Forall2_app; [exact Hcs|]. constructor; [|constructor].
      unfold point_at, copy_at. split; [lia|].
      replace (i <? 0)%Z with false by (symmetry; lia).
      destruct (data !! Z.to_nat i) eqn:E; [reflexivity|].
      apply lookup_ge_None in E. lia.
    + exact Hloop.
    + exists idxs. rewrite Hlen, length_app. cbn. split; [lia|]. split; assumption.
Qed.

(** With a recurrent source every round finds its index. *)
Lemma init_loop_returns (Hrec : recurrent rand data) (n : nat) :
  forall (used : gset Z) (cs : list point) (t : nat) (idxs0 : list Z),
    (forall i, i ∈ used <-> i ∈ idxs0) ->
    (length idxs0 + n <= length data)%nat ->
    exists fuel r, init_loop fuel rand data n used cs t = Some r.
Proof.
  induction n as [|n IH]; intros used cs t idxs0 Hused Hlen.
  - exists O. cbn. eauto.
  - destruct (unused_index idxs0) as (j & Hj & Hout); [lia|].
    destruct (Hrec t j Hj) as (t' & Hle & Hidx).
    destruct (draw_unused_finds used (t' - t) t) as [[i t1] Hdraw].
    { replace (t + (t' - t))%nat with t' by lia. rewrite Hidx, Hused. exact Hout. }
    destruct (draw_unused_spec _ _ _ _ _ Hdraw) as (Hi & _).
    destruct (IH ({[i]} ∪ used) (cs ++ [copy_at data i]) t1 (idxs0 ++ [i]))
      as (fuel & r & Hloop).
    + intros j'. rewrite elem_of_union, elem_of_singleton, elem_of_app, Hused.
      rewrite list_elem_of_singleton. tauto.
    + rewrite length_app. cbn. lia.
    + exists (Nat.max (S (t' - t)) fuel), r. cbn [init_loop].
      rewrite (draw_unused_mono (S (t' - t)) _ _ _ _ (Nat.le_max_l _ _) Hdraw).
      cbn [mbind option_bind].
      apply (init_loop_mono fuel); [apply Nat.le_max_r | exact Hloop].
Qed.

End Initialisation.

(** C9, as the code has it.  For a non-empty input, [1 <= k <= points.length]
    and a source of random numbers in [0, 1): whenever the initialisation
    returns, it returns exactly [k] centroids, the points of the input at
    [k] pairwise distinct indices; and it does return when the source yields
    every index again and again. *)
Theorem initializeCentroids_distinct (rand : oracle) (t : nat)
    (data : list point) (k : Z) :
  data <> [] ->
  (1 <= k <= Z.of_nat (length data))%Z ->
  in_unit rand ->
  (forall fuel cs t',
      initializeCentroids fuel rand t data k = Some (cs, t') ->
      exists idxs,
        Z.of_nat (length cs) = k
        /\ NoDup idxs
        /\ Forall2 (point_at data) idxs cs)
  /\ (recurrent rand data ->
      exists fuel cs t', initializeCentroids fuel rand t data k = Some (cs, t')).
Proof.
  intros Hdata Hk Hunit. unfold initializeCentroids. split.
  - intros fuel cs t' Hloop.
    destruct (init_loop_distinct rand data Hunit Hdata fuel (Z.to_nat k) ∅ [] t [] cs t')
      as (idxs & Hlen & Hnd & Hpts).
    + intros i. rewrite elem_of_nil. split; [apply not_elem_of_empty | intros []].
    + apply NoDup_nil_2.
    + constructor.
    + exact Hloop.
    + exists idxs. split; [|split; assumption].
      rewrite <- (Forall2_length _ _ _ Hpts), Hlen. cbn. lia.
  - intros Hrec.
    destruct (init_loop_returns rand data Hrec (Z.to_nat k) ∅ [] t [])
      as (fuel & [cs t'] & Hloop).
    + intros i. rewrite elem_of_nil. split; [apply not_elem_of_empty | intros []].
    + cbn. lia.
    + exists fuel, cs, t'. exact Hloop.
Qed.

Lemma stuck_draws_zero (fuel : nat) :
  forall (used : gset Z) (t : nat),
    0%Z ∈ used -> draw_unused fuel stuck two_points used t = None.
Proof.
  induction fuel as [|fuel IH]; intros used t Hin; [reflexivity|].
  cbn [draw_unused]. change (random_index stuck t two_points) with 0%Z.
  rewrite decide_True by exact Hin. apply IH, Hin.
Qed.

(** C9 fails for a source that keeps yielding the same index: the second
    centroid of two is never found, whatever the number of draws allowed. *)
Lemma initializeCentroids_stuck :
  in_unit stuck
  /\ (1 <= 2 <= Z.of_nat (length two_points))%Z
  /\ ~ (exists fuel r, initializeCentroids fuel stuck 0 two_points 2 = Some r).
Proof.
  split; [intros t; split; [apply Qle_refl | reflexivity]|].
  split; [vm_compute; split; discriminate|].
  intros (fuel & r & H). unfold initializeCentroids in H.
  change (Z.to_nat 2) with 2%nat in H. cbn [init_loop] in H.
  destruct fuel as [|fuel]; [discriminate|].
  cbn [draw_unused] in H. change (random_index stuck 0 two_points) with 0%Z in H.
  rewrite decide_False in H by set_solver. cbn [mbind option_bind] in H.
  rewrite stuck_draws_zero in H by set_solver. discriminate.
Qed.

Lemma alternating_in_unit : in_unit alternating.
Proof.
  intros t. unfold alternating, Qle, Qlt. cbn.
  pose proof (Z.mod_pos_bound (Z.of_nat t) 2). lia.
Qed.

Lemma alternating_index (t : nat) :
  random_index alternating t two_points = (Z.of_nat t mod 2)%Z.
Proof.
  unfold random_index, alternating, JsNum.floor, Qfloor. cbn.
  change (Z.of_nat 2) with 2%Z. change (Z.pos (2 * 1)) with 2%Z.
  apply Z.div_mul. discriminate.
Qed.

Lemma alternating_recurrent : recurrent alternating two_points.
Proof.
  intros t j Hj. cbn in Hj. exists (2 * t + Z.to_nat j)%nat. split; [lia|].
  rewrite alternating_index.
  replace (Z.of_nat (2 * t + Z.to_nat j)) with (j + Z.of_nat t * 2)%Z by lia.
  rewrite Z.mod_add by discriminate. apply Z.mod_small. lia.
Qed.

(** Two centroids for the two points, with the alternating source. *)
Lemma initializeCentroids_scenario :
  (forall fuel cs t',
      initializeCentroids fuel alternating 0 two_points 2 = Some (cs, t') ->
      exists idxs,
        Z.of_nat (length cs) = 2%Z
        /\ NoDup idxs
        /\ Forall2 (point_at two_points) idxs cs)
  /\ (recurrent alternating two_points ->
      exists fuel cs t', initializeCentroids fuel alternating 0 two_points 2 = Some (cs, t')).
Proof.
  apply (initializeCentroids_distinct alternating 0 two_points 2).
  - discriminate.
  - vm_compute. split; discriminate.
  - exact alternating_in_unit.
Defined.

End ClustererProps.


(** ** Validation and enrichment, further *)

Module ImportDataFurther.

Import ImportData Persisted Scenario JsNumFacts.

Local Open Scope string_scope.
Local Open Scope list_scope.

Section Bounds.

Context `{RT : JsRuntime}.

Lemma parseIntStrict_not_NaN (val : jsval) (def : num) :
  isNaN def = false -> isNaN (parseIntStrict id val def) = false.
Proof.
  intros Hdef. unfold parseIntStrict.
  destruct (is_blank val); [exact Hdef|].
  destruct (isNaN (parseInt10 _)) eqn:E; [exact Hdef | exact E].
Qed.

Lemma parseNum_finite_default (val : jsval) (def : num) :
  isNaN def = false -> isNaN (parseNum val def) = false.
Proof.
  intros Hdef. unfold parseNum.
  destruct (is_blank val); [exact Hdef|].
  destruct (isNaN (parseFloat _)) eqn:E; [exact Hdef | exact E].
Qed.

(** X1. Every field the validator hands over for an accepted row is a
    finite number within its window: the duration in [60, 86400], the
    passenger count in [0, 9], the distance in [0, 500], the fare and the
    total in [0, 10000]; both zone ids are keys of the zone map, and the
    row is carried along unchanged. *)
Theorem isValidTrip_accepted_bounds (zoneMap : zone_map) (r : row) (c : ctx) :
  isValidTrip zoneMap r = Accepted c ->
  (60 <= durationSec c <= 86400)%Z
  /\ (exists n, passengers c = Fin n /\ (0 <= n <= 9)%Q)
  /\ (exists miles, tripDistance c = Fin miles /\ (0 <= miles <= 500)%Q)
  /\ (exists fare, fareAmount c = Fin fare /\ (0 <= fare <= 10000)%Q)
  /\ (exists total, totalAmount c = Fin total /\ (0 <= total <= 10000)%Q)
  /\ (exists zm, zoneMap = Some zm
                 /\ is_Some (zoneMap_get zm (pu c))
                 /\ is_Some (zoneMap_get zm (do c)))
  /\ ctx_row c = r.
Proof.
  unfold isValidTrip.
  destruct zoneMap as [zm|]; [|discriminate].
  destruct (negb (zoneMap_has zm _) || negb (zoneMap_has zm _))%bool eqn:Hz; [discriminate|].
  destruct (parseTimestamp (tpep_pickup_datetime r)) as [p|]; [|discriminate].
  destruct (parseTimestamp (tpep_dropoff_datetime r)) as [d|]; [|discriminate].
  destruct ((round_seconds (d - p) <? 60)%Z || (round_seconds (d - p) >? 86400)%Z)%bool
    eqn:Hd; [discriminate|].
  destruct (JsNum.lt (parseIntStrict id (passenger_count r) _) _ || _)%bool eqn:H0;
    [discriminate|].
  destruct (JsNum.lt (parseNum (trip_distance r) _) _ || _)%bool eqn:H1; [discriminate|].
  destruct (JsNum.lt (parseNum (fare_amount r) _) _ || _)%bool eqn:H2; [discriminate|].
  destruct (JsNum.lt (parseNum (total_amount r) _) _ || _)%bool eqn:H3; [discriminate|].
  intros [= <-]. cbn.
  apply orb_false_iff in Hz as [Hpu Hdo]. apply negb_false_iff in Hpu, Hdo.
  apply orb_false_iff in Hd as [Hlo Hhi].
  apply orb_false_iff in H0 as [H0a H0b], H1 as [H1a H1b], H2 as [H2a H2b], H3 as [H3a H3b].
  split; [lia|].
  split; [apply (between_finite _ 0 9); [apply parseIntStrict_not_NaN; reflexivity|..]; assumption|].
  split; [apply (between_finite _ 0 500); [apply parseNum_finite_default; reflexivity|..]; assumption|].
  split; [apply (between_finite _ 0 10000); [apply parseNum_finite_default; reflexivity|..]; assumption|].
  split; [apply (between_finite _ 0 10000); [apply parseNum_finite_default; reflexivity|..]; assumption|].
  split; [|reflexivity].
  exists zm. split; [reflexivity|].
  unfold zoneMap_has in Hpu, Hdo. apply bool_decide_eq_true in Hpu, Hdo.
  split; assumption.
Qed.

End Bounds.

Lemma isValidTrip_accepted_bounds_scenario :
  (60 <= durationSec good_ctx <= 86400)%Z
  /\ (exists n, passengers good_ctx = Fin n /\ (0 <= n <= 9)%Q)
  /\ (exists miles, tripDistance good_ctx = Fin miles /\ (0 <= miles <= 500)%Q)
  /\ (exists fare, fareAmount good_ctx = Fin fare /\ (0 <= fare <= 10000)%Q)
  /\ (exists total, totalAmount good_ctx = Fin total /\ (0 <= total <= 10000)%Q)
  /\ (exists zm, two_zones = Some zm
                 /\ is_Some (zoneMap_get zm (pu good_ctx))
                 /\ is_Some (zoneMap_get zm (do good_ctx)))
  /\ ctx_row good_ctx = good_row.
Proof.
  apply (isValidTrip_accepted_bounds (RT := RefRuntime.runtime) two_zones good_row good_ctx).
  vm_compute. reflexivity.
Defined.

Section Rates.

Context `{RT : JsRuntime}.

Lemma Qltb_pos_neq (x : Q) : Qltb (inject_Z 0) x = true -> Qeq_bool x 0 = false.
Proof.
  intros H. apply Qltb_lt in H. apply not_true_iff_false. intros E.
  apply Qeq_bool_iff in E. rewrite E in H. discriminate.
Qed.

(** X2. For an accepted row the enricher stores the fare, the distance
    and the total parsed from the row, and with them
    [fare_per_km = fare_amount / distance_km] when
    [distance_km = trip_distance * 1.60934] is positive and 0 otherwise,
    a number that is never NaN and never negative (it has no upper bound:
    the distance of an accepted row has no positive lower bound); and
    [tip_rate = tip_amount / total_amount] when the total is positive and 0
    otherwise, which is never NaN.  The tip itself is not range-checked. *)
Theorem enrich_rates (zoneMap : zone_map) (r : row) (c : ctx) :
  isValidTrip zoneMap r = Accepted c ->
  exists (t : trip) (fare miles total : Q),
    enrich zoneMap r c = Some t
    /\ parseNum (fare_amount r) (of_Z (-1)) = Fin fare
    /\ parseNum (trip_distance r) (of_Z (-1)) = Fin miles
    /\ parseNum (total_amount r) (of_Z (-1)) = Fin total
    /\ t_fare_amount t = Fin fare
    /\ t_trip_distance t = Fin miles
    /\ t_total_amount t = Fin total
    /\ t_tip_amount t = parseNum (tip_amount r) (of_Z 0)
    /\ fare_per_km t
       = (let distance_km := JsNum.mul (Fin miles) MILES_TO_KM in
          if JsNum.gt distance_km (of_Z 0) then JsNum.div (Fin fare) distance_km
          else of_Z 0)
    /\ isNaN (fare_per_km t) = false
    /\ JsNum.lt (fare_per_km t) (of_Z 0) = false
    /\ tip_rate t
       = (if JsNum.gt (Fin total) (of_Z 0) then JsNum.div (t_tip_amount t) (Fin total)
          else of_Z 0)
    /\ isNaN (tip_rate t) = false.
Proof.
  intros Hok.
  destruct (ImportDataProps.isValidTrip_accepted _ _ _ Hok) as (zm & p & d & H).
  destruct H as (-> & _ & _ & _ & _ & _ & _ & Hmiles & Hm & Hfare & Hf & Htotal & Ht).
  unfold out_of_range in Hm, Hf, Ht.
  apply orb_false_iff in Hm as [Hm1 Hm2], Hf as [Hf1 Hf2], Ht as [Ht1 Ht2].
  destruct (between_finite _ 0 500 (eq_trans (f_equal isNaN Hmiles)
              (parseNum_finite_default _ (of_Z (-1)) eq_refl)) Hm1 Hm2) as (miles & Emiles & Hmr).
  destruct (between_finite _ 0 10000 (eq_trans (f_equal isNaN Hfare)
              (parseNum_finite_default _ (of_Z (-1)) eq_refl)) Hf1 Hf2) as (fare & Efare & Hfr).
  destruct (between_finite _ 0 10000 (eq_trans (f_equal isNaN Htotal)
              (parseNum_finite_default _ (of_Z (-1)) eq_refl)) Ht1 Ht2) as (total & Etotal & Htr).
  eexists. exists fare, miles, total.
  unfold enrich. cbn [mbind option_bind].
  split; [reflexivity|].
  split; [rewrite <- Hfare; exact Efare|].
  split; [rewrite <- Hmiles; exact Emiles|].
  split; [rewrite <- Htotal; exact Etotal|].
  cbn [t_fare_amount t_trip_distance t_total_amount t_tip_amount fare_per_km tip_rate].
  rewrite Efare, Emiles, Etotal.
  repeat (split; [reflexivity|]).
  split; [|split; [|split]].
  - unfold MILES_TO_KM, of_Z. cbn [JsNum.mul JsNum.gt JsNum.lt].
    destruct (Qltb (inject_Z 0) (miles * (160934 # 100000))) eqn:Hpos; [|reflexivity].
    cbn [JsNum.div]. rewrite (Qltb_pos_neq _ Hpos). reflexivity.
  - unfold MILES_TO_KM, of_Z. cbn [JsNum.mul JsNum.gt JsNum.lt].
    destruct (Qltb (inject_Z 0) (miles * (160934 # 100000))) eqn:Hpos.
    + cbn [JsNum.div]. rewrite (Qltb_pos_neq _ Hpos). cbn [JsNum.lt].
      apply Qltb_ge. apply Qltb_lt in Hpos. apply Qle_shift_div_l; [exact Hpos|].
      rewrite Qmult_0_l. apply Hfr.
    + reflexivity.
  - reflexivity.
  - unfold of_Z. cbn [JsNum.gt JsNum.lt].
    destruct (Qltb (inject_Z 0) total) eqn:Hpos; [|reflexivity].
    pose proof (parseNum_finite_default (tip_amount r) (Fin (inject_Z 0)) eq_refl) as Htip.
    destruct (parseNum (tip_amount r) (Fin (inject_Z 0))) as [| |tip|]; cbn in Htip |- *;
      try discriminate.
    + destruct (Qltb total 0); reflexivity.
    + rewrite (Qltb_pos_neq _ Hpos). reflexivity.
    + destruct (Qltb total 0); reflexivity.
Qed.

(** X4. The hour the enricher stores lies in 0..23 whatever the pick-up
    value, provided [getHours] of the runtime does: a value of the form
    [YYYY-MM-DD H:] gives its digits modulo 24, a blank or unparseable one
    gives 0. *)
Theorem getHourFromTimestamp_range (val : jsval) :
  (forall d, 0 <= Date_getHours d < 24)%Z ->
  (0 <= getHourFromTimestamp val < 24)%Z.
Proof.
  intros Hrt. unfold getHourFromTimestamp.
  destruct (is_blank val); [lia|].
  destruct (match_hour _) as [h|].
  - apply Z.mod_pos_bound. lia.
  - destruct (Date_new val); [apply Hrt | lia].
Qed.

(** X7. A record of the Parquet file without a pick-up or a drop-off time
    is converted to a row with an empty timestamp, and that row is never
    accepted, whatever the zone map. *)
Theorem parquet_record_without_time_rejected
    (zoneMap : zone_map) (rec rw : row) :
  rowFromParquetRecord rec = Some rw ->
  is_nullish (tpep_pickup_datetime rec) = true
  \/ is_nullish (tpep_dropoff_datetime rec) = true ->
  ok (isValidTrip zoneMap rw) = false.
Proof.
  unfold rowFromParquetRecord. intros Hrow Hnull.
  destruct (if is_nullish (tpep_pickup_datetime rec) then _ else _) as [p|] eqn:Hp;
    [|discriminate].
  cbn [mbind option_bind] in Hrow.
  destruct (if is_nullish (tpep_dropoff_datetime rec) then _ else _) as [d|] eqn:Hd;
    [|discriminate].
  cbn [mbind option_bind] in Hrow. injection Hrow as <-.
  unfold isValidTrip. cbn [tpep_pickup_datetime tpep_dropoff_datetime PULocationID
                           DOLocationID].
  destruct zoneMap as [zm|]; [|reflexivity].
  destruct (negb _ || negb _)%bool; [reflexivity|].
  destruct Hnull as [Hn|Hn]; rewrite Hn in *.
  - injection Hp as <-. reflexivity.
  - injection Hd as <-. cbn. destruct (parseTimestamp p); reflexivity.
Qed.

End Rates.

Lemma enrich_rates_scenario :
  exists (t : trip) (fare miles total : Q),
    enrich (RT := RefRuntime.runtime) two_zones good_row good_ctx = Some t
    /\ parseNum (RT := RefRuntime.runtime) (fare_amount good_row) (of_Z (-1)) = Fin fare
    /\ parseNum (RT := RefRuntime.runtime) (trip_distance good_row) (of_Z (-1)) = Fin miles
    /\ parseNum (RT := RefRuntime.runtime) (total_amount good_row) (of_Z (-1)) = Fin total
    /\ t_fare_amount t = Fin fare
    /\ t_trip_distance t = Fin miles
    /\ t_total_amount t = Fin total
    /\ t_tip_amount t = parseNum (RT := RefRuntime.runtime) (tip_amount good_row) (of_Z 0)
    /\ fare_per_km t
       = (let distance_km := JsNum.mul (Fin miles) MILES_TO_KM in
          if JsNum.gt distance_km (of_Z 0) then JsNum.div (Fin fare) distance_km
          else of_Z 0)
    /\ isNaN (fare_per_km t) = false
    /\ JsNum.lt (fare_per_km t) (of_Z 0) = false
    /\ tip_rate t
       = (if JsNum.gt (Fin total) (of_Z 0) then JsNum.div (t_tip_amount t) (Fin total)
          else of_Z 0)
    /\ isNaN (tip_rate t) = false.
Proof.
  apply (enrich_rates (RT := RefRuntime.runtime) two_zones good_row good_ctx).
  vm_compute. reflexivity.
Defined.

Lemma getHourFromTimestamp_range_scenario :
  (0 <= getHourFromTimestamp (RT := RefRuntime.runtime) (VStr "2024-01-01 31:15:00") < 24)%Z.
Proof.
  apply (getHourFromTimestamp_range (RT := RefRuntime.runtime)).
  intros d. apply Z.mod_pos_bound. reflexivity.
Defined.

Lemma parquet_record_without_time_scenario :
  ok (isValidTrip (RT := RefRuntime.runtime) two_zones
        {| VendorID := VNum (Fin 1);
           tpep_pickup_datetime := VStr "";
           tpep_dropoff_datetime := VStr "2024-01-01 08:20:00";
           passenger_count := VNum (Fin 1);
           trip_distance := VNum (Fin 5);
           RatecodeID := VNull;
           store_and_fwd_flag := VStr "";
           PULocationID := VNum (Fin 1);
           DOLocationID := VNum (Fin 2);
           payment_type := VNull;
           fare_amount := VNum (Fin 20);
           extra := VNull;
           mta_tax := VNull;
           tip_amount := VNum (Fin 5);
           tolls_amount := VNull;
           improvement_surcharge := VNull;
           total_amount := VNum (Fin 25);
           congestion_surcharge := VNull |})
  = false.
Proof.
  apply (parquet_record_without_time_rejected (RT := RefRuntime.runtime) two_zones
           {| VendorID := VNum (Fin 1);
              tpep_pickup_datetime := VNull;
              tpep_dropoff_datetime := VNum (Fin 1704097200000);
              passenger_count := VNum (Fin 1);
              trip_distance := VNum (Fin 5);
              RatecodeID := VNull;
              store_and_fwd_flag := VNull;
              PULocationID := VNum (Fin 1);
              DOLocationID := VNum (Fin 2);
              payment_type := VNull;
              fare_amount := VNum (Fin 20);
              extra := VNull;
              mta_tax := VNull;
              tip_amount := VNum (Fin 5);
              tolls_amount := VNull;
              improvement_surcharge := VNull;
              total_amount := VNum (Fin 25);
              congestion_surcharge := VNull |}).
  - vm_compute. reflexivity.
  - left. reflexivity.
Defined.

(** X3. The zone map built from the records of the [zones] table answers
    a location id with the zone of the last record that carries it, and with
    nothing when no record does. *)
Theorem loadZoneMap_lookup (rows : list zone_record) (k : Z) :
  loadZoneMap rows !! k
  = zr_zone <$> last (filter (fun r => zr_location_id r = k) rows).
Proof.
  induction rows as [|r rows IH] using rev_ind; [reflexivity|].
  unfold loadZoneMap in *. rewrite fold_left_app. cbn [fold_left].
  rewrite lookup_insert, filter_app, last_app, filter_cons, filter_nil.
  destruct (decide (zr_location_id r = k)) as [E|E]; [reflexivity|].
  cbn. destruct (last (filter _ rows)); exact IH.
Qed.

Section Journal.

Context `{RT : JsRuntime}.

Lemma BATCH_SIZE_pos : (1 < BATCH_SIZE)%nat.
Proof. unfold BATCH_SIZE. lia. Qed.

Lemma enriched_one (zoneMap : zone_map) (rw : row) :
  enriched zoneMap [rw]
  = match trip_of zoneMap rw with Some t => [t] | None => [] end.
Proof. reflexivity. Qed.

Lemma consume_batch (zoneMap : zone_map) (rw : row) (st st' : run) :
  consume zoneMap rw st = Some st' ->
  batch st' = batch st ++ enriched zoneMap [rw]
  /\ (ok (isValidTrip zoneMap rw) = false -> batch st' = batch st).
Proof.
  rewrite enriched_one. unfold consume, trip_of.
  destruct (isValidTrip zoneMap rw) as [why|c]; cbn.
  - intros [= <-]. cbn. rewrite app_nil_r. split; [reflexivity | trivial].
  - destruct (enrich zoneMap rw c) as [t|]; [|discriminate]. cbn.
    intros [= <-]. cbn. split; [reflexivity | discriminate].
Qed.

(** The invariant of the loop: the batches sent are full, the current one
    is not, and together they are the trips seen so far. *)
Lemma parquet_loop_journal (zoneMap : zone_map) (records : list row) :
  forall (st st' : run) (db db' : journal),
    parquet_loop journal journal_insert zoneMap records st db = Some (st', db') ->
    (length (batch st) < BATCH_SIZE)%nat ->
    Forall (fun b => length b = BATCH_SIZE) db ->
    exists rows,
      mapM rowFromParquetRecord records = Some rows
      /\ concat db' ++ batch st' = concat db ++ batch st ++ enriched zoneMap rows
      /\ (length (batch st') < BATCH_SIZE)%nat
      /\ Forall (fun b => length b = BATCH_SIZE) db'.
Proof.
  induction records as [|rec rest IH]; intros st st' db db' Hloop Hlen Hfull.
  - cbn in Hloop. injection Hloop as <- <-. exists []. cbn.
    rewrite app_nil_r. repeat split; assumption.
  - cbn [parquet_loop] in Hloop.
    destruct (rowFromParquetRecord rec) as [rw|] eqn:Hrw; [|discriminate].
    cbn [mbind option_bind] in Hloop.
    destruct (consume zoneMap rw st) as [st1|] eqn:Hst1; [|discriminate].
    cbn [mbind option_bind] in Hloop.
    destruct (consume_batch _ _ _ _ Hst1) as [Hb Hrej].
    assert (Hlen1 : (length (batch st1) <= BATCH_SIZE)%nat).
    { rewrite Hb, length_app, enriched_one.
      destruct (trip_of zoneMap rw); cbn; lia. }
    assert (Hdone : forall st2 db2 rows,
               parquet_loop journal journal_insert zoneMap rest st2 db2 = Some (st', db') ->
               mapM rowFromParquetRecord rest = Some rows ->
               concat db' ++ batch st' = concat db2 ++ batch st2 ++ enriched zoneMap rows ->
               concat db2 ++ batch st2 = concat db ++ batch st1 ->
               mapM rowFromParquetRecord (rec :: rest) = Some (rw :: rows)
               /\ concat db' ++ batch st'
                  = concat db ++ batch st ++ enriched zoneMap (rw :: rows)).
    { intros st2 db2 rows _ Hrows Hcat Hsame. split.
      - apply mapM_Some. constructor; [exact Hrw|]. apply mapM_Some. exact Hrows.
      - rewrite Hcat, app_assoc, Hsame, Hb.
        change (rw :: rows) with ([rw] ++ rows). unfold enriched.
        rewrite omap_app, <- !app_assoc. reflexivity. }
    destruct (ok (isValidTrip zoneMap rw) && (BATCH_SIZE <=? length (batch st1))%nat)%bool
      eqn:Hflush.
    + apply andb_true_iff in Hflush as [_ Hge]. apply Nat.leb_le in Hge.
      assert (Hfulllen : length (batch st1) = BATCH_SIZE) by lia.
      assert (Hins : insertBatch journal journal_insert db (batch st1)
                     = Some (db ++ [batch st1])).
      { unfold insertBatch, journal_insert. destruct (batch st1); [|reflexivity].
        cbn in Hfulllen. pose proof BATCH_SIZE_pos. lia. }
      rewrite Hins in Hloop. cbn [mbind option_bind] in Hloop.
      destruct (IH _ _ _ _ Hloop) as (rows & Hrows & Hcat & Hlen' & Hfull').
      * cbn. pose proof BATCH_SIZE_pos. lia.
      * apply Forall_app. split; [exact Hfull|]. constructor; [exact Hfulllen|constructor].
      * exists (rw :: rows).
        destruct (Hdone _ _ rows Hloop Hrows Hcat) as [H1 H2].
        { cbn. rewrite concat_app. cbn. rewrite !app_nil_r. reflexivity. }
        repeat split; assumption.
    + assert (Hlt : (length (batch st1) < BATCH_SIZE)%nat).
      { apply andb_false_iff in Hflush as [Hrejd|Hlt].
        - rewrite (Hrej Hrejd). exact Hlen.
        - apply Nat.leb_gt in Hlt. exact Hlt. }
      destruct (IH _ _ _ _ Hloop Hlt Hfull) as (rows & Hrows & Hcat & Hlen' & Hfull').
      exists (rw :: rows).
      destruct (Hdone _ _ rows Hloop Hrows Hcat eq_refl) as [H1 H2].
      repeat split; assumption.
Qed.

(** X5. What a completed Parquet ingestion has sent to the store, seen
    through a store that keeps every statement: the statements carry, in
    order and once each, exactly the trips of the accepted rows; none is
    empty, none holds more than [BATCH_SIZE] trips, and all but the last
    hold exactly [BATCH_SIZE]. *)
Theorem importFromParquet_batches (zoneMap : zone_map) (records : list row)
    (s : stats) (db : journal) :
  importFromParquet journal journal_insert zoneMap records [] = Some (s, db) ->
  exists rows,
    mapM rowFromParquetRecord records = Some rows
    /\ concat db = enriched zoneMap rows
    /\ full_but_last db
    /\ Forall (fun b => (0 < length b <= BATCH_SIZE)%nat) db.
Proof.
  unfold importFromParquet. intros Hrun.
  destruct (parquet_loop journal journal_insert zoneMap records run0 [])
    as [[st db1]|] eqn:Hloop; [|discriminate].
  cbn [mbind option_bind] in Hrun.
  destruct (parquet_loop_journal _ _ _ _ _ _ Hloop) as (rows & Hrows & Hcat & Hlen & Hfull).
  { cbn. pose proof BATCH_SIZE_pos. lia. }
  { constructor. }
  cbn in Hcat. exists rows. split; [exact Hrows|].
  assert (Hbound : Forall (fun b => (0 < length b <= BATCH_SIZE)%nat) db1).
  { eapply Forall_impl; [exact Hfull|]. cbn. intros b ->. pose proof BATCH_SIZE_pos. lia. }
  destruct (0 <? length (batch st))%nat eqn:Hlast.
  - apply Nat.ltb_lt in Hlast.
    assert (Hins : insertBatch journal journal_insert db1 (batch st)
                   = Some (db1 ++ [batch st])).
    { unfold insertBatch, journal_insert. destruct (batch st); [cbn in Hlast; lia|reflexivity]. }
    rewrite Hins in Hrun. cbn in Hrun. injection Hrun as _ <-.
    split; [|split].
    + rewrite concat_app. cbn. rewrite app_nil_r. exact Hcat.
    + intros i b Hi Hlt. rewrite length_app in Hlt. cbn in Hlt.
      rewrite lookup_app_l in Hi by lia.
      apply (proj1 (Forall_lookup _ _) Hfull i b Hi).
    + apply Forall_app. split; [exact Hbound|]. constructor; [lia|constructor].
  - apply Nat.ltb_ge in Hlast. cbn in Hrun. injection Hrun as _ <-.
    assert (Hnil : batch st = []) by (destruct (batch st); [reflexivity | cbn in Hlast; lia]).
    rewrite Hnil, app_nil_r in Hcat.
    split; [exact Hcat|]. split; [|exact Hbound].
    intros i b Hi _. apply (proj1 (Forall_lookup _ _) Hfull i b Hi).
Qed.

Lemma consume_log (zoneMap : zone_map) (rw : row) (st st' : run) :
  consume zoneMap rw st = Some st' ->
  length (exclusion_log st) = Nat.min (invalid (counters st)) 5000 ->
  length (exclusion_log st') = Nat.min (invalid (counters st')) 5000.
Proof.
  unfold consume. destruct (isValidTrip zoneMap rw) as [why|c].
  - pose proof (Nat.leb_spec (S (invalid (counters st))) 5000) as Hcap. revert Hcap.
    generalize ((S (invalid (counters st)) <=? 5000)%nat) as b.
    generalize 5000%nat as cap. intros cap b Hcap [= <-] Hlog.
    cbn [exclusion_log counters invalid].
    destruct Hcap; cbn [length]; lia.
  - destruct (enrich zoneMap rw c); [|discriminate]. cbn [mbind option_bind].
    intros [= <-] Hlog. exact Hlog.
Qed.

(** X8. The exclusion log is capped: whatever the rows handled so far, by
    either loop, it holds one line per rejected row up to 5000 lines, and
    not one more while rejections keep being counted. *)
Theorem exclusion_log_capped (zoneMap : zone_map) (st : run) :
  reached zoneMap st ->
  length (exclusion_log st) = Nat.min (invalid (counters st)) 5000.
Proof.
  intros [(store & ins & records & db & db' & Hloop) | (es & cs & Hev & <-)].
  - assert (Hstart : length (exclusion_log run0) = Nat.min (invalid (counters run0)) 5000)
      by reflexivity.
    revert Hstart Hloop. generalize run0 as st0. revert db.
    induction records as [|rec rest IH]; intros db st0 Hstart Hloop.
    + cbn in Hloop. injection Hloop as <- _. exact Hstart.
    + cbn [parquet_loop] in Hloop.
      destruct (rowFromParquetRecord rec) as [rw|]; [|discriminate].
      cbn [mbind option_bind] in Hloop.
      destruct (consume zoneMap rw st0) as [st1|] eqn:Hst1; [|discriminate].
      cbn [mbind option_bind] in Hloop.
      pose proof (consume_log _ _ _ _ Hst1 Hstart) as Hlog1.
      destruct (ok _ && _)%bool.
      * destruct (insertBatch store ins db (batch st1)); [|discriminate].
        cbn [mbind option_bind] in Hloop. eapply IH; [|exact Hloop]. exact Hlog1.
      * eapply IH; [|exact Hloop]. exact Hlog1.
  - assert (Hstart : length (exclusion_log (vars csv0))
                     = Nat.min (invalid (counters (vars csv0))) 5000) by reflexivity.
    revert Hstart Hev. generalize csv0 as st0.
    induction es as [|e es IH]; intros st0 Hstart Hev.
    + cbn in Hev. injection Hev as <-. exact Hstart.
    + cbn [csv_events] in Hev.
      destruct (csv_step zoneMap st0 e) as [st1|] eqn:Hstep; [|discriminate].
      cbn [mbind option_bind] in Hev. apply (IH st1); [|exact Hev].
      destruct e as [rw|]; cbn [csv_step] in Hstep.
      * destruct (consume zoneMap rw (vars st0)) as [v|] eqn:Hv; [|discriminate].
        cbn [mbind option_bind] in Hstep.
        pose proof (consume_log _ _ _ _ Hv Hstart) as Hlog.
        destruct (ok _ && _)%bool; injection Hstep as <-; exact Hlog.
      * destruct (suspended st0); [discriminate|]. injection Hstep as <-. exact Hstart.
Qed.

Lemma consume_accepted (zoneMap : zone_map) (rw : row) (t : trip) (st : run) :
  trip_of zoneMap rw = Some t ->
  ok (isValidTrip zoneMap rw) = true
  /\ consume zoneMap rw st
     = Some {| counters := more_valid 1 (counters st);
               batch := batch st ++ [t];
               exclusion_log := exclusion_log st |}.
Proof.
  unfold trip_of, consume. destruct (isValidTrip zoneMap rw) as [why|c]; [discriminate|].
  intros ->. split; reflexivity.
Qed.

Lemma csv_events_app (zoneMap : zone_map) (es1 es2 : list csv_event) :
  forall st,
    csv_events zoneMap (es1 ++ es2) st
    = csv_events zoneMap es1 st ≫= csv_events zoneMap es2.
Proof.
  induction es1 as [|e es1 IH]; intros st; [reflexivity|].
  cbn [app csv_events]. destruct (csv_step zoneMap st e); [|reflexivity].
  cbn [mbind option_bind]. apply IH.
Qed.

(** Accepted rows that do not fill the batch only accumulate in it. *)
Lemma csv_events_accumulate (zoneMap : zone_map) (rows : list row) (ts : list trip) :
  Forall2 (fun r t => trip_of zoneMap r = Some t) rows ts ->
  forall (c : stats) (b : list trip) (l : list (reason * row)) (k : nat)
         (q : list (list trip)),
    (length b + length rows < BATCH_SIZE)%nat ->
    csv_events zoneMap (map Data rows)
      {| vars := {| counters := c; batch := b; exclusion_log := l |};
         suspended := k; sent := q |}
    = Some {| vars := {| counters := more_valid (length rows) c;
                         batch := b ++ ts; exclusion_log := l |};
              suspended := k; sent := q |}.
Proof.
  induction 1 as [|r t rows ts Hr _ IH]; intros c b l k q Hlen.
  - cbn. rewrite app_nil_r. destruct c. reflexivity.
  - cbn [map csv_events csv_step vars].
    destruct (consume_accepted zoneMap r t
                {| counters := c; batch := b; exclusion_log := l |} Hr) as [Hok ->].
    cbn [mbind option_bind batch counters exclusion_log]. rewrite Hok. cbn [andb].
    replace (BATCH_SIZE <=? length (b ++ [t]))%nat with false.
    2:{ symmetry. apply Nat.leb_gt. rewrite length_app. cbn [length] in *. lia. }
    cbn [suspended sent mbind option_bind]. rewrite IH.
    2:{ rewrite length_app. cbn [length] in *. lia. }
    rewrite <- app_assoc. cbn [app]. do 3 f_equal.
    destruct c. unfold more_valid. cbn [processed valid invalid length].
    f_equal; lia.
Qed.

(** X6. The CSV loop can lose an accepted row and send others twice.  Let
    the first [BATCH_SIZE] accepted rows fill the batch, so that the handler
    of the last of them sends it and is suspended; let one more accepted row
    arrive before it resumes, a second one after it has resumed, and let the
    handler of the former resume last.  The run then reports
    [BATCH_SIZE + 2] valid rows, but exactly two statements have been sent:
    the first [BATCH_SIZE] trips, and these again with the next one.  The
    trip of the last row is in neither. *)
Theorem importFromCsv_loses_a_row (zoneMap : zone_map)
    (rows : list row) (ts : list trip) (rw0 rw1 rw2 : row) (t0 t1 t2 : trip) :
  Forall2 (fun r t => trip_of zoneMap r = Some t) rows ts ->
  S (length rows) = BATCH_SIZE ->
  trip_of zoneMap rw0 = Some t0 ->
  trip_of zoneMap rw1 = Some t1 ->
  trip_of zoneMap rw2 = Some t2 ->
  importFromCsv zoneMap
    (map Data rows ++ [Data rw0; Data rw1; Resume; Data rw2; Resume])
  = Some ({| processed := BATCH_SIZE + 2; valid := BATCH_SIZE + 2; invalid := 0 |},
          [ts ++ [t0]; (ts ++ [t0]) ++ [t1]]).
Proof.
  intros Hrows Hlen H0 H1 H2.
  pose proof (Forall2_length _ _ _ Hrows) as Hts.
  pose proof BATCH_SIZE_pos as Hpos.
  unfold importFromCsv. rewrite csv_events_app. unfold csv0, run0.
  rewrite (csv_events_accumulate _ _ _ Hrows) by (cbn [length]; lia).
  cbn [mbind option_bind app].
  (* the row that fills the batch *)
  cbn [csv_events csv_step vars].
  destruct (consume_accepted zoneMap rw0 t0
              {| counters := more_valid (length rows)
                               {| processed := 0; valid := 0; invalid := 0 |};
                 batch := ts; exclusion_log := [] |} H0) as [Hok0 ->].
  cbn [mbind option_bind batch counters exclusion_log]. rewrite Hok0. cbn [andb].
  replace (BATCH_SIZE <=? length (ts ++ [t0]))%nat with true.
  2:{ symmetry. apply Nat.leb_le. rewrite length_app. cbn [length]. lia. }
  cbn [suspended sent vars app mbind option_bind csv_events csv_step].
  (* one more row while the handler is suspended *)
  match goal with
  | |- context [consume zoneMap rw1 ?st] =>
      destruct (consume_accepted zoneMap rw1 t1 st H1) as [Hok1 ->]
  end.
  cbn [mbind option_bind batch counters exclusion_log]. rewrite Hok1. cbn [andb].
  replace (BATCH_SIZE <=? length ((ts ++ [t0]) ++ [t1]))%nat with true.
  2:{ symmetry. apply Nat.leb_le. rewrite !length_app. cbn [length]. lia. }
  cbn [suspended sent vars app counters exclusion_log mbind option_bind csv_events csv_step].
  (* the first handler resumes, then the last row arrives *)
  match goal with
  | |- context [consume zoneMap rw2 ?st] =>
      destruct (consume_accepted zoneMap rw2 t2 st H2) as [Hok2 ->]
  end.
  cbn [mbind option_bind batch counters exclusion_log]. rewrite Hok2. cbn [andb app length].
  replace (BATCH_SIZE <=? 1)%nat with false by (symmetry; apply Nat.leb_gt; lia).
  cbn [suspended sent vars counters batch length Nat.ltb Nat.leb mbind option_bind
       csv_events csv_step exclusion_log].
  do 2 f_equal. unfold more_valid. cbn [processed valid invalid]. f_equal; lia.
Qed.

End Journal.

Import MoreScenarios.

Lemma importFromParquet_batches_scenario :
  exists s db rows,
    parquet_outcome = Some (s, db)
    /\ mapM (rowFromParquetRecord (RT := RefRuntime.runtime)) parquet_records = Some rows
    /\ concat db = enriched (RT := RefRuntime.runtime) two_zones rows
    /\ full_but_last db
    /\ Forall (fun b => (0 < length b <= BATCH_SIZE)%nat) db.
Proof.
  eexists. eexists.
  refine ((fun H => match H with ex_intro _ rows P => ex_intro _ rows (conj eq_refl P) end)
            (importFromParquet_batches (RT := RefRuntime.runtime) two_zones
               parquet_records _ _ _)).
  vm_compute. reflexivity.
Defined.

Lemma exclusion_log_capped_scenario :
  exists cs,
    csv_outcome = Some cs
    /\ length (exclusion_log (vars cs)) = Nat.min (invalid (counters (vars cs))) 5000.
Proof.
  eexists. split; [reflexivity|].
  apply (exclusion_log_capped (RT := RefRuntime.runtime) two_zones).
  right. exists [Data short_row; Data good_row]. eexists.
  split; [vm_compute; reflexivity | reflexivity].
Defined.

Lemma importFromCsv_loses_a_row_scenario :
  exists t,
    trip_of (RT := RefRuntime.runtime) two_zones good_row = Some t
    /\ importFromCsv (RT := RefRuntime.runtime) two_zones
         (map Data (replicate 1999 good_row)
          ++ [Data good_row; Data good_row; Resume; Data good_row; Resume])
       = Some ({| processed := BATCH_SIZE + 2; valid := BATCH_SIZE + 2; invalid := 0 |},
               [replicate 1999 t ++ [t]; (replicate 1999 t ++ [t]) ++ [t]]).
Proof.
  eexists. split; [vm_compute; reflexivity|].
  eapply (importFromCsv_loses_a_row (RT := RefRuntime.runtime) two_zones).
  - apply Forall2_replicate. vm_compute. reflexivity.
  - rewrite length_replicate. reflexivity.
  - vm_compute. reflexivity.
  - vm_compute. reflexivity.
  - vm_compute. reflexivity.
Defined.

(** *** Referential integrity *)

Lemma loadZoneMap_key (rows : list zone_record) (k : Z) :
  is_Some (loadZoneMap rows !! k) -> In k (map zr_location_id rows).
Proof.
  unfold loadZoneMap.
  assert (H : forall m : gmap Z zone,
             is_Some (fold_left (fun m r => <[zr_location_id r := zr_zone r]> m) rows m !! k) ->
             is_Some (m !! k) \/ In k (map zr_location_id rows)).
  { induction rows as [|r rows IH]; intros m; cbn [fold_left map]; [auto|].
    intros Hk. destruct (IH _ Hk) as [Hm|Hin]; [|right; right; exact Hin].
    destruct (decide (zr_location_id r = k)) as [<-|Hne].
    - right. left. reflexivity.
    - rewrite lookup_insert_ne in Hm by exact Hne. left. exact Hm. }
  intros Hk. destruct (H ∅ Hk) as [Hm|Hin]; [|exact Hin].
  rewrite lookup_empty in Hm. destruct Hm as [z Hz]. discriminate.
Qed.

Section Integrity.

Context `{RT : JsRuntime}.

Variable zone_records : list zone_record.

Lemma zoneMap_has_key (n : num) :
  zoneMap_has (loadZoneMap zone_records) n = true ->
  exists k, JsNum.to_Z n = Some k /\ In k (map zr_location_id zone_records).
Proof.
  unfold zoneMap_has, zoneMap_get. intros H. apply bool_decide_eq_true in H.
  destruct (JsNum.to_Z n) as [k|]; cbn in H; [|destruct H; discriminate].
  exists k. split; [reflexivity|]. apply loadZoneMap_key, H.
Qed.

Lemma trip_of_refers (rw : row) (tr : trip) :
  trip_of (Some (loadZoneMap zone_records)) rw = Some tr -> refers_to (map zr_location_id zone_records) tr.
Proof.
  unfold trip_of. destruct (isValidTrip (Some (loadZoneMap zone_records)) rw) as [why|c] eqn:Hv; [discriminate|].
  apply ImportDataProps.isValidTrip_accepted in Hv as (zm & p & d & Hzm & Hpu & Hdo & _).
  injection Hzm as <-. unfold enrich. cbn [mbind option_bind].
  intros [= <-]. cbn [pu_location_id do_location_id].
  split; apply zoneMap_has_key; assumption.
Qed.

Lemma enriched_refer (rows : list row) :
  Forall (refers_to (map zr_location_id zone_records)) (enriched (Some (loadZoneMap zone_records)) rows).
Proof.
  induction rows as [|rw rows IH]; [constructor|].
  unfold enriched. cbn [omap list_omap].
  destruct (trip_of (Some (loadZoneMap zone_records)) rw) as [tr|] eqn:E; [|exact IH].
  constructor; [exact (trip_of_refers rw tr E) | exact IH].
Qed.

Lemma csv_events_refer (es : list csv_event) :
  forall st st',
    csv_events (Some (loadZoneMap zone_records)) es st = Some st' ->
    Forall (refers_to (map zr_location_id zone_records)) (batch (vars st)) ->
    Forall (Forall (refers_to (map zr_location_id zone_records))) (sent st) ->
    Forall (refers_to (map zr_location_id zone_records)) (batch (vars st'))
    /\ Forall (Forall (refers_to (map zr_location_id zone_records))) (sent st').
Proof.
  induction es as [|e es IH]; intros st st'; cbn [csv_events].
  - intros [= <-]. auto.
  - destruct (csv_step (Some (loadZoneMap zone_records)) st e) as [st1|] eqn:Hstep; [|discriminate].
    cbn [mbind option_bind]. intros Hrest Hb Hs.
    apply (IH st1 st' Hrest).
    + destruct e as [rw|]; cbn [csv_step] in Hstep.
      * destruct (consume (Some (loadZoneMap zone_records)) rw (vars st)) as [v|] eqn:Hc; [|discriminate].
        cbn [mbind option_bind] in Hstep.
        apply consume_batch in Hc as [Hc _].
        assert (Hv : Forall (refers_to (map zr_location_id zone_records)) (batch v)).
        { rewrite Hc. apply Forall_app. split; [exact Hb | apply enriched_refer]. }
        destruct (_ && _)%bool; injection Hstep as <-; exact Hv.
      * destruct (suspended st); [discriminate|]. injection Hstep as <-. constructor.
    + destruct e as [rw|]; cbn [csv_step] in Hstep.
      * destruct (consume (Some (loadZoneMap zone_records)) rw (vars st)) as [v|] eqn:Hc; [|discriminate].
        cbn [mbind option_bind] in Hstep.
        apply consume_batch in Hc as [Hc _].
        assert (Hv : Forall (refers_to (map zr_location_id zone_records)) (batch v)).
        { rewrite Hc. apply Forall_app. split; [exact Hb | apply enriched_refer]. }
        destruct (_ && _)%bool; injection Hstep as <-; cbn [sent]; [|exact Hs].
        apply Forall_app. split; [exact Hs | constructor; [exact Hv | constructor]].
      * destruct (suspended st); [discriminate|]. injection Hstep as <-. exact Hs.
Qed.

(** X22. The importer keeps the foreign keys of [trips]: with the zone
    map loaded from the records of the [zones] table, every trip of every
    statement it sends to the store, on the Parquet path and on the CSV
    path whatever the interleaving of its handlers, has a pick-up and a
    drop-off zone id that is an integer key of that table. *)
Theorem stored_trips_refer_to_zones :
  (forall (records : list row) (s : stats) (db : journal),
      importFromParquet journal journal_insert (Some (loadZoneMap zone_records)) records [] = Some (s, db) ->
      Forall (Forall (refers_to (map zr_location_id zone_records))) db)
  /\ (forall (es : list csv_event) (s : stats) (sent : list (list trip)),
        importFromCsv (Some (loadZoneMap zone_records)) es = Some (s, sent) ->
        Forall (Forall (refers_to (map zr_location_id zone_records))) sent).
Proof.
  split.
  - intros records s db. unfold importFromParquet. intros Hrun.
    destruct (parquet_loop journal journal_insert (Some (loadZoneMap zone_records)) records run0 [])
      as [[st db1]|] eqn:Hloop; [|discriminate].
    cbn [mbind option_bind] in Hrun.
    destruct (parquet_loop_journal _ _ _ _ _ _ Hloop) as (rows & _ & Hcat & _ & _).
    { cbn. pose proof BATCH_SIZE_pos. lia. }
    { constructor. }
    cbn in Hcat.
    pose proof (enriched_refer rows) as Hall. rewrite <- Hcat in Hall.
    apply Forall_app in Hall as [Hdb Hlast]. apply Forall_concat in Hdb.
    destruct (0 <? length (batch st))%nat.
    + unfold insertBatch, journal_insert in Hrun.
      destruct (batch st) as [|tr b] eqn:Eb.
      * cbn in Hrun. injection Hrun as _ <-. exact Hdb.
      * cbn in Hrun. injection Hrun as _ <-.
        apply Forall_app. split; [exact Hdb | constructor; [exact Hlast | constructor]].
    + cbn in Hrun. injection Hrun as _ <-. exact Hdb.
  - intros es s sent0. unfold importFromCsv. intros Hrun.
    destruct (csv_events (Some (loadZoneMap zone_records)) es csv0) as [st|] eqn:Hev; [|discriminate].
    cbn [mbind option_bind] in Hrun. injection Hrun as _ <-.
    destruct (csv_events_refer es csv0 st Hev) as [Hb Hs]; [constructor | constructor |].
    destruct (0 <? length (batch (vars st)))%nat; [|exact Hs].
    apply Forall_app. split; [exact Hs | constructor; [exact Hb | constructor]].
Qed.

End Integrity.

Lemma stored_trips_refer_to_zones_scenario :
  exists s db,
    parquet_outcome = Some (s, db)
    /\ db <> []
    /\ Forall (Forall (refers_to [1; 2]%Z)) db.
Proof.
  eexists. eexists. split; [reflexivity|]. split; [discriminate|].
  eapply (proj1 (stored_trips_refer_to_zones (RT := RefRuntime.runtime) two_zone_records)
            parquet_records).
  vm_compute. reflexivity.
Defined.

(** *** The statement of a batch *)

Lemma placeholders_from (batch : list trip) :
  forall n : nat,
    concat (imap (fun i _ => InsertStatement.row_placeholders (Z.of_nat (n + i))) batch)
    = map Z.of_nat (seq (S (28 * n)) (28 * length batch)).
Proof.
  induction batch as [|tr batch IH]; intros n.
  - reflexivity.
  - cbn [imap concat length].
    replace (28 * S (length batch))%nat with (28 + 28 * length batch)%nat by lia.
    rewrite seq_app, map_app. f_equal.
    + rewrite Nat.add_0_r. unfold InsertStatement.row_placeholders.
      cbn [seq map]. repeat (apply (f_equal2 cons); [lia|]). reflexivity.
    + replace (S (28 * n) + 28)%nat with (S (28 * S n)) by lia.
      rewrite <- (IH (S n)).
      f_equal. apply imap_ext. intros i x _. unfold compose. do 2 f_equal. lia.
Qed.

Lemma row_values_length (tr : trip) : length (InsertStatement.row_values tr) = 28%nat.
Proof. reflexivity. Qed.

Lemma values_length (batch : list trip) :
  length (InsertStatement.values batch) = (28 * length batch)%nat.
Proof.
  unfold InsertStatement.values.
  induction batch as [|tr batch IH]; [reflexivity|].
  cbn [flat_map]. rewrite length_app, IH, row_values_length. cbn [length]. lia.
Qed.

(** X23. The statement [insertBatch] sends for a batch of [n] trips is
    well formed whatever [n] is: it has [28 * n] values and its groups of
    placeholders are, read in order, [$1], [$2], ... up to [$(28 * n)],
    each once; and the [j]-th value of the [i]-th trip is the one bound to
    the [j]-th placeholder of the [i]-th group. *)
Theorem insertBatch_statement (batch : list trip) :
  length (InsertStatement.values batch) = (28 * length batch)%nat
  /\ concat (InsertStatement.placeholders batch)
     = Server.numbered (length (InsertStatement.values batch))
  /\ (forall (i j : nat) (tr : trip) (v : InsertStatement.sqlval),
        batch !! i = Some tr ->
        InsertStatement.row_values tr !! j = Some v ->
        exists ph,
          InsertStatement.row_placeholders (Z.of_nat i) !! j = Some ph
          /\ (1 <= ph)%Z
          /\ InsertStatement.values batch !! Z.to_nat (ph - 1) = Some v).
Proof.
  split; [apply values_length|]. split.
  - rewrite values_length. unfold InsertStatement.placeholders, Server.numbered.
    exact (placeholders_from batch 0).
  - intros i j tr v Hi Hj.
    assert (Hj28 : (j < 28)%nat).
    { apply lookup_lt_Some in Hj. rewrite row_values_length in Hj. exact Hj. }
    assert (Hph : InsertStatement.row_placeholders (Z.of_nat i) !! j
                  = Some (Z.of_nat i * 28 + Z.of_nat j + 1)%Z).
    { unfold InsertStatement.row_placeholders.
      do 28 (destruct j as [|j]; [cbn; f_equal; lia|]). lia. }
    eexists. split; [exact Hph|]. split; [lia|].
    replace (Z.to_nat (Z.of_nat i * 28 + Z.of_nat j + 1 - 1)) with (28 * i + j)%nat by lia.
    clear Hph. revert i Hi. unfold InsertStatement.values.
    induction batch as [|tr0 batch IH]; intros i Hi; [discriminate|].
    cbn [flat_map]. destruct i as [|i].
    + injection Hi as ->. rewrite Nat.mul_0_r, Nat.add_0_l.
      rewrite lookup_app_l by (rewrite row_values_length; exact Hj28). exact Hj.
    + rewrite lookup_app_r by (rewrite row_values_length; lia).
      rewrite row_values_length.
      replace (28 * S i + j - 28)%nat with (28 * i + j)%nat by lia.
      apply IH. exact Hi.
Qed.

End ImportDataFurther.


(** ** The zone store loader and the centroids, further *)

Module ImportZonesFurther.

Import ImportZones Backfill ImportZonesProps JsNumFacts.

Local Open Scope list_scope.

Lemma update_row_other (q : statement) (r : zones_row) :
  location_id r <> q_key q -> update_row q r = r.
Proof.
  intros H. unfold update_row. apply Z.eqb_neq in H. rewrite H. reflexivity.
Qed.

Lemma update_row_no_centroid (q : statement) (r : zones_row) :
  no_centroid r -> no_centroid (update_row q r).
Proof. unfold update_row. destruct (_ =? _)%Z; trivial. Qed.

Lemma update_row_same_centroid (q : statement) (r : zones_row) :
  same_centroid r (update_row q r).
Proof. unfold update_row, same_centroid. destruct (_ =? _)%Z; repeat split. Qed.

(** A statement on a table: the rows already there stay where they are,
    with their keys and centroids; what follows them has no centroid if it
    had none. *)
Lemma run_statement_prefix (q : statement) (a b : zones_table) :
  exists b',
    run_statement (a ++ b) q = map (update_row q) a ++ b'
    /\ (Forall no_centroid b -> Forall no_centroid b').
Proof.
  unfold run_statement. destruct (has_key (q_key q) (a ++ b)) eqn:Hk.
  - exists (map (update_row q) b). rewrite map_app. split; [reflexivity|].
    intros Hb. apply Forall_fmap. eapply Forall_impl; [exact Hb|].
    intros r Hr. apply update_row_no_centroid, Hr.
  - exists (b ++ [new_row q]). split.
    + rewrite <- app_assoc. f_equal. symmetry.
      rewrite <- (map_id a) at 2. apply map_ext_in. intros r Hr.
      apply update_row_other. intros E.
      assert (has_key (q_key q) (a ++ b) = true); [|congruence].
      apply has_key_In. unfold keys. rewrite map_app. apply in_or_app. left.
      rewrite <- E. apply in_map, Hr.
    + intros Hb. apply Forall_app. split; [exact Hb|].
      constructor; [split; reflexivity | constructor].
Qed.

Lemma run_statements_prefix (qs : list statement) :
  forall a b,
    exists b',
      run_statements (a ++ b) qs = map (replay qs) a ++ b'
      /\ (Forall no_centroid b -> Forall no_centroid b').
Proof.
  induction qs as [|q qs IH]; intros a b.
  - exists b. cbn. rewrite map_id. split; [reflexivity | trivial].
  - cbn [run_statements fold_left]. fold (run_statements (run_statement (a ++ b) q) qs).
    destruct (run_statement_prefix q a b) as (b1 & -> & Hb1).
    destruct (IH (map (update_row q) a) b1) as (b2 & -> & Hb2).
    exists b2. rewrite map_map. split; [reflexivity|]. intros Hb. apply Hb2, Hb1, Hb.
Qed.

Lemma replay_same_centroid (qs : list statement) :
  forall r, same_centroid r (replay qs r).
Proof.
  induction qs as [|q qs IH]; intros r; [repeat split|].
  cbn [replay fold_left]. fold (replay qs (update_row q r)).
  destruct (IH (update_row q r)) as (H1 & H2 & H3).
  destruct (update_row_same_centroid q r) as (K1 & K2 & K3).
  repeat split; congruence.
Qed.

Section Loader.

Context `{RT : JsRuntime}.

(** X9. The loader removes no row and touches no centroid: the rows that
    were in the table are still there after a completed run, in the same
    places, each with its key and its centroid; the rows that follow them
    are the zones inserted by the run, without centroid. *)
Theorem loadZonesFromLookup_keeps_centroids
    (t t1 : zones_table) (rows : list lookup_row) (n : nat) :
  loadZonesFromLookup t rows = Some (n, t1) ->
  exists kept added,
    t1 = kept ++ added
    /\ Forall2 same_centroid t kept
    /\ Forall no_centroid added.
Proof.
  unfold loadZonesFromLookup. rewrite load_rows_statements.
  destruct (statements rows) as [qs|]; [|discriminate].
  cbn. intros [= _ <-].
  destruct (run_statements_prefix qs t []) as (b' & Hrun & Hb').
  rewrite app_nil_r in Hrun.
  exists (map (replay qs) t), b'. split; [exact Hrun|]. split.
  - apply Forall2_fmap_r. apply Forall2_same_length_lookup_2; [reflexivity|].
    intros i x y Hx Hy. rewrite Hx in Hy. injection Hy as <-.
    apply replay_same_centroid.
  - apply Hb'. constructor.
Qed.

Lemma statements_length (rows : list lookup_row) :
  forall qs, statements rows = Some qs -> (length qs <= length rows)%nat.
Proof.
  induction rows as [|row rest IH]; intros qs.
  - intros [= <-]. cbn. lia.
  - cbn [statements]. destruct (isNaN (locId_of row)).
    + intros H. apply IH in H. cbn. lia.
    + destruct (checked _ _ _ _) as [q|]; [|discriminate]. cbn [mbind option_bind].
      destruct (statements rest) as [qs'|]; [|discriminate]. cbn [mbind option_bind].
      intros [= <-]. cbn. specialize (IH qs' eq_refl). lia.
Qed.

End Loader.

Lemma loadZonesFromLookup_keeps_centroids_scenario :
  exists n t1,
    MoreScenarios.reloaded_zones = Some (n, t1)
    /\ exists kept added,
         t1 = kept ++ added
         /\ Forall2 same_centroid MoreScenarios.surveyed_table kept
         /\ Forall no_centroid added.
Proof.
  eexists. eexists. split; [reflexivity|].
  apply (loadZonesFromLookup_keeps_centroids (RT := RefRuntime.runtime)
           MoreScenarios.surveyed_table _ Scenario.lookup_rows 4).
  vm_compute. reflexivity.
Defined.

Lemma run_statements_length (qs : list statement) :
  forall t, (length (run_statements t qs) <= length t + length qs)%nat.
Proof.
  induction qs as [|q qs IH]; intros t; [cbn; lia|].
  cbn [run_statements fold_left]. fold (run_statements (run_statement t q) qs).
  specialize (IH (run_statement t q)).
  assert (length (run_statement t q) <= S (length t))%nat.
  { unfold run_statement. destruct (has_key _ _).
    - rewrite length_map. lia.
    - rewrite length_app. cbn. lia. }
  cbn [length]. lia.
Qed.

(** The keys of the table come from the table or from a statement. *)
Lemma run_statements_keys (qs : list statement) :
  forall t k,
    In k (keys (run_statements t qs)) ->
    In k (keys t) \/ exists q, In q qs /\ q_key q = k.
Proof.
  induction qs as [|q qs IH]; intros t k Hk; [left; exact Hk|].
  cbn [run_statements fold_left] in Hk. fold (run_statements (run_statement t q) qs) in Hk.
  apply IH in Hk as [Hk|(q' & Hq' & E)].
  - rewrite keys_run_statement in Hk. destruct (has_key (q_key q) t); [left; exact Hk|].
    apply in_app_or in Hk as [Hk|[<-|[]]]; [left; exact Hk|].
    right. exists q. split; [left; reflexivity | reflexivity].
  - right. exists q'. split; [right; exact Hq' | exact E].
Qed.

Lemma last_for_some (k : Z) (qs : list statement) :
  (exists q, In q qs /\ q_key q = k) -> exists q, last_for k qs = Some q.
Proof.
  induction qs as [|q0 qs IH]; intros (q & Hq & E); [destruct Hq|].
  cbn [last_for]. destruct (last_for k qs) as [q'|] eqn:Hlast; [eauto|].
  destruct Hq as [->|Hq].
  - subst k. rewrite Z.eqb_refl. eauto.
  - destruct IH as [q' Hq']; [eauto | discriminate].
Qed.

Section Fresh.

Context `{RT : JsRuntime}.

(** X10. Loading a lookup file into the emptied table leaves exactly one
    row for every distinct numeric id of the file: no key occurs twice, the
    keys are those of the statements sent, every row carries the names of
    the last row of the file for its id and has no centroid; so the table
    has at most as many rows as the count returned. *)
Theorem loadZonesFromLookup_fresh
    (t1 : zones_table) (rows : list lookup_row) (n : nat) :
  loadZonesFromLookup [] rows = Some (n, t1) ->
  exists qs,
    statements rows = Some qs
    /\ key_unique t1
    /\ (forall k, In k (keys t1) <-> exists q, In q qs /\ q_key q = k)
    /\ (forall r, In r t1 ->
          exists q, last_for (location_id r) qs = Some q
                    /\ named_by q r /\ no_centroid r)
    /\ (length t1 <= n)%nat.
Proof.
  unfold loadZonesFromLookup. rewrite load_rows_statements.
  destruct (statements rows) as [qs|] eqn:Hqs; [|discriminate].
  cbn. intros [= <- <-]. exists qs. split; [reflexivity|].
  assert (Hkeys : forall k, In k (keys (run_statements [] qs))
                            <-> exists q, In q qs /\ q_key q = k).
  { intros k. split.
    - intros Hk. apply run_statements_keys in Hk as [[]|Hk]. exact Hk.
    - intros (q & Hq & <-). apply has_key_In, statements_keys_present, Hq. }
  split; [apply key_unique_run_statements, NoDup_nil_2|].
  split; [exact Hkeys|]. split.
  - intros r Hr.
    destruct (last_for_some (location_id r) qs) as [q Hq].
    { apply Hkeys. unfold keys. apply in_map, Hr. }
    exists q. split; [exact Hq|]. split.
    + apply (run_statements_named qs []); assumption.
    + destruct (run_statements_prefix qs [] []) as (b' & Hrun & Hb').
      cbn in Hrun. rewrite Hrun in Hr.
      apply (proj1 (List.Forall_forall _ _) (Hb' (List.Forall_nil _)) r Hr).
  - pose proof (run_statements_length qs []) as H1.
    pose proof (statements_length rows qs Hqs) as H2. cbn in H1. lia.
Qed.

End Fresh.

Lemma loadZonesFromLookup_fresh_scenario :
  exists n t1,
    Scenario.loaded_zones = Some (n, t1)
    /\ exists qs,
         statements (RT := RefRuntime.runtime) Scenario.lookup_rows = Some qs
         /\ key_unique t1
         /\ (forall k, In k (keys t1) <-> exists q, In q qs /\ q_key q = k)
         /\ (forall r, In r t1 ->
               exists q, last_for (location_id r) qs = Some q
                         /\ named_by q r /\ no_centroid r)
         /\ (length t1 <= n)%nat.
Proof.
  eexists. eexists. split; [reflexivity|].
  apply (loadZonesFromLookup_fresh (RT := RefRuntime.runtime) _ Scenario.lookup_rows 4).
  vm_compute. reflexivity.
Defined.

Lemma omap_numeric_cons (p : vertex) (l : list vertex) :
  omap numeric (p :: l)
  = match numeric p with
    | Some v => v :: omap numeric l
    | None => omap numeric l
    end.
Proof. reflexivity. Qed.

(** The loop over a ring adds up the numeric vertices and counts them. *)
Lemma fold_add_vertex_sums (ring : list vertex) :
  forall (sx sy : num) (n : nat),
    fold_left add_vertex ring (sx, sy, n)
    = (fold_left JsNum.add (map fst (omap numeric ring)) sx,
       fold_left JsNum.add (map snd (omap numeric ring)) sy,
       (n + length (omap numeric ring))%nat).
Proof.
  induction ring as [|p ring IH]; intros sx sy n.
  - cbn. rewrite Nat.add_0_r. reflexivity.
  - rewrite omap_numeric_cons. cbn [fold_left add_vertex].
    destruct (numeric p) as [[x y]|].
    + rewrite IH. cbn [map fst snd fold_left length]. f_equal. lia.
    + apply IH.
Qed.

Lemma sum_finite (xs : list num) :
  Forall (fun x => exists a, x = Fin a) xs ->
  forall s : Q, exists s', fold_left JsNum.add xs (Fin s) = Fin s'.
Proof.
  induction 1 as [|x xs [a ->] _ IH]; intros s; cbn [fold_left JsNum.add]; eauto.
Qed.

Lemma mean_not_NaN (xs : list num) :
  Forall (fun x => exists a, x = Fin a) xs -> xs <> [] -> isNaN (mean xs) = false.
Proof.
  intros Hall Hne. unfold mean.
  destruct (sum_finite xs Hall 0) as [s Hs]. change (of_Z 0) with (Fin 0). rewrite Hs.
  unfold of_Z. cbn [JsNum.div].
  destruct (Qeq_bool (inject_Z (Z.of_nat (length xs))) 0) eqn:E; [|reflexivity].
  apply Qeq_bool_eq in E. unfold Qeq, inject_Z in E. cbn [Qnum Qden] in E.
  destruct xs; [contradiction | cbn [length] in E; lia].
Qed.

(** X11. The centroid of a polygon is [null] exactly when its first ring
    has no vertex with two numeric coordinates (or when there is no ring);
    the other rings are not read. *)
Theorem polygonCentroid_null (coords : list (list vertex)) :
  polygonCentroid coords = None
  <-> omap numeric (List.hd [] coords) = [].
Proof.
  destruct coords as [|ring holes]; [split; reflexivity|].
  cbn [polygonCentroid List.hd].
  destruct ring as [|p ring]; [split; reflexivity|].
  assert (Hcount : forall (l : list vertex) (sx sy : num) (n : nat),
             snd (fold_left add_vertex l (sx, sy, n)) = (n + length (omap numeric l))%nat).
  { induction l as [|v l IH]; intros sx sy n; [cbn; lia|].
    rewrite omap_numeric_cons. cbn [fold_left add_vertex].
    destruct (numeric v) as [[x y]|].
    - rewrite IH. cbn [length]. lia.
    - apply IH. }
  specialize (Hcount (p :: ring) (of_Z 0) (of_Z 0) O).
  destruct (fold_left add_vertex (p :: ring) (of_Z 0, of_Z 0, O)) as [[sx sy] n].
  cbn [snd] in Hcount. cbn [Nat.add] in Hcount.
  destruct n as [|n].
  - split; [|reflexivity]. intros _. destruct (omap numeric (p :: ring)); [reflexivity|].
    cbn in Hcount. lia.
  - split; [discriminate|]. intros E. rewrite E in Hcount. discriminate.
Qed.

(** X12. The centroid is the mean of the numeric vertices of the first
    ring and of nothing else: each coordinate is the sum, taken in the
    order of the ring, of that coordinate of the vertices that have two
    numbers, over the number of these vertices; a vertex without two
    numbers adds nothing and is not counted, and the other rings are not
    read.  When these vertices are finite, and there is one at least,
    neither coordinate of the centroid is NaN.  (The mean need not lie
    between the least and the greatest coordinate once sums are rounded,
    and nothing is said of that.) *)
Theorem polygonCentroid_mean_of_numeric_vertices
    (ring : list vertex) (holes : list (list vertex)) :
  polygonCentroid (ring :: holes)
  = match omap numeric ring with
    | [] => None
    | vs => Some (mean (map fst vs), mean (map snd vs))
    end
  /\ (Forall finite_vertex ring ->
      omap numeric ring <> [] ->
      exists cx cy,
        polygonCentroid (ring :: holes) = Some (cx, cy)
        /\ isNaN cx = false /\ isNaN cy = false).
Proof.
  assert (Hmean : polygonCentroid (ring :: holes)
                  = match omap numeric ring with
                    | [] => None
                    | vs => Some (mean (map fst vs), mean (map snd vs))
                    end).
  { cbn [polygonCentroid]. destruct ring as [|p ring]; [reflexivity|].
    rewrite fold_add_vertex_sums. cbn [Nat.add].
    destruct (omap numeric (p :: ring)) as [|v vs]; [reflexivity|].
    unfold mean. rewrite !length_map. reflexivity. }
  split; [exact Hmean|].
  intros Hfin Hsome. rewrite Hmean.
  assert (Hvs : Forall (fun v => (exists a, fst v = Fin a) /\ (exists b, snd v = Fin b))
                  (omap numeric ring)).
  { clear Hmean Hsome. induction Hfin as [|p l Hp _ IH]; [constructor|].
    rewrite omap_numeric_cons. unfold finite_vertex in Hp.
    destruct (numeric p) as [[x y]|]; [|exact IH].
    constructor; [exact Hp | exact IH]. }
  destruct (omap numeric ring) as [|v vs]; [contradiction|].
  eexists. eexists. split; [reflexivity|]. split.
  - apply mean_not_NaN; [|discriminate]. apply Forall_fmap.
    eapply Forall_impl; [exact Hvs|]. intros w [Hw _]. exact Hw.
  - apply mean_not_NaN; [|discriminate]. apply Forall_fmap.
    eapply Forall_impl; [exact Hvs|]. intros w [_ Hw]. exact Hw.
Qed.

Lemma polygonCentroid_mean_scenario :
  exists cx cy,
    polygonCentroid [MoreScenarios.open_ring] = Some (cx, cy)
    /\ isNaN cx = false /\ isNaN cy = false.
Proof.
  apply (proj2 (polygonCentroid_mean_of_numeric_vertices MoreScenarios.open_ring [])).
  - assert (B : forall a b : Z, finite_vertex (CNum (of_Z a), CNum (of_Z b))).
    { intros a b. split; eexists; reflexivity. }
    apply List.Forall_cons; [apply (B 0%Z 0%Z)|].
    apply List.Forall_cons; [apply (B 4%Z 0%Z)|].
    apply List.Forall_cons; [apply (B 4%Z 2%Z)|].
    apply List.Forall_cons; [exact I | apply List.Forall_nil].
  - vm_compute. discriminate.
Defined.

Lemma Forall2_chain {A : Type} (P Q R : A -> A -> Prop) (l1 l2 l3 : list A) :
  (forall x y z, P x y -> Q y z -> R x z) ->
  Forall2 P l1 l2 -> Forall2 Q l2 l3 -> Forall2 R l1 l3.
Proof.
  intros Hstep H12. revert l3. induction H12 as [|x y l1 l2 Hxy _ IH]; intros l3 H23.
  - inversion H23. constructor.
  - inversion H23 as [|y' z l2' l3' Hyz Hrest]; subst.
    constructor; [eapply Hstep; eassumption | apply IH, Hrest].
Qed.

Section Centroids.

Context `{RT : JsRuntime}.
Variable proj4 : num * num -> num * num.
Variable as_decimal : num -> option num.

Lemma update_centroid_frame (t t1 : zones_table) (c : centroid) :
  update_centroid as_decimal t c = Some t1 ->
  Forall2 (fun r r' =>
             same_zone r r'
             /\ (as_integer (c_location_id c) <> Some (location_id r) -> r' = r)) t t1.
Proof.
  unfold update_centroid.
  destruct (as_decimal (c_lat c)) as [lat|]; [|discriminate].
  destruct (as_decimal (c_lon c)) as [lon|]; [|discriminate].
  destruct (as_integer (c_location_id c)) as [k|]; [|discriminate].
  cbn. intros [= <-].
  apply Forall2_fmap_r. apply Forall2_same_length_lookup_2; [reflexivity|].
  intros i x y Hx Hy. rewrite Hx in Hy. injection Hy as <-.
  unfold same_zone, compose. cbn beta.
  destruct (location_id x =? k)%Z eqn:E; cbn.
  - split; [repeat split|]. intros Hne. apply Z.eqb_eq in E. subst k.
    contradiction Hne. reflexivity.
  - split; [repeat split | reflexivity].
Qed.

Lemma collect_length (features : list feature) :
  (length (collect proj4 features) <= length features)%nat.
Proof.
  induction features as [|f rest IH]; [cbn; lia|].
  cbn [collect]. destruct (feature_id f), (f_coordinates f); cbn [length]; try lia.
  destruct (polygonCentroid _); [|lia]. destruct (proj4 _). cbn [length]. lia.
Qed.

(** X13. The centroid pass only writes centroids: after a completed pass
    the table has the same rows in the same places with the same keys and
    names, and a row whose key no computed centroid names is unchanged.
    The count returned is the number of centroids computed, at most the
    number of features, whether or not a row of the table took them. *)
Theorem updateCentroidsFromShapefile_frame
    (t t1 : zones_table) (features : list feature) (n : nat) :
  updateCentroidsFromShapefile proj4 as_decimal t features = Some (n, t1) ->
  Forall2 same_zone t t1
  /\ Forall2 (fun r r' =>
                (forall c, In c (collect proj4 features) ->
                           as_integer (c_location_id c) <> Some (location_id r)) ->
                r' = r) t t1
  /\ n = length (collect proj4 features)
  /\ (n <= length features)%nat.
Proof.
  unfold updateCentroidsFromShapefile.
  destruct (update_all as_decimal t (collect proj4 features)) as [t'|] eqn:Hall;
    [|discriminate].
  cbn. intros [= <- <-].
  split; [|split; [|split; [reflexivity | apply collect_length]]].
  - revert t Hall. induction (collect proj4 features) as [|c cs IH]; intros t Hall.
    + cbn in Hall. injection Hall as <-.
      apply Forall2_same_length_lookup_2; [reflexivity|].
      intros i x y Hx Hy. rewrite Hx in Hy. injection Hy as <-. unfold same_zone. repeat split.
    + cbn [update_all] in Hall.
      destruct (update_centroid as_decimal t c) as [t0|] eqn:Hc; [|discriminate].
      cbn [mbind option_bind] in Hall.
      pose proof (update_centroid_frame _ _ _ Hc) as Hz.
      specialize (IH _ Hall).
      eapply Forall2_chain; [|exact Hz|exact IH].
      intros x y z [(A1 & A2 & A3 & A4) _] (B1 & B2 & B3 & B4). repeat split; congruence.
  - revert t Hall. induction (collect proj4 features) as [|c cs IH]; intros t Hall.
    + cbn in Hall. injection Hall as <-.
      apply Forall2_same_length_lookup_2; [reflexivity|].
      intros i x y Hx Hy. rewrite Hx in Hy. injection Hy as <-. reflexivity.
    + cbn [update_all] in Hall.
      destruct (update_centroid as_decimal t c) as [t0|] eqn:Hc; [|discriminate].
      cbn [mbind option_bind] in Hall.
      pose proof (update_centroid_frame _ _ _ Hc) as Hstep.
      specialize (IH _ Hall).
      eapply Forall2_chain; [|exact Hstep|exact IH].
      cbn. intros x y z [_ Hxy] Hyz Hnone.
      rewrite (Hxy (Hnone c (or_introl eq_refl))) in Hyz.
      apply Hyz. intros c' Hc'. apply Hnone. right. exact Hc'.
Qed.

End Centroids.

Lemma updateCentroidsFromShapefile_frame_scenario :
  exists t n t1,
    MoreScenarios.reloaded_zones = Some (4%nat, t)
    /\ MoreScenarios.backfilled_zones = Some (n, t1)
    /\ Forall2 same_zone t t1
    /\ Forall2 (fun r r' =>
                  (forall c, In c (collect (RT := RefRuntime.runtime)
                                     MoreScenarios.plane MoreScenarios.shapes) ->
                             as_integer (c_location_id c) <> Some (location_id r)) ->
                  r' = r) t t1
    /\ n = length (collect (RT := RefRuntime.runtime)
                     MoreScenarios.plane MoreScenarios.shapes)
    /\ (n <= length MoreScenarios.shapes)%nat.
Proof.
  eexists. eexists. eexists. split; [reflexivity|]. split; [reflexivity|].
  apply (updateCentroidsFromShapefile_frame (RT := RefRuntime.runtime)
           MoreScenarios.plane MoreScenarios.any_decimal _ _ MoreScenarios.shapes).
  vm_compute. reflexivity.
Defined.

(** *** The whole run *)

Lemma run_statements_loaded (qs : list statement) :
  loaded_from qs (run_statements [] qs).
Proof.
  assert (Hkeys : forall k, In k (keys (run_statements [] qs))
                            <-> exists q, In q qs /\ q_key q = k).
  { intros k. split.
    - intros Hk. apply run_statements_keys in Hk as [[]|Hk]. exact Hk.
    - intros (q & Hq & <-). apply has_key_In, statements_keys_present, Hq. }
  split; [apply key_unique_run_statements, NoDup_nil_2|].
  split; [exact Hkeys|].
  intros r Hr. destruct (last_for_some (location_id r) qs) as [q Hq].
  { apply Hkeys. unfold keys. apply in_map, Hr. }
  exists q. split; [exact Hq|]. apply (run_statements_named qs []); assumption.
Qed.

Lemma loaded_from_same_zone (qs : list statement) (t t' : zones_table) :
  loaded_from qs t -> Forall2 same_zone t t' -> loaded_from qs t'.
Proof.
  intros (Hu & Hk & Hn) Hz.
  assert (Hkeys : keys t' = keys t).
  { clear Hu Hk Hn. unfold keys.
    induction Hz as [|r r' l l' (H1 & _) _ IH]; [reflexivity|].
    cbn. rewrite H1, IH. reflexivity. }
  split; [unfold key_unique; rewrite Hkeys; exact Hu|].
  split; [intros k; rewrite Hkeys; apply Hk|].
  intros r' Hr'.
  assert (Hfrom : exists r, In r t /\ same_zone r r').
  { clear Hu Hk Hn Hkeys. induction Hz as [|r0 r0' l l' H0 _ IH]; [contradiction|].
    destruct Hr' as [<-|Hr'].
    - exists r0. split; [left; reflexivity | exact H0].
    - destruct (IH Hr') as (r & Hr & Hs). exists r. split; [right; exact Hr | exact Hs]. }
  destruct Hfrom as (r & Hr & H1 & H2 & H3 & H4).
  destruct (Hn r Hr) as (q & Hq & N1 & N2 & N3).
  exists q. rewrite H1. split; [exact Hq|].
  unfold named_by. rewrite H2, H3, H4. auto.
Qed.

Section Run.

Context `{RT : JsRuntime}.
Variable proj4 : num * num -> num * num.
Variable as_decimal : num -> option num.
Variable referenced : Z -> bool.

Lemma update_all_same_zone (cs : list centroid) :
  forall t t', update_all as_decimal t cs = Some t' -> Forall2 same_zone t t'.
Proof.
  induction cs as [|c cs IH]; intros t t' Hall.
  - cbn in Hall. injection Hall as <-.
    apply Forall2_same_length_lookup_2; [reflexivity|].
    intros i x y Hx Hy. rewrite Hx in Hy. injection Hy as <-.
    unfold same_zone. repeat split.
  - cbn [update_all] in Hall.
    destruct (update_centroid as_decimal t c) as [t0|] eqn:Hc; [|discriminate].
    cbn [mbind option_bind] in Hall.
    pose proof (update_centroid_frame _ _ _ _ Hc) as Hz.
    specialize (IH _ _ Hall).
    eapply Forall2_chain; [|exact Hz|exact IH].
    intros x y z [(A1 & A2 & A3 & A4) _] (B1 & B2 & B3 & B4). repeat split; congruence.
Qed.

(** X21. A completed run of the zone import leaves the table as the lookup
    file says, whatever it held before: one row for every numeric id of
    the file and no other, no id twice, each row with the names of the last
    row of the file for its id; the centroid pass changes none of this,
    and without a shapefile no row has a centroid.  The count logged is
    the number of rows read.  And a run completes only if the file was
    there and no trip referred to a zone of the table: once trips are
    imported, the first statement of the run is refused. *)
Theorem run_leaves_the_zones_of_the_file
    (t t1 : zones_table) (lookup : option (list lookup_row))
    (shapes : option (list feature)) (rep : report) :
  run proj4 as_decimal referenced t lookup shapes = Some (rep, t1) ->
  Forall (fun r => referenced (location_id r) = false) t
  /\ exists rows qs,
       lookup = Some rows
       /\ statements rows = Some qs
       /\ count rep = length rows
       /\ loaded_from qs t1
       /\ (shapes = None -> updated rep = None /\ Forall no_centroid t1).
Proof.
  unfold run. destruct lookup as [rows|]; [|discriminate]. cbn [mbind option_bind].
  unfold delete_zones.
  destruct (existsb (fun r => referenced (location_id r)) t) eqn:Eref; [discriminate|].
  cbn [mbind option_bind].
  unfold loadZonesFromLookup. rewrite load_rows_statements.
  destruct (statements rows) as [qs|] eqn:Hqs; [|discriminate].
  cbn [mbind option_bind fmap option_fmap option_map]. intros Hrun.
  split.
  { apply List.Forall_forall. intros r Hr.
    destruct (referenced (location_id r)) eqn:E; [|reflexivity].
    rewrite <- Eref. symmetry. apply existsb_exists. exists r. split; assumption. }
  exists rows, qs. split; [reflexivity|]. split; [exact Hqs|].
  pose proof (run_statements_loaded qs) as Hloaded.
  destruct shapes as [features|].
  - unfold updateCentroidsFromShapefile in Hrun.
    destruct (update_all as_decimal (run_statements [] qs) (collect proj4 features))
      as [t2|] eqn:Hall; [|discriminate].
    cbn in Hrun. injection Hrun as <- <-. cbn [count].
    split; [reflexivity|]. split; [|discriminate].
    eapply loaded_from_same_zone; [exact Hloaded|].
    eapply update_all_same_zone. exact Hall.
  - injection Hrun as <- <-. cbn [count updated].
    split; [reflexivity|]. split; [exact Hloaded|]. intros _. split; [reflexivity|].
    destruct (run_statements_prefix qs [] []) as (b' & Hrun & Hb').
    cbn in Hrun. rewrite Hrun. apply Hb'. constructor.
Qed.

End Run.

Lemma run_leaves_the_zones_of_the_file_scenario :
  exists rep t1,
    run (RT := RefRuntime.runtime) MoreScenarios.plane MoreScenarios.any_decimal
      (fun _ => false) MoreScenarios.surveyed_table (Some Scenario.lookup_rows)
      (Some MoreScenarios.shapes) = Some (rep, t1)
    /\ Forall (fun r => (fun _ : Z => false) (location_id r) = false)
         MoreScenarios.surveyed_table
    /\ exists rows qs,
         Some Scenario.lookup_rows = Some rows
         /\ statements (RT := RefRuntime.runtime) rows = Some qs
         /\ count rep = length rows
         /\ loaded_from qs t1
         /\ (Some MoreScenarios.shapes = None ->
               updated rep = None /\ Forall no_centroid t1).
Proof.
  eexists. eexists. split; [vm_compute; reflexivity|].
  apply (run_leaves_the_zones_of_the_file (RT := RefRuntime.runtime)
           MoreScenarios.plane MoreScenarios.any_decimal (fun _ => false)
           MoreScenarios.surveyed_table _ (Some Scenario.lookup_rows)
           (Some MoreScenarios.shapes)).
  vm_compute. reflexivity.
Defined.

End ImportZonesFurther.


(** ** The clustering engine, further *)

Module ClustererFurther.

Import Clusterer Assignment Server JsNumFacts.

Local Open Scope list_scope.

Lemma clamp_between (x : num) (lo d hi : Z) :
  (lo <= d <= hi)%Z ->
  exists q,
    max (of_Z lo) (JsNum.min (or_else x (of_Z d)) (of_Z hi)) = Fin q
    /\ (inject_Z lo <= q <= inject_Z hi)%Q.
Proof.
  intros [Hlo Hhi].
  assert (Q1 : (inject_Z lo <= inject_Z d)%Q) by (rewrite <- Zle_Qle; exact Hlo).
  assert (Q2 : (inject_Z d <= inject_Z hi)%Q) by (rewrite <- Zle_Qle; exact Hhi).
  assert (Q3 : (inject_Z lo <= inject_Z hi)%Q) by (eapply Qle_trans; eassumption).
  assert (Hfin : forall y, (exists m, JsNum.min (Fin y) (of_Z hi) = Fin m
                            /\ (m <= inject_Z hi)%Q /\ ((y <= inject_Z hi)%Q -> m = y))).
  { intros y. unfold of_Z. cbn. destruct (Qltb (inject_Z hi) y) eqn:E.
    - exists (inject_Z hi). split; [reflexivity|]. split; [apply Qle_refl|].
      intros Hy. apply Qltb_lt in E. exfalso. apply (Qlt_not_le _ _ E Hy).
    - exists y. split; [reflexivity|]. split; [apply Qltb_ge, E | reflexivity]. }
  assert (Hmax : forall m, (m <= inject_Z hi)%Q ->
                           exists q, max (of_Z lo) (Fin m) = Fin q
                                     /\ (inject_Z lo <= q <= inject_Z hi)%Q).
  { intros m Hm. unfold of_Z. cbn. destruct (Qltb (inject_Z lo) m) eqn:E.
    - exists m. split; [reflexivity|]. split; [|exact Hm].
      apply Qlt_le_weak, Qltb_lt, E.
    - exists (inject_Z lo). split; [reflexivity|]. split; [apply Qle_refl | exact Q3]. }
  unfold or_else.
  destruct x as [| |y|]; cbn [JsNum.truthy].
  - destruct (Hfin (inject_Z d)) as (m & Hm & Hle & _). unfold of_Z in *. rewrite Hm.
    apply Hmax, Hle.
  - unfold of_Z. cbn. replace (Qltb (inject_Z lo) (inject_Z hi)) with
      (Qltb (inject_Z lo) (inject_Z hi)) by reflexivity.
    exists (inject_Z lo). split; [reflexivity|]. split; [apply Qle_refl | exact Q3].
  - destruct (negb (Qeq_bool y 0)).
    + destruct (Hfin y) as (m & Hm & Hle & _). rewrite Hm. apply Hmax, Hle.
    + destruct (Hfin (inject_Z d)) as (m & Hm & Hle & _). unfold of_Z in *. rewrite Hm.
      apply Hmax, Hle.
  - unfold of_Z. cbn. destruct (Qltb (inject_Z lo) (inject_Z hi)) eqn:E.
    + exists (inject_Z hi). split; [reflexivity|]. split; [exact Q3 | apply Qle_refl].
    + exists (inject_Z lo). split; [reflexivity|]. split; [apply Qle_refl | exact Q3].
Qed.

Section Request.

Context `{RT : JsRuntime}.

Variable parseInt : string -> num.

(** X14. Whatever the query parameters of the clustering request are, and
    whatever [parseInt] makes of them (NaN, zero, a negative number, an
    infinity), the number of clusters asked for is a finite number between
    1 and 20 and the row limit one between 10 and 50000. *)
Theorem request_parameters_clamped (k limit : jsval) :
  (exists q, kValue parseInt k = Fin q /\ (1 <= q <= 20)%Q)
  /\ (exists q, limitValue parseInt limit = Fin q /\ (10 <= q <= 50000)%Q).
Proof.
  split.
  - apply (clamp_between (parse_param parseInt k 5) 1 5 20). lia.
  - apply (clamp_between (parse_param parseInt limit 10000) 10 10000 50000). lia.
Qed.

End Request.

(** *** Order on numbers *)

Lemma le_Fin (x y : Q) : le (Fin x) (Fin y) = true <-> (x <= y)%Q.
Proof.
  cbn. rewrite negb_true_iff. apply Qltb_ge.
Qed.

Lemma min_not_NaN (a b : num) :
  isNaN (JsNum.min a b) = false -> isNaN a = false /\ isNaN b = false.
Proof.
  destruct a, b; cbn; try discriminate; auto.
Qed.

Lemma min_either (a b : num) : JsNum.min a b = a \/ JsNum.min a b = b.
Proof.
  destruct a, b; cbn; auto; destruct (Qltb _ _); auto.
Qed.

Lemma le_refl (a : num) : isNaN a = false -> le a a = true.
Proof.
  destruct a; cbn; try discriminate; try reflexivity.
  intros _. rewrite negb_true_iff. apply Qltb_ge, Qle_refl.
Qed.

Lemma le_trans (a b c : num) : le a b = true -> le b c = true -> le a c = true.
Proof.
  destruct a as [| |x|], b as [| |y|], c as [| |z|]; try (cbn; congruence).
  rewrite !le_Fin. apply Qle_trans.
Qed.

Lemma le_min (a b : num) :
  isNaN (JsNum.min a b) = false ->
  le (JsNum.min a b) a = true /\ le (JsNum.min a b) b = true.
Proof.
  destruct a as [| |x|], b as [| |y|]; try (cbn; discriminate); try (cbn; auto; fail).
  all: try (cbn; intros _; split; reflexivity).
  - cbn [JsNum.min JsNum.lt]. destruct (Qltb y x) eqn:E; intros _; rewrite !le_Fin.
    + split; [apply Qlt_le_weak, Qltb_lt, E | apply Qle_refl].
    + split; [apply Qle_refl | apply Qltb_ge, E].
  - intros _. split; [apply le_Fin, Qle_refl | reflexivity].
  - intros _. split; [reflexivity | apply le_Fin, Qle_refl].
Qed.

Lemma eqb_le (a b : num) : JsNum.eqb a b = true -> le a b = true /\ le b a = true.
Proof.
  destruct a as [| |x|], b as [| |y|]; cbn; try discriminate; auto.
  intros H. apply Qeq_bool_eq in H. rewrite !negb_true_iff.
  split; apply Qltb_ge; rewrite H; apply Qle_refl.
Qed.

Lemma le_neq_lt (a b : num) :
  le a b = true -> JsNum.eqb b a = false -> JsNum.lt a b = true.
Proof.
  destruct a as [| |x|], b as [| |y|]; cbn; try discriminate; auto.
  rewrite negb_true_iff. intros H1 H2. apply Qltb_ge in H1. apply Qltb_lt.
  apply Qeq_bool_neq in H2. apply Qle_lteq in H1 as [H|H]; [exact H|].
  contradiction H2. symmetry. exact H.
Qed.

(** *** [Math.min(...distances)] and [indexOf] *)

Lemma fold_min_not_NaN (ds : list distance) :
  forall a, isNaN (radicand (fold_left dist_min ds a)) = false ->
            isNaN (radicand a) = false
            /\ dist_le (fold_left dist_min ds a) a = true
            /\ Forall (fun d => dist_le (fold_left dist_min ds a) d = true) ds.
Proof.
  induction ds as [|d ds IH]; intros a H; cbn [fold_left] in *.
  - split; [exact H|]. split; [apply le_refl, H | constructor].
  - destruct (IH _ H) as (H1 & H2 & H3). cbn [dist_min radicand] in H1.
    destruct (min_not_NaN _ _ H1) as [Ha Hd].
    destruct (le_min _ _ H1) as [La Ld].
    split; [exact Ha|]. unfold dist_le in *. cbn [dist_min radicand] in H2.
    split; [eapply le_trans; eassumption|].
    constructor; [eapply le_trans; eassumption | exact H3].
Qed.

Lemma indexOf_Some (ds : list distance) (m : distance) :
  forall i, indexOf ds m = Some i ->
    exists d, ds !! i = Some d
              /\ dist_eqb d m = true
              /\ forall j d', (j < i)%nat -> ds !! j = Some d' -> dist_eqb d' m = false.
Proof.
  induction ds as [|d ds IH]; intros i; cbn [indexOf]; [discriminate|].
  destruct (dist_eqb d m) eqn:E.
  - intros [= <-]. exists d. split; [reflexivity|]. split; [exact E|]. intros j d' Hj. lia.
  - destruct (indexOf ds m) as [i'|]; [|discriminate]. cbn. intros [= <-].
    destruct (IH i' eq_refl) as (d0 & H1 & H2 & H3).
    exists d0. split; [exact H1|]. split; [exact H2|].
    intros [|j] d' Hj; cbn.
    + intros [= <-]. exact E.
    + apply H3. lia.
Qed.


Lemma eqb_trans (a b c : num) :
  JsNum.eqb a b = true -> JsNum.eqb b c = true -> JsNum.eqb a c = true.
Proof.
  destruct a as [| |x|], b as [| |y|], c as [| |z|]; cbn; try discriminate; auto.
  intros H1 H2. apply Qeq_bool_iff. apply Qeq_bool_iff in H1, H2.
  rewrite H1. exact H2.
Qed.

Lemma eqb_sym (a b : num) : JsNum.eqb a b = JsNum.eqb b a.
Proof.
  destruct a as [| |x|], b as [| |y|]; cbn; try reflexivity.
  destruct (Qeq_bool x y) eqn:E1, (Qeq_bool y x) eqn:E2; try reflexivity.
  - apply Qeq_bool_iff in E1. symmetry in E1. apply Qeq_bool_iff in E1. congruence.
  - apply Qeq_bool_iff in E2. symmetry in E2. apply Qeq_bool_iff in E2. congruence.
Qed.

Lemma eqb_not_NaN (a b : num) : JsNum.eqb a b = true -> isNaN b = false.
Proof.
  destruct a, b; cbn; try discriminate; reflexivity.
Qed.

Section Engine.

Context `{RT : JsRuntime}.

(** X16. The index the assignment step computes for a point is that of a
    closest centroid: no centroid is strictly nearer to the point, and
    every centroid at a lower index is strictly farther, so that a tie goes
    to the first of the closest centroids.  (Distances are compared by
    their squares; a point with a NaN distance has no index at all.) *)
Theorem nearest_is_closest (centroids : list point) (p : point) (i : nat) :
  nearest centroids p = Some i ->
  exists c,
    centroids !! i = Some c
    /\ (forall j c', centroids !! j = Some c' ->
          dist_le (calculateDistance p c) (calculateDistance p c') = true)
    /\ (forall j c', (j < i)%nat -> centroids !! j = Some c' ->
          dist_lt (calculateDistance p c) (calculateDistance p c') = true).
Proof.
  unfold nearest. intros H.
  destruct (indexOf_Some _ _ _ H) as (d & Hd & Heq & Hfirst).
  change (map (calculateDistance p) centroids)
    with (calculateDistance p <$> centroids) in *.
  rewrite list_lookup_fmap in Hd.
  destruct (centroids !! i) as [c|] eqn:Hc; [|discriminate].
  cbn in Hd. injection Hd as <-.
  set (m := min_of (calculateDistance p <$> centroids)) in *.
  pose proof (eqb_not_NaN _ _ Heq) as Hm.
  destruct (fold_min_not_NaN _ _ Hm) as (_ & _ & Hall).
  destruct (eqb_le _ _ Heq) as [Hdm _].
  assert (Hle : forall j c', centroids !! j = Some c' ->
                  dist_le (calculateDistance p c) (calculateDistance p c') = true).
  { intros j c' Hj. unfold dist_le. eapply le_trans; [exact Hdm|].
    rewrite Forall_lookup in Hall. apply (Hall j).
    rewrite list_lookup_fmap, Hj. reflexivity. }
  exists c. split; [reflexivity|]. split; [exact Hle|].
  intros j c' Hlt Hj. apply le_neq_lt; [exact (Hle j c' Hj)|].
  destruct (JsNum.eqb _ _) eqn:E; [|reflexivity].
  rewrite <- (Hfirst j (calculateDistance p c') Hlt).
  - symmetry. eapply eqb_trans; [exact E | exact Heq].
  - rewrite list_lookup_fmap, Hj. reflexivity.
Qed.

(** *** The assignment step *)

Lemma push_at_lookup (cl : list (list point)) (i : nat) (p : point) (j : nat) :
  push_at cl i p !! j
  = (fun c => if decide (j = i) then c ++ [p] else c) <$> cl !! j.
Proof.
  unfold push_at. destruct (cl !! i) as [c|] eqn:E.
  - destruct (decide (j = i)) as [->|Hne].
    + rewrite list_lookup_insert_eq by (eapply lookup_lt_Some; eassumption).
      rewrite E. reflexivity.
    + rewrite list_lookup_insert_ne by congruence.
      destruct (cl !! j); reflexivity.
  - destruct (decide (j = i)) as [->|Hne].
    + rewrite E. reflexivity.
    + destruct (cl !! j); reflexivity.
Qed.

Lemma assign_fold (cs data : list point) :
  forall cl : list (list point),
    fold_left (fun clusters p =>
                 match nearest cs p with
                 | Some i => push_at clusters i p
                 | None => clusters
                 end) data cl
    = imap (fun i c => c ++ cluster_of cs data i) cl.
Proof.
  unfold cluster_of.
  induction data as [|p data IH]; intros cl.
  - cbn [fold_left]. apply list_eq. intros i. rewrite list_lookup_imap.
    destruct (cl !! i); cbn; [rewrite app_nil_r|]; reflexivity.
  - cbn [fold_left]. rewrite IH. apply list_eq. intros i.
    rewrite !list_lookup_imap.
    destruct (nearest cs p) as [j|] eqn:Hn.
    + rewrite push_at_lookup. destruct (cl !! i) as [c|]; [|reflexivity].
      cbn [fmap option_fmap option_map].
      f_equal. destruct (decide (i = j)) as [->|Hne].
      * rewrite filter_cons_True by exact Hn. rewrite <- app_assoc. reflexivity.
      * rewrite filter_cons_False by (rewrite Hn; congruence). reflexivity.
    + destruct (cl !! i) as [c|]; [|reflexivity].
      cbn [fmap option_fmap option_map]. f_equal.
      rewrite filter_cons_False by (rewrite Hn; discriminate). reflexivity.
Qed.

Lemma assign_spec (data cs : list point) (k : Z) :
  assign data cs k = cluster_of cs data <$> seq 0 (Z.to_nat k).
Proof.
  unfold assign. etransitivity; [apply (assign_fold cs data)|].
  apply list_eq. intros i. rewrite list_lookup_imap, list_lookup_fmap.
  destruct (decide (i < Z.to_nat k)%nat) as [Hi|Hi].
  - rewrite lookup_replicate_2, lookup_seq_lt by exact Hi. reflexivity.
  - rewrite (proj1 (lookup_replicate_None _ _ _)) by lia.
    rewrite lookup_seq_ge by lia. reflexivity.
Qed.

Lemma push_at_length (cl : list (list point)) (i : nat) (p : point) :
  length (push_at cl i p) = length cl.
Proof.
  unfold push_at. destruct (cl !! i); [apply length_insert | reflexivity].
Qed.

Lemma push_at_concat (cl : list (list point)) (i : nat) (p : point) :
  (i < length cl)%nat -> concat (push_at cl i p) ≡ₚ p :: concat cl.
Proof.
  intros Hi. unfold push_at.
  destruct (lookup_lt_is_Some_2 cl i Hi) as [c Hc]. rewrite Hc.
  rewrite insert_take_drop by exact Hi.
  assert (Hcl : concat cl = concat (take i cl) ++ c ++ concat (drop (S i) cl)).
  { rewrite <- (take_drop_middle cl i c Hc) at 1. rewrite concat_app. reflexivity. }
  rewrite Hcl, concat_app. cbn [concat].
  rewrite <- (app_assoc c [p]). cbn [app].
  rewrite (app_assoc (concat (take i cl)) c), (app_assoc (concat (take i cl)) c).
  symmetry. apply Permutation_middle.
Qed.

Lemma assign_fold_concat (cs data : list point) :
  forall cl : list (list point),
    concat (fold_left (fun clusters p =>
                         match nearest cs p with
                         | Some i => push_at clusters i p
                         | None => clusters
                         end) data cl)
    ≡ₚ concat cl ++ filter (fun p => placed cs (length cl) p = true) data.
Proof.
  induction data as [|p data IH]; intros cl.
  - cbn. rewrite app_nil_r. reflexivity.
  - cbn [fold_left]. rewrite IH. unfold placed at 2.
    destruct (nearest cs p) as [j|] eqn:Hn.
    + rewrite push_at_length. destruct (j <? length cl)%nat eqn:Hj.
      * rewrite filter_cons_True by (unfold placed; rewrite Hn; exact Hj).
        rewrite push_at_concat by (apply Nat.ltb_lt, Hj).
        cbn [app]. apply Permutation_middle.
      * rewrite filter_cons_False by (unfold placed; rewrite Hn, Hj; discriminate).
        unfold push_at. rewrite lookup_ge_None_2 by (apply Nat.ltb_ge, Hj). reflexivity.
    + rewrite filter_cons_False by (unfold placed; rewrite Hn; discriminate). reflexivity.
Qed.

Lemma concat_replicate_nil (n : nat) : concat (replicate n ([] : list point)) = [].
Proof.
  induction n as [|n IH]; [reflexivity | exact IH].
Qed.

Lemma assign_concat (data cs : list point) (k : Z) :
  concat (assign data cs k) ≡ₚ filter (fun p => placed cs (Z.to_nat k) p = true) data.
Proof.
  unfold assign. etransitivity; [apply (assign_fold_concat cs data)|].
  rewrite concat_replicate_nil, length_replicate. reflexivity.
Qed.


(** *** The loop *)

Lemma filter_nonempty_concat (cl : list (list point)) :
  concat (List.filter nonempty cl) = concat cl.
Proof.
  induction cl as [|c cl IH]; [reflexivity|].
  destruct c as [|q c]; cbn; [exact IH | rewrite IH; reflexivity].
Qed.

Lemma filter_nonempty_Forall (cl : list (list point)) :
  Forall (fun c => c <> []) (List.filter nonempty cl).
Proof.
  induction cl as [|c cl IH]; [constructor|].
  destruct c as [|q c]; cbn; [exact IH | constructor; [discriminate | exact IH]].
Qed.

Lemma filter_nonempty_length (cl : list (list point)) :
  (length (List.filter nonempty cl) <= length cl)%nat.
Proof.
  induction cl as [|c cl IH]; [reflexivity|].
  destruct c as [|q c]; cbn in *; lia.
Qed.

Lemma assign_length (data cs : list point) (k : Z) :
  length (assign data cs k) = Z.to_nat k.
Proof.
  rewrite assign_spec, length_fmap, length_seq. reflexivity.
Qed.

Lemma update_length (rand : oracle) (data : list point) (cl : list (list point)) :
  forall t, length (fst (update rand data cl t)) = length cl.
Proof.
  induction cl as [|c cl IH]; intros t; [reflexivity|].
  cbn [update]. destruct c as [|q c].
  - specialize (IH (S t)). destruct (update rand data cl (S t)) as [cs t1].
    cbn in *. lia.
  - specialize (IH t). destruct (update rand data cl t) as [cs t1].
    cbn in *. lia.
Qed.

Lemma iterate_assign (P : list point -> Prop) (rand : oracle) (data : list point) (k : Z) :
  (forall cs t, P cs -> P (fst (update rand data (assign data cs k) t))) ->
  forall n cs cl t,
    P cs -> n <> O ->
    exists cs', P cs' /\ fst (iterate n rand data k cs cl t) = assign data cs' k.
Proof.
  intros Hstep. induction n as [|n IH]; intros cs cl t Hcs Hn; [contradiction|].
  cbn [iterate]. pose proof (Hstep cs t Hcs) as Hnew.
  destruct (update rand data (assign data cs k) t) as [newCentroids t1].
  cbn [fst] in Hnew.
  destruct (converged cs newCentroids).
  - exists cs. split; [exact Hcs | reflexivity].
  - destruct n as [|n'].
    + exists cs. split; [exact Hcs | reflexivity].
    + apply IH; [exact Hnew | discriminate].
Qed.

Lemma init_loop_length (fuel : nat) (rand : oracle) (data : list point) (n : nat) :
  forall used cs t cs' t',
    init_loop fuel rand data n used cs t = Some (cs', t') ->
    length cs' = (length cs + n)%nat.
Proof.
  induction n as [|n IH]; intros used cs t cs' t'; cbn [init_loop].
  - intros [= <- <-]. lia.
  - destruct (draw_unused fuel rand data used t) as [[i t1]|]; [|discriminate].
    cbn [mbind option_bind]. intros H. apply IH in H. rewrite length_app in H.
    cbn in H. lia.
Qed.

(** What the normal path of [kMeans] returns, for a property of the
    centroids that the drawing establishes and the update keeps. *)
Lemma kMeans_normal (P : list point -> Prop)
    (fuel : nat) (rand : oracle) (t : nat) (data : list point)
    (k maxIterations : Z) (res : list (list point)) (t' : nat) :
  (1 <= k <= Z.of_nat (length data))%Z ->
  (1 <= maxIterations)%Z ->
  (forall cs t1, initializeCentroids fuel rand t data k = Some (cs, t1) -> P cs) ->
  (forall cs t, P cs -> P (fst (update rand data (assign data cs k) t))) ->
  kMeans fuel rand t data k maxIterations = Some (res, t') ->
  exists centroids,
    P centroids /\ res = List.filter nonempty (assign data centroids k).
Proof.
  intros Hk Hmax Hinit Hstep. unfold kMeans.
  destruct (length data =? 0)%nat eqn:E0; [apply Nat.eqb_eq in E0; lia|].
  replace ((k <=? 0)%Z || (k >? Z.of_nat (length data))%Z)%bool with false
    by (symmetry; apply orb_false_iff; split; lia).
  destruct (initializeCentroids fuel rand t data k) as [[cs t1]|] eqn:Ei; [|discriminate].
  cbn [mbind option_bind].
  destruct (iterate_assign P rand data k Hstep (Z.to_nat maxIterations) cs [] t1)
    as (cs' & Hcs' & Hres); [eapply Hinit; reflexivity | lia |].
  destruct (iterate _ rand data k cs [] t1) as [clusters t2]. cbn [fst] in Hres.
  intros [= <- <-]. exists cs'. split; [exact Hcs' | rewrite Hres; reflexivity].
Qed.

(** X15. On its normal path (at least one iteration, and a number of
    clusters between 1 and the number of points) the engine returns, for
    some list of [k] centroids, the non-empty ones among the [k] clusters
    of that list: cluster [i] holds exactly the points whose nearest
    centroid is the [i]-th, in the order of the input. *)
Theorem kMeans_clusters_by_nearest_centroid
    (fuel : nat) (rand : oracle) (t : nat) (data : list point)
    (k maxIterations : Z) (res : list (list point)) (t' : nat) :
  (1 <= k <= Z.of_nat (length data))%Z ->
  (1 <= maxIterations)%Z ->
  kMeans fuel rand t data k maxIterations = Some (res, t') ->
  exists centroids,
    length centroids = Z.to_nat k
    /\ res = List.filter nonempty (cluster_of centroids data <$> seq 0 (Z.to_nat k)).
Proof.
  intros Hk Hmax Hrun.
  destruct (kMeans_normal (fun cs => length cs = Z.to_nat k)
              fuel rand t data k maxIterations res t' Hk Hmax) as (cs & Hlen & Hres).
  - intros cs t1 Hinit. apply init_loop_length in Hinit. exact Hinit.
  - intros cs t0 _. rewrite update_length. apply assign_length.
  - exact Hrun.
  - exists cs. split; [exact Hlen|]. rewrite Hres, assign_spec. reflexivity.
Qed.

Lemma iterate_result (rand : oracle) (data : list point) (k : Z) (n : nat)
    (cs : list point) (t : nat) :
  fst (iterate n rand data k cs [] t) = []
  \/ exists cs', fst (iterate n rand data k cs [] t) = assign data cs' k.
Proof.
  destruct n as [|n]; [left; reflexivity|]. right.
  destruct (iterate_assign (fun _ => True) rand data k (fun _ _ _ => I) (S n) cs [] t I)
    as (cs' & _ & H); [discriminate|]. exists cs'. exact H.
Qed.

(** X17. Whatever it is called with, the engine never returns an empty
    cluster, never invents or repeats a point (every cluster is a
    subsequence of the input, and all the clusters together hold no more
    copies of a point than the input), and never returns more than
    [max(1, k)] clusters. *)
Theorem kMeans_keeps_points
    (fuel : nat) (rand : oracle) (t : nat) (data : list point)
    (k maxIterations : Z) (res : list (list point)) (t' : nat) :
  kMeans fuel rand t data k maxIterations = Some (res, t') ->
  Forall (fun c => c <> []) res
  /\ Forall (fun c => sublist c data) res
  /\ concat res ⊆+ data
  /\ (length res <= Z.to_nat (Z.max 1 k))%nat.
Proof.
  unfold kMeans. destruct data as [|p0 data0] eqn:Edata.
  { cbn. intros [= <- _]. split; [constructor|]. split; [constructor|].
    split; [apply submseteq_nil_l | cbn; lia]. }
  rewrite <- Edata. replace (length data =? 0)%nat with false by (subst data; reflexivity).
  assert (Hne : data <> []) by (subst data; discriminate). clear Edata.
  destruct ((k <=? 0)%Z || (k >? Z.of_nat (length data))%Z)%bool.
  { intros [= <- _]. split; [constructor; [exact Hne | constructor]|].
    split; [constructor; [reflexivity | constructor]|].
    split; [cbn; rewrite app_nil_r; reflexivity | cbn; lia]. }
  destruct (initializeCentroids fuel rand t data k) as [[cs t1]|]; [|discriminate].
  cbn [mbind option_bind].
  pose proof (iterate_result rand data k (Z.to_nat maxIterations) cs t1) as Hres.
  destruct (iterate _ rand data k cs [] t1) as [clusters t2]. cbn [fst] in Hres.
  intros [= <- _]. split; [apply filter_nonempty_Forall|].
  destruct Hres as [-> | [cs' ->]].
  { cbn. split; [constructor|]. split; [apply submseteq_nil_l | lia]. }
  split; [|split].
  - apply List.Forall_forall. intros c Hc. apply List.filter_In in Hc as [Hc _].
    rewrite assign_spec in Hc. apply list_elem_of_In, list_elem_of_fmap in Hc as (i & -> & _).
    apply sublist_filter.
  - rewrite filter_nonempty_concat, assign_concat.
    apply sublist_submseteq, sublist_filter.
  - pose proof (filter_nonempty_length (assign data cs' k)) as H.
    rewrite assign_length in H. lia.
Qed.


(** *** Finite points *)

Lemma tame_cases (x : num) : tame x <-> x = NaN \/ exists q, x = Fin q.
Proof.
  unfold tame. destruct x as [| |q|]; cbn; split.
  - auto.
  - intros _. eauto.
  - intros [q H]. discriminate.
  - intros [H|[q H]]; discriminate.
  - intros _. eauto.
  - intros _. eauto.
  - intros [q H]. discriminate.
  - intros [H|[q H]]; discriminate.
Qed.

Lemma tame_add (a b : num) : tame a -> tame b -> tame (JsNum.add a b).
Proof.
  rewrite !tame_cases. intros [->|[x ->]] [->|[y ->]]; cbn; eauto.
Qed.

Lemma tame_div (a : num) (n : nat) :
  tame a -> (0 < n)%nat -> tame (JsNum.div a (of_Z (Z.of_nat n))).
Proof.
  rewrite !tame_cases. intros [->|[x ->]] Hn; [left; reflexivity|]. right.
  unfold of_Z. cbn [JsNum.div].
  destruct (Qeq_bool (inject_Z (Z.of_nat n)) 0) eqn:E; [|eauto].
  apply Qeq_bool_eq in E. unfold Qeq, inject_Z in E. cbn [Qnum Qden] in E. lia.
Qed.

Lemma average_tame (f : point -> jsval) (cluster : list point) :
  Forall (fun p => clean (f p)) cluster -> cluster <> [] -> tame (average f cluster).
Proof.
  intros Hall Hne. unfold average. apply tame_div.
  - assert (H0 : tame (of_Z 0)) by (apply tame_cases; right; eexists; reflexivity).
    revert H0. generalize (of_Z 0). clear Hne.
    induction Hall as [|p l Hp _ IH]; intros a Ha.
    + exact Ha.
    + cbn [fold_left]. apply IH. apply tame_add; assumption.
  - destruct cluster; [contradiction | cbn; lia].
Qed.

Lemma copy_finite (rand : oracle) (data : list point) (t : nat) :
  in_unit rand -> data <> [] -> Forall finite_point data ->
  finite_point (copy_at data (random_index rand t data)).
Proof.
  intros Hunit Hne Hall.
  pose proof (ClustererProps.random_index_range rand data t Hunit Hne) as [H0 H1].
  unfold copy_at. destruct (random_index rand t data <? 0)%Z eqn:E; [lia|].
  destruct (lookup_lt_is_Some_2 data (Z.to_nat (random_index rand t data))) as [p Hp]; [lia|].
  rewrite Hp. rewrite Forall_lookup in Hall. exact (Hall _ _ Hp).
Qed.

Lemma update_finite (rand : oracle) (data : list point) :
  in_unit rand -> data <> [] -> Forall finite_point data ->
  forall cl t,
    Forall (Forall finite_point) cl ->
    Forall finite_point (fst (update rand data cl t)).
Proof.
  intros Hunit Hne Hall. induction cl as [|c cl IH]; intros t Hcl; [constructor|].
  apply Forall_cons in Hcl as [Hc Hcl]. cbn [update]. destruct c as [|q c].
  - specialize (IH (S t) Hcl). destruct (update rand data cl (S t)) as [cs t1].
    cbn [fst] in *. constructor; [apply copy_finite; assumption | exact IH].
  - specialize (IH t Hcl). destruct (update rand data cl t) as [cs t1].
    cbn [fst] in *. constructor; [|exact IH].
    unfold finite_point, clean. cbn [lat lon duration js_parseFloat].
    repeat split; (apply average_tame; [|discriminate]);
      (eapply Forall_impl; [exact Hc|]); intros p (H1 & H2 & H3); assumption.
Qed.

Lemma distance_finite (p c : point) :
  finite_point p -> finite_point c -> exists q, calculateDistance p c = Sqrt (Fin q).
Proof.
  intros ([a1 A1] & [a2 A2] & [a3 A3]) ([b1 B1] & [b2 B2] & [b3 B3]).
  unfold calculateDistance. rewrite A1, A2, A3, B1, B2, B3. eexists. reflexivity.
Qed.

Lemma fold_min_finite (ds : list distance) :
  Forall (fun d => exists q, d = Sqrt (Fin q)) ds ->
  forall a, In (fold_left dist_min ds (Sqrt (Fin a))) (Sqrt (Fin a) :: ds).
Proof.
  induction 1 as [|d ds [q ->] _ IH]; intros a; cbn [fold_left]; [left; reflexivity|].
  unfold dist_min at 2. cbn [radicand JsNum.min JsNum.lt].
  destruct (Qltb q a).
  - right. apply IH.
  - destruct (IH a) as [H|H]; [left; exact H | right; right; exact H].
Qed.

Lemma min_of_finite (ds : list distance) :
  ds <> [] -> Forall (fun d => exists q, d = Sqrt (Fin q)) ds ->
  In (min_of ds) ds /\ exists q, min_of ds = Sqrt (Fin q).
Proof.
  intros Hne Hall. destruct Hall as [|d ds [q ->] Hall]; [contradiction|].
  unfold min_of. cbn [fold_left].
  change (dist_min Infinity (Sqrt (Fin q))) with (Sqrt (Fin q)).
  pose proof (fold_min_finite ds Hall q) as Hin. split; [exact Hin|].
  assert (Hall' : Forall (fun d => exists q, d = Sqrt (Fin q)) (Sqrt (Fin q) :: ds))
    by (constructor; eauto).
  rewrite Forall_forall in Hall'. apply Hall', list_elem_of_In, Hin.
Qed.

Lemma indexOf_In (ds : list distance) (m : distance) :
  In m ds -> dist_eqb m m = true -> exists i, indexOf ds m = Some i.
Proof.
  intros Hin Hm. induction ds as [|d ds IH]; [contradiction|].
  cbn [indexOf]. destruct (dist_eqb d m) eqn:E; [eauto|].
  destruct Hin as [->|Hin]; [congruence|].
  destruct (IH Hin) as [i ->]. cbn. eauto.
Qed.

Lemma nearest_finite (cs : list point) (p : point) :
  cs <> [] -> Forall finite_point cs -> finite_point p ->
  exists i, nearest cs p = Some i /\ (i < length cs)%nat.
Proof.
  intros Hne Hcs Hp. unfold nearest.
  destruct (min_of_finite (map (calculateDistance p) cs)) as (Hin & q & Hq).
  - destruct cs; [contradiction | discriminate].
  - change (map (calculateDistance p) cs) with (calculateDistance p <$> cs).
    apply Forall_fmap. eapply Forall_impl; [exact Hcs|].
    intros c Hc. apply distance_finite; assumption.
  - destruct (indexOf_In _ _ Hin) as [i Hi].
    + rewrite Hq. unfold dist_eqb. cbn. apply Qeq_bool_iff. reflexivity.
    + exists i. split; [exact Hi|].
      destruct (indexOf_Some _ _ _ Hi) as (d & Hd & _).
      apply lookup_lt_Some in Hd. rewrite length_map in Hd. exact Hd.
Qed.

Lemma filter_all (P : point -> Prop) `{!forall x, Decision (P x)} (l : list point) :
  Forall P l -> filter P l = l.
Proof.
  induction 1 as [|x l Hx _ IH]; [reflexivity|].
  rewrite filter_cons_True by exact Hx. rewrite IH. reflexivity.
Qed.

(** X18. When no coordinate of a point parses to an infinity, the random
    source stays in [0, 1), and the call is on the normal path, the
    clusters returned are a partition of the input: together they hold
    every point exactly once, and there are between 1 and [k] of them. *)
Theorem kMeans_partitions_finite_points
    (fuel : nat) (rand : oracle) (t : nat) (data : list point)
    (k maxIterations : Z) (res : list (list point)) (t' : nat) :
  in_unit rand ->
  Forall finite_point data ->
  (1 <= k <= Z.of_nat (length data))%Z ->
  (1 <= maxIterations)%Z ->
  kMeans fuel rand t data k maxIterations = Some (res, t') ->
  concat res ≡ₚ data /\ (1 <= length res <= Z.to_nat k)%nat.
Proof.
  intros Hunit Hdata Hk Hmax Hrun.
  assert (Hne : data <> []) by (destruct data; [cbn in Hk; lia | discriminate]).
  destruct (kMeans_normal
              (fun cs => length cs = Z.to_nat k /\ Forall finite_point cs)
              fuel rand t data k maxIterations res t' Hk Hmax)
    as (cs & [Hlen Hcs] & Hres).
  - intros cs t1 Hinit. split; [apply init_loop_length in Hinit; exact Hinit|].
    destruct (ClustererProps.init_loop_distinct rand data Hunit Hne fuel (Z.to_nat k)
                ∅ [] t [] cs t1) as (idxs & _ & _ & Hpts).
    + intros i. rewrite elem_of_nil. split; [apply not_elem_of_empty | contradiction].
    + apply NoDup_nil_2.
    + constructor.
    + exact Hinit.
    + clear Hinit. induction Hpts as [|i c idxs cs [_ Hi] _ IH]; constructor; [|exact IH].
      rewrite Forall_lookup in Hdata. exact (Hdata _ _ Hi).
  - intros cs t0 [Hlen Hcs]. split; [rewrite update_length; apply assign_length|].
    apply update_finite; try assumption.
    rewrite assign_spec. apply Forall_fmap, Forall_forall. intros i _.
    unfold compose, cluster_of. apply Forall_forall. intros p Hp.
    apply list_elem_of_filter in Hp as [_ Hp]. rewrite Forall_forall in Hdata. auto.
  - exact Hrun.
  - assert (Hperm : concat res ≡ₚ data).
    { rewrite Hres, filter_nonempty_concat, assign_concat.
      rewrite filter_all; [reflexivity|].
      eapply Forall_impl; [exact Hdata|]. intros p Hp. unfold placed.
      destruct (nearest_finite cs p) as (i & -> & Hi); try assumption.
      - intros ->. cbn in Hlen. lia.
      - apply Nat.ltb_lt. lia. }
    split; [exact Hperm|]. split.
    + destruct res as [|c res]; [|cbn; lia].
      cbn in Hperm. apply Permutation_nil_l in Hperm. congruence.
    + rewrite Hres. pose proof (filter_nonempty_length (assign data cs k)) as H.
      rewrite assign_length in H. exact H.
Qed.

(** X19. The engine returns: with a random source that yields every index
    of the input again and again, for every input, number of clusters and
    bound on the iterations there is a number of draws within which
    [kMeans] comes back with its clusters. *)
Theorem kMeans_returns (rand : oracle) (t : nat) (data : list point)
    (k maxIterations : Z) :
  recurrent rand data ->
  exists fuel res t', kMeans fuel rand t data k maxIterations = Some (res, t').
Proof.
  intros Hrec. unfold kMeans.
  destruct (length data =? 0)%nat; [exists O; eauto|].
  destruct ((k <=? 0)%Z || (k >? Z.of_nat (length data))%Z)%bool eqn:E; [exists O; eauto|].
  apply orb_false_iff in E as [E1 E2].
  destruct (ClustererProps.init_loop_returns rand data Hrec (Z.to_nat k) ∅ [] t [])
    as (fuel & [cs t1] & Hinit).
  - intros i. rewrite elem_of_nil. split; [apply not_elem_of_empty | contradiction].
  - cbn. lia.
  - exists fuel. unfold initializeCentroids. rewrite Hinit. cbn [mbind option_bind].
    destruct (iterate _ rand data k cs [] t1) as [clusters t2]. eauto.
Qed.

End Engine.

Lemma nearest_is_closest_scenario :
  exists c,
    Scenario.two_points !! 1%nat = Some c
    /\ (forall j c', Scenario.two_points !! j = Some c' ->
          dist_le (calculateDistance (RT := RefRuntime.runtime) Scenario.point_b c)
                  (calculateDistance (RT := RefRuntime.runtime) Scenario.point_b c') = true)
    /\ (forall j c', (j < 1)%nat -> Scenario.two_points !! j = Some c' ->
          dist_lt (calculateDistance (RT := RefRuntime.runtime) Scenario.point_b c)
                  (calculateDistance (RT := RefRuntime.runtime) Scenario.point_b c') = true).
Proof.
  apply (nearest_is_closest (RT := RefRuntime.runtime)
           Scenario.two_points Scenario.point_b 1).
  vm_compute. reflexivity.
Defined.

Lemma kMeans_clusters_by_nearest_centroid_scenario :
  exists centroids,
    length centroids = Z.to_nat 2
    /\ [[Scenario.point_a]; [Scenario.point_b]]
       = List.filter nonempty
           (cluster_of (RT := RefRuntime.runtime) centroids Scenario.two_points
              <$> seq 0 (Z.to_nat 2)).
Proof.
  apply (kMeans_clusters_by_nearest_centroid (RT := RefRuntime.runtime)
           8 Scenario.alternating 0 Scenario.two_points 2 100 _ 2).
  - cbn. lia.
  - lia.
  - vm_compute. reflexivity.
Defined.

Lemma kMeans_keeps_points_scenario :
  Forall (fun c => c <> []) [Scenario.two_points]
  /\ Forall (fun c => sublist c Scenario.two_points) [Scenario.two_points]
  /\ concat [Scenario.two_points] ⊆+ Scenario.two_points
  /\ (length [Scenario.two_points] <= Z.to_nat (Z.max 1 1))%nat.
Proof.
  apply (kMeans_keeps_points (RT := RefRuntime.runtime)
           8 Scenario.alternating 0 Scenario.two_points 1 100 _ 1).
  vm_compute. reflexivity.
Defined.

Lemma kMeans_partitions_finite_points_scenario :
  concat [[Scenario.point_a]; [Scenario.point_b]] ≡ₚ Scenario.two_points
  /\ (1 <= length [[Scenario.point_a]; [Scenario.point_b]] <= Z.to_nat 2)%nat.
Proof.
  apply (kMeans_partitions_finite_points (RT := RefRuntime.runtime)
           8 Scenario.alternating 0 Scenario.two_points 2 100 _ 2).
  - exact ClustererProps.alternating_in_unit.
  - repeat constructor; eexists; vm_compute; reflexivity.
  - cbn. lia.
  - lia.
  - vm_compute. reflexivity.
Defined.

Lemma kMeans_returns_scenario :
  exists fuel res t',
    kMeans (RT := RefRuntime.runtime) fuel Scenario.alternating 0
      Scenario.two_points 2 100 = Some (res, t').
Proof.
  apply (kMeans_returns (RT := RefRuntime.runtime)
           Scenario.alternating 0 Scenario.two_points 2 100).
  exact ClustererProps.alternating_recurrent.
Defined.

End ClustererFurther.


(** ** The query builders of the server *)

Module ServerFurther.

Import Server.

Local Open Scope list_scope.

Ltac split_off_last_two :=
  first [ exists []; reflexivity
        | eexists (cons _ nil); reflexivity
        | eexists (cons _ (cons _ nil)); reflexivity
        | eexists (cons _ (cons _ (cons _ nil))); reflexivity
        | eexists (cons _ (cons _ (cons _ (cons _ nil)))); reflexivity
        | eexists (cons _ (cons _ (cons _ (cons _ (cons _ nil))))); reflexivity ].

Section Queries.

Context `{RT : JsRuntime}.

Variable parseInt : string -> num.

(** X20. Whatever filters a request carries, the queries of [/api/trips]
    and [/api/heatmap] bind every placeholder they write: the placeholders
    of the text are [$1], [$2], ... up to the number of parameters handed
    over with it, in that order and each once.  The trips query has between
    two and seven parameters, the last two being the numbers read from
    [limit] and [offset] (1000 and 0 when absent), which are not clamped;
    the heatmap query has at most two. *)
Theorem queries_bind_every_placeholder (q : filters) :
  (placeholders (fst (trips_query parseInt q))
   = numbered (length (snd (trips_query parseInt q)))
   /\ (2 <= length (snd (trips_query parseInt q)) <= 7)%nat
   /\ exists given,
        snd (trips_query parseInt q)
        = given ++ [PNumber (parse_param parseInt (limit q) 1000);
                    PNumber (parse_param parseInt (offset q) 0)])
  /\ (placeholders (fst (heatmap_query parseInt q))
      = numbered (length (snd (heatmap_query parseInt q)))
      /\ (length (snd (heatmap_query parseInt q)) <= 2)%nat).
Proof.
  unfold trips_query, heatmap_query, when_truthy, when_defined.
  split.
  - destruct (falsy (borough q)), (hour q), (falsy (minDuration q)),
      (falsy (maxDuration q)), (falsy (tripType q));
      (split; [reflexivity|]); (split; [cbn; lia|]); split_off_last_two.
  - destruct (falsy (borough q)), (hour q); split; solve [reflexivity | cbn; lia].
Qed.

End Queries.

End ServerFurther.
